(** * load_tweets.py: the tweet loader, embedded and verified

    A shallow embedding of [src/load_tweets.py]: the sanitizer
    [remove_nulls], the URL resolver [get_id_urls] and the record writer
    [insert_tweet], together with the part of Python and of the storage
    layer these three functions rely on.

    - A decoded JSON document is a [pyval].  Strings are sequences of code
      points below 256 (Rocq's [string]); a float is carried by its [repr],
      which is all the loader ever reads of it.
    - Python code that only reads the record lives in the error monad [res]:
      it returns a value or raises one of the exceptions of [exn].
    - Code that talks to the database lives in [M], a state-and-error monad
      over a connection [Conn]: the store as the current transaction sees it,
      and the list of statements sent so far, each with its parameters as the
      loader passed them to [connection.execute]. *)

From Stdlib Require Import ZArith List String Ascii Bool Arith Lia DecimalString.
From Stdlib Require DecimalPos DecimalZ.
Import ListNotations.

Set Warnings "-register-all".

Open Scope list_scope.
Open Scope string_scope.

(** ** Python values and exceptions *)

Inductive pyval : Type :=
| PNone
| PBool (b : bool)
| PInt (n : Z)
| PFloat (repr : string)
| PStr (s : string)
| PList (xs : list pyval)
| PDict (kvs : list (string * pyval)).

(** The exception classes the loader can meet.  [KeyError] carries the missing
    key; [ValueError] is what the driver raises for a string parameter with a
    NUL character; [StorageError] stands for every error raised by the
    database. *)
Inductive exn : Type :=
| KeyError (key : string)
| TypeError
| IndexError
| AttributeError
| ValueError
| StorageError.

Inductive res (A : Type) : Type :=
| Ok (a : A)
| Raise (e : exn).

Arguments Ok {A} a.
Arguments Raise {A} e.

Definition res_bind {A B} (m : res A) (k : A -> res B) : res B :=
  match m with
  | Ok a => k a
  | Raise e => Raise e
  end.

Declare Scope res_scope.
Delimit Scope res_scope with res.
Notation "x <- m ;; k" := (res_bind m (fun x => k))
  (at level 61, m at next level, right associativity) : res_scope.

Definition is_KeyError (e : exn) : bool :=
  match e with KeyError _ => true | _ => false end.

Definition is_TypeError (e : exn) : bool :=
  match e with TypeError => true | _ => false end.

Definition is_TypeError_or_KeyError (e : exn) : bool :=
  is_TypeError e || is_KeyError e.

(** [try: m  except <classes>: h] *)
Definition try_except {A} (m : res A) (classes : exn -> bool) (h : res A) : res A :=
  match m with
  | Ok a => Ok a
  | Raise e => if classes e then h else Raise e
  end.

(** ** Strings *)

Definition NUL : ascii := Ascii.zero.

Fixpoint has_char (c : ascii) (s : string) : bool :=
  match s with
  | EmptyString => false
  | String a s' => Ascii.eqb a c || has_char c s'
  end.

(** [s.replace(c, '')] for a one-character [c]. *)
Fixpoint remove_char (c : ascii) (s : string) : string :=
  match s with
  | EmptyString => EmptyString
  | String a s' => if Ascii.eqb a c then remove_char c s' else String a (remove_char c s')
  end.

Definition code (c : ascii) : nat := nat_of_ascii c.

(** [str.lower] on code points below 256: A-Z and the Latin-1 capitals, each
    to one code point of the same range.  (Beyond this range, which the
    strings of the embedding do not reach, [str.lower] can give two code
    points for one: no statement below relies on the length of a string
    being that of its lower-case form.) *)
Definition lower_char (c : ascii) : ascii :=
  let n := code c in
  if (((65 <=? n) && (n <=? 90))
      || ((192 <=? n) && (n <=? 222) && negb (n =? 215)))%nat
  then ascii_of_nat (n + 32)
  else c.

Fixpoint lower (s : string) : string :=
  match s with
  | EmptyString => EmptyString
  | String a s' => String (lower_char a) (lower s')
  end.

(** [str.isspace] on code points below 256. *)
Definition is_space (c : ascii) : bool :=
  let n := code c in
  (((9 <=? n) && (n <=? 13)) || ((28 <=? n) && (n <=? 32))
   || (n =? 133) || (n =? 160))%nat.

Fixpoint lstrip (space : ascii -> bool) (cs : list ascii) : list ascii :=
  match cs with
  | c :: cs' => if space c then lstrip space cs' else cs
  | [] => []
  end.

Definition strip_by (space : ascii -> bool) (s : string) : string :=
  string_of_list_ascii
    (rev (lstrip space (rev (lstrip space (list_ascii_of_string s))))).

(** [s.strip()] *)
Definition strip (s : string) : string := strip_by is_space s.

(** [s.split(sep)] for a one-character separator: never empty. *)
Fixpoint split (sep : ascii) (s : string) : list string :=
  match s with
  | EmptyString => [EmptyString]
  | String a s' =>
      if Ascii.eqb a sep then EmptyString :: split sep s'
      else match split sep s' with
           | h :: t => String a h :: t
           | [] => [String a EmptyString]
           end
  end.

Fixpoint join (sep : string) (l : list string) : string :=
  match l with
  | [] => EmptyString
  | [x] => x
  | x :: l' => x ++ sep ++ join sep l'
  end.

(** Decimal text of an integer, as [str] and [repr] print it. *)
Definition str_of_Z (n : Z) : string := NilZero.string_of_int (Z.to_int n).

Definition hex_digit (n : nat) : ascii :=
  if (n <? 10)%nat then ascii_of_nat (48 + n) else ascii_of_nat (87 + n).

Definition dquote : ascii := ascii_of_nat 34.
Definition squote : ascii := ascii_of_nat 39.
Definition backslash : ascii := ascii_of_nat 92.

Definition str1 (c : ascii) : string := String c EmptyString.

(** One character of [repr] of a string quoted with [q]. *)
Definition repr_char (q c : ascii) : string :=
  let n := code c in
  if Ascii.eqb c backslash then String backslash (str1 backslash)
  else if Ascii.eqb c q then String backslash (str1 q)
  else if (n =? 9)%nat then String backslash "t"
  else if (n =? 10)%nat then String backslash "n"
  else if (n =? 13)%nat then String backslash "r"
  else if ((n <? 32) || ((127 <=? n) && (n <=? 160)) || (n =? 173))%nat
  then String backslash (String "x" (String (hex_digit (n / 16)) (str1 (hex_digit (n mod 16)))))
  else str1 c.

Fixpoint repr_chars (q : ascii) (s : string) : string :=
  match s with
  | EmptyString => EmptyString
  | String a s' => repr_char q a ++ repr_chars q s'
  end.

(** [repr] of a string: single quotes, unless the string has a single quote
    and no double quote. *)
Definition repr_str (s : string) : string :=
  let q := if has_char squote s && negb (has_char dquote s) then dquote else squote in
  String q (repr_chars q s ++ str1 q).

Fixpoint py_repr (x : pyval) : string :=
  match x with
  | PNone => "None"
  | PBool true => "True"
  | PBool false => "False"
  | PInt n => str_of_Z n
  | PFloat r => r
  | PStr s => repr_str s
  | PList xs => "[" ++ join ", " (map py_repr xs) ++ "]"
  | PDict kvs =>
      "{" ++ join ", " (map (fun kv => repr_str (fst kv) ++ ": " ++ py_repr (snd kv)) kvs) ++ "}"
  end.

(** [str(x)]; also what an f-string field [{x}] prints. *)
Definition py_str (x : pyval) : string :=
  match x with
  | PStr s => s
  | _ => py_repr x
  end.

(** ** Python operations on values *)

Fixpoint assoc (k : string) (kvs : list (string * pyval)) : option pyval :=
  match kvs with
  | [] => None
  | (k', v) :: rest => if String.eqb k' k then Some v else assoc k rest
  end.

(** [x[k]] for a string key [k]. *)
Definition getitem (x : pyval) (k : string) : res pyval :=
  match x with
  | PDict kvs =>
      match assoc k kvs with
      | Some v => Ok v
      | None => Raise (KeyError k)
      end
  | _ => Raise TypeError
  end.

(** [x[i]] for a literal index [i >= 0]. *)
Definition getindex (x : pyval) (i : nat) : res pyval :=
  match x with
  | PList xs =>
      match nth_error xs i with
      | Some v => Ok v
      | None => Raise IndexError
      end
  | PStr s =>
      match String.get i s with
      | Some c => Ok (PStr (str1 c))
      | None => Raise IndexError
      end
  | PDict _ => Raise (KeyError (str_of_Z (Z.of_nat i)))
  | _ => Raise TypeError
  end.

(** [x.get(k)] *)
Definition py_get (x : pyval) (k : string) : res pyval :=
  match x with
  | PDict kvs =>
      match assoc k kvs with
      | Some v => Ok v
      | None => Ok PNone
      end
  | _ => Raise AttributeError
  end.

(** The elements a [for] loop (or [enumerate]) draws from [x]. *)
Definition py_iter (x : pyval) : res (list pyval) :=
  match x with
  | PList xs => Ok xs
  | PStr s => Ok (map (fun c => PStr (str1 c)) (list_ascii_of_string s))
  | PDict kvs => Ok (map (fun kv => PStr (fst kv)) kvs)
  | _ => Raise TypeError
  end.

(** Truth value of [x] in an [if]. *)
Definition py_truthy (x : pyval) : bool :=
  match x with
  | PNone => false
  | PBool b => b
  | PInt n => negb (n =? 0)%Z
  | PFloat r => negb (String.eqb r "0.0" || String.eqb r "-0.0")
  | PStr s => negb (String.eqb s "")
  | PList xs => match xs with [] => false | _ => true end
  | PDict kvs => match kvs with [] => false | _ => true end
  end.

Definition is_None (x : pyval) : bool :=
  match x with PNone => true | _ => false end.

(** [x.lower()] *)
Definition py_lower (x : pyval) : res pyval :=
  match x with
  | PStr s => Ok (PStr (lower s))
  | _ => Raise AttributeError
  end.

(** ['c' + x] for a string literal ['c'] *)
Definition py_prepend (c : string) (x : pyval) : res pyval :=
  match x with
  | PStr s => Ok (PStr (c ++ s))
  | _ => Raise TypeError
  end.

(** ** The sanitizer

<<
def remove_nulls(s):
    if s is None:
        return None
    else:
        return s.replace('\x00','')
>> *)
Definition remove_nulls (s : pyval) : res pyval :=
  match s with
  | PNone => Ok PNone
  | PStr t => Ok (PStr (remove_char NUL t))
  | _ => Raise AttributeError
  end.


(** ** The storage layer

    The loader talks to the database through [connection.execute] with ten
    different SQL texts.  A [stmt] is one such call: the SQL text it names and
    the parameters exactly as the loader passed them. *)

(** Parameters of [INSERT INTO users (id_users, created_at, ...)], lines 87-140. *)
Record user_params : Type := {
  u_id_users : pyval;
  u_created_at : pyval;
  u_updated_at : pyval;
  u_screen_name : pyval;
  u_name : pyval;
  u_location : pyval;
  u_id_urls : pyval;
  u_description : pyval;
  u_protected : pyval;
  u_verified : pyval;
  u_friends_count : pyval;
  u_listed_count : pyval;
  u_favourites_count : pyval;
  u_statuses_count : pyval;
  u_withheld_in_countries : pyval
}.

(** Parameters of [INSERT INTO tweets (id_tweets, id_users, ...)], lines 201-263. *)
Record tweet_params : Type := {
  t_id_tweets : pyval;
  t_id_users : pyval;
  t_created_at : pyval;
  t_in_reply_to_status_id : pyval;
  t_in_reply_to_user_id : pyval;
  t_quoted_status_id : pyval;
  t_retweet_count : pyval;
  t_favorite_count : pyval;
  t_quote_count : pyval;
  t_withheld_copyright : pyval;
  t_withheld_in_countries : pyval;
  t_source : pyval;
  t_text : pyval;
  t_country_code : pyval;
  t_state_code : pyval;
  t_lang : pyval;
  t_place_name : pyval;
  t_geo : pyval
}.

Inductive stmt : Type :=
| InsertUrl (url : pyval)
    (* INSERT INTO urls (url) VALUES (:url) ON CONFLICT DO NOTHING RETURNING id_urls *)
| SelectUrl (url : pyval)
    (* SELECT id_urls FROM urls WHERE url = :url *)
| SelectTweet (id_tweets : pyval)
    (* SELECT id_tweets FROM tweets WHERE id_tweets = :id_tweets *)
| InsertUser (p : user_params)
    (* INSERT INTO users (...) VALUES (...) ON CONFLICT (id_users) DO NOTHING *)
| InsertUserStub (id_users : pyval)
    (* INSERT INTO users (id_users) VALUES (:id_users) ON CONFLICT DO NOTHING *)
| InsertTweet (p : tweet_params)
    (* INSERT INTO tweets (...) VALUES (...) ON CONFLICT DO NOTHING *)
| InsertTweetUrl (id_tweets id_urls : pyval)
    (* INSERT INTO tweet_urls (id_tweets, id_urls) ... ON CONFLICT DO NOTHING *)
| InsertTweetMention (id_tweets id_users : pyval)
    (* INSERT INTO tweet_mentions (id_tweets, id_users) ... ON CONFLICT DO NOTHING *)
| InsertTweetTag (id_tweets tag : pyval)
    (* INSERT INTO tweet_tags (id_tweets, tag) ... ON CONFLICT DO NOTHING *)
| InsertTweetMedia (id_tweets id_urls type : pyval)
    (* INSERT INTO tweet_media (id_tweets, id_urls, type) ... ON CONFLICT DO NOTHING *).

(** The row an identifier-only insert creates: every other column is null. *)
Definition stub_row (id : pyval) : user_params :=
  {| u_id_users := id; u_created_at := PNone; u_updated_at := PNone;
     u_screen_name := PNone; u_name := PNone; u_location := PNone;
     u_id_urls := PNone; u_description := PNone; u_protected := PNone;
     u_verified := PNone; u_friends_count := PNone; u_listed_count := PNone;
     u_favourites_count := PNone; u_statuses_count := PNone;
     u_withheld_in_countries := PNone |}.

(** Modelled from the spec: the schema is not part of the source.  Section 3
    of the spec gives the tables and their keys: Post and Author unique by
    identifier, Url with an auto-assigned surrogate identifier and a unique url
    string, and the four association tables with the composite keys (post,
    url), (post, author), (post, tag) and (post, url).  A table is the list of
    its rows in insertion order, each row under the value of its key columns;
    the remaining columns keep the parameters as they were sent.  Foreign keys
    are not enforced (the spec leaves enforcement to the store). *)
Record Rows : Type := {
  users : list (Z * user_params);
  tweets : list (Z * tweet_params);
  urls : list (Z * option string);
  tweet_urls : list (Z * Z);
  tweet_mentions : list (Z * Z);
  tweet_tags : list (Z * string);
  tweet_media : list (Z * Z * pyval)
}.

(** Modelled from the spec: the Url identifier is a surrogate, auto-assigned
    (section 3).  The store is its rows and the last value drawn from the
    sequence behind [id_urls]; an insert draws the next value whether or not it
    then conflicts, and a rollback restores [rows] only. *)
Record Store : Type := {
  rows : Rows;
  urls_seq : Z
}.

Definition empty_rows : Rows :=
  {| users := []; tweets := []; urls := []; tweet_urls := [];
     tweet_mentions := []; tweet_tags := []; tweet_media := [] |}.

Definition empty_store : Store := {| rows := empty_rows; urls_seq := 0 |}.

Definition add_user (k : Z) (p : user_params) (r : Rows) : Rows :=
  {| users := users r ++ [(k, p)]; tweets := tweets r; urls := urls r;
     tweet_urls := tweet_urls r; tweet_mentions := tweet_mentions r;
     tweet_tags := tweet_tags r; tweet_media := tweet_media r |}.

Definition add_tweet (k : Z) (p : tweet_params) (r : Rows) : Rows :=
  {| users := users r; tweets := tweets r ++ [(k, p)]; urls := urls r;
     tweet_urls := tweet_urls r; tweet_mentions := tweet_mentions r;
     tweet_tags := tweet_tags r; tweet_media := tweet_media r |}.

Definition add_url (k : Z) (u : option string) (r : Rows) : Rows :=
  {| users := users r; tweets := tweets r; urls := urls r ++ [(k, u)];
     tweet_urls := tweet_urls r; tweet_mentions := tweet_mentions r;
     tweet_tags := tweet_tags r; tweet_media := tweet_media r |}.

Definition add_tweet_url (t u : Z) (r : Rows) : Rows :=
  {| users := users r; tweets := tweets r; urls := urls r;
     tweet_urls := tweet_urls r ++ [(t, u)]; tweet_mentions := tweet_mentions r;
     tweet_tags := tweet_tags r; tweet_media := tweet_media r |}.

Definition add_tweet_mention (t u : Z) (r : Rows) : Rows :=
  {| users := users r; tweets := tweets r; urls := urls r;
     tweet_urls := tweet_urls r; tweet_mentions := tweet_mentions r ++ [(t, u)];
     tweet_tags := tweet_tags r; tweet_media := tweet_media r |}.

Definition add_tweet_tag (t : Z) (tag : string) (r : Rows) : Rows :=
  {| users := users r; tweets := tweets r; urls := urls r;
     tweet_urls := tweet_urls r; tweet_mentions := tweet_mentions r;
     tweet_tags := tweet_tags r ++ [(t, tag)]; tweet_media := tweet_media r |}.

Definition add_tweet_media (t u : Z) (ty : pyval) (r : Rows) : Rows :=
  {| users := users r; tweets := tweets r; urls := urls r;
     tweet_urls := tweet_urls r; tweet_mentions := tweet_mentions r;
     tweet_tags := tweet_tags r; tweet_media := tweet_media r ++ [(t, u, ty)] |}.

(** *** Parameters as the store reads them *)

(** Modelled from the spec: the column types are part of the schema, which is
    not in the source.  Identifiers are large integers (section 3): here the
    64-bit signed range of the store the SQL texts are written for. *)
Definition in_bigint (n : Z) : bool :=
  ((- 2 ^ 63 <=? n) && (n <? 2 ^ 63))%Z.

Definition pg_space (c : ascii) : bool :=
  (((9 <=? code c) && (code c <=? 13)) || (code c =? 32))%nat.

(** Integer input text: digits with an optional sign, blanks around it allowed. *)
Definition parse_int (s : string) : option Z :=
  match strip_by pg_space s with
  | String "+" digits =>
      option_map (fun d => Z.of_int (Decimal.Pos d)) (NilZero.uint_of_string digits)
  | t => option_map Z.of_int (NilZero.int_of_string t)
  end.

(** Modelled from the spec: a parameter for an identifier column is null, an
    integer, or integer text ("exact-precision strings", section 3); the
    store refuses anything else. *)
Definition as_bigint (x : pyval) : res (option Z) :=
  match x with
  | PNone => Ok None
  | PInt n => if in_bigint n then Ok (Some n) else Raise StorageError
  | PStr s =>
      match parse_int s with
      | Some n => if in_bigint n then Ok (Some n) else Raise StorageError
      | None => Raise StorageError
      end
  | _ => Raise StorageError
  end.

(** A parameter for an integer key column: as above, and not null. *)
Definition as_key (x : pyval) : res Z :=
  match as_bigint x with
  | Ok (Some n) => Ok n
  | Ok None => Raise StorageError
  | Raise e => Raise e
  end.

(** Modelled from the spec: a parameter for a text column (the url string,
    section 3) is null or a string, and code point 0 is illegal in the text
    of the storage layer (sections 2 and 4.1): a string that holds a NUL
    character is refused, with the [ValueError] of the driver. *)
Definition as_text (x : pyval) : res (option string) :=
  match x with
  | PNone => Ok None
  | PStr s => if has_char NUL s then Raise ValueError else Ok (Some s)
  | _ => Raise StorageError
  end.

Definition as_text_key (x : pyval) : res string :=
  match x with
  | PStr s => if has_char NUL s then Raise ValueError else Ok s
  | _ => Raise StorageError
  end.

(** *** Lookups *)

Definition has_key {R : Type} (k : Z) (tbl : list (Z * R)) : bool :=
  existsb (fun r => Z.eqb (fst r) k) tbl.

Fixpoint lookup {R : Type} (k : Z) (tbl : list (Z * R)) : option R :=
  match tbl with
  | [] => None
  | (k', r) :: rest => if Z.eqb k' k then Some r else lookup k rest
  end.

Definition url_is (s : string) (r : Z * option string) : bool :=
  match snd r with
  | Some s' => String.eqb s' s
  | None => false
  end.

Definition has_pair (a b : Z) (tbl : list (Z * Z)) : bool :=
  existsb (fun r => Z.eqb (fst r) a && Z.eqb (snd r) b) tbl.

Definition has_tag (a : Z) (tag : string) (tbl : list (Z * string)) : bool :=
  existsb (fun r => Z.eqb (fst r) a && String.eqb (snd r) tag) tbl.

Definition has_media (a b : Z) (tbl : list (Z * Z * pyval)) : bool :=
  existsb (fun r => Z.eqb (fst (fst r)) a && Z.eqb (snd (fst r)) b) tbl.

(** A new url row conflicts with a row of the same identifier or of the same
    url string; null url strings never conflict. *)
Definition url_conflict (id : Z) (u : option string) (tbl : list (Z * option string)) : bool :=
  has_key id tbl
  || match u with
     | Some s => existsb (url_is s) tbl
     | None => false
     end.

Definition with_rows (st : Store) (r : Rows) : Store :=
  {| rows := r; urls_seq := urls_seq st |}.

(** *** What one statement does

    The SQL texts are those of the source; the keys their [ON CONFLICT DO
    NOTHING] clauses look at are those of the schema above.  The result is the
    first column of the first row returned, if any, and the store after the
    statement. *)
Definition run (s : stmt) (st : Store) : res (option pyval * Store) :=
  let r := rows st in
  match s with
  | InsertUrl url =>
      (u <- as_text url ;;
       let id := (urls_seq st + 1)%Z in
       if url_conflict id u (urls r)
       then Ok (None, {| rows := r; urls_seq := id |})
       else Ok (Some (PInt id), {| rows := add_url id u r; urls_seq := id |}))%res
  | SelectUrl url =>
      (u <- as_text url ;;
       match u with
       | Some s =>
           match find (url_is s) (urls r) with
           | Some row => Ok (Some (PInt (fst row)), st)
           | None => Ok (None, st)
           end
       | None => Ok (None, st)
       end)%res
  | SelectTweet id =>
      (k <- as_bigint id ;;
       match k with
       | Some n => if has_key n (tweets r) then Ok (Some (PInt n), st) else Ok (None, st)
       | None => Ok (None, st)
       end)%res
  | InsertUser p =>
      (k <- as_key (u_id_users p) ;;
       if has_key k (users r) then Ok (None, st)
       else Ok (None, with_rows st (add_user k p r)))%res
  | InsertUserStub id =>
      (k <- as_key id ;;
       if has_key k (users r) then Ok (None, st)
       else Ok (None, with_rows st (add_user k (stub_row id) r)))%res
  | InsertTweet p =>
      (k <- as_key (t_id_tweets p) ;;
       if has_key k (tweets r) then Ok (None, st)
       else Ok (None, with_rows st (add_tweet k p r)))%res
  | InsertTweetUrl id_tweets id_urls =>
      (t <- as_key id_tweets ;;
       u <- as_key id_urls ;;
       if has_pair t u (tweet_urls r) then Ok (None, st)
       else Ok (None, with_rows st (add_tweet_url t u r)))%res
  | InsertTweetMention id_tweets id_users =>
      (t <- as_key id_tweets ;;
       u <- as_key id_users ;;
       if has_pair t u (tweet_mentions r) then Ok (None, st)
       else Ok (None, with_rows st (add_tweet_mention t u r)))%res
  | InsertTweetTag id_tweets tag =>
      (t <- as_key id_tweets ;;
       g <- as_text_key tag ;;
       if has_tag t g (tweet_tags r) then Ok (None, st)
       else Ok (None, with_rows st (add_tweet_tag t g r)))%res
  | InsertTweetMedia id_tweets id_urls type =>
      (t <- as_key id_tweets ;;
       u <- as_key id_urls ;;
       if has_media t u (tweet_media r) then Ok (None, st)
       else Ok (None, with_rows st (add_tweet_media t u type r)))%res
  end.

(** Every parameter of a statement. *)
Definition stmt_params (s : stmt) : list pyval :=
  match s with
  | InsertUrl url | SelectUrl url => [url]
  | SelectTweet id => [id]
  | InsertUser p =>
      [u_id_users p; u_created_at p; u_updated_at p; u_screen_name p; u_name p;
       u_location p; u_id_urls p; u_description p; u_protected p; u_verified p;
       u_friends_count p; u_listed_count p; u_favourites_count p;
       u_statuses_count p; u_withheld_in_countries p]
  | InsertUserStub id => [id]
  | InsertTweet p =>
      [t_id_tweets p; t_id_users p; t_created_at p; t_in_reply_to_status_id p;
       t_in_reply_to_user_id p; t_quoted_status_id p; t_retweet_count p;
       t_favorite_count p; t_quote_count p; t_withheld_copyright p;
       t_withheld_in_countries p; t_source p; t_text p; t_country_code p;
       t_state_code p; t_lang p; t_place_name p; t_geo p]
  | InsertTweetUrl id id_urls => [id; id_urls]
  | InsertTweetMention id id_users => [id; id_users]
  | InsertTweetTag id tag => [id; tag]
  | InsertTweetMedia id id_urls type => [id; id_urls; type]
  end.

(** Modelled from the spec: code point 0 is illegal in the text of the
    storage layer (sections 2 and 4.1), whatever the column.  A string with a
    NUL character, alone or in a list, cannot be passed as a parameter. *)
Fixpoint nul_free (x : pyval) : bool :=
  match x with
  | PStr s => negb (has_char NUL s)
  | PList xs => forallb nul_free xs
  | _ => true
  end.

(** [connection.execute(sql, params)] as the store sees it: the driver
    refuses the statement with [ValueError] when a parameter holds a NUL
    character, and the statement does nothing; otherwise the statement
    runs. *)
Definition exec (s : stmt) (st : Store) : res (option pyval * Store) :=
  if forallb nul_free (stmt_params s) then run s st else Raise ValueError.

(** ** The connection monad *)

Record Conn : Type := {
  store : Store;
  sent : list stmt
}.

Definition M (A : Type) : Type := Conn -> res A * Conn.

Definition ret {A} (a : A) : M A := fun c => (Ok a, c).

Definition raise {A} (e : exn) : M A := fun c => (Raise e, c).

Definition bind {A B} (m : M A) (k : A -> M B) : M B :=
  fun c =>
    match m c with
    | (Ok a, c') => k a c'
    | (Raise e, c') => (Raise e, c')
    end.

(** A computation that only reads the record. *)
Definition lift {A} (m : res A) : M A := fun c => (m, c).

Declare Scope conn_scope.
Delimit Scope conn_scope with M.
Notation "x <- m ;; k" := (bind m (fun x => k))
  (at level 61, m at next level, right associativity) : conn_scope.

(** [connection.execute(sql, params).first()], or without [.first()] when the
    result is not read. *)
Definition execute (s : stmt) : M (option pyval) :=
  fun c =>
    match exec s (store c) with
    | Ok (r, st') => (Ok r, {| store := st'; sent := sent c ++ [s] |})
    | Raise e => (Raise e, {| store := store c; sent := sent c ++ [s] |})
    end.

(** [with connection.begin() as trans: body]: commit when the body returns,
    roll the rows back when it raises. *)
Definition with_transaction {A} (body : M A) : M A :=
  fun c =>
    match body c with
    | (Ok a, c') => (Ok a, c')
    | (Raise e, c') =>
        (Raise e, {| store := with_rows (store c') (rows (store c)); sent := sent c' |})
    end.

(** [for x in xs: body] *)
Fixpoint for_each (xs : list pyval) (body : pyval -> M unit) : M unit :=
  match xs with
  | [] => ret tt
  | x :: xs' => bind (body x) (fun _ => for_each xs' body)
  end.

Definition empty_conn : Conn := {| store := empty_store; sent := [] |}.

(** ** The URL resolver

<<
def get_id_urls(url, connection):
    res = connection.execute(INSERT ... ON CONFLICT DO NOTHING RETURNING id_urls).first()
    if res is None:
        res = connection.execute(SELECT id_urls FROM urls WHERE url = :url).first()
    return res[0]
>>
    [res[0]] on [None] raises [TypeError]. *)
Definition get_id_urls (url : pyval) : M pyval :=
  (res <- execute (InsertUrl url) ;;
   res <- match res with
          | None => execute (SelectUrl url)
          | Some _ => ret res
          end ;;
   match res with
   | Some id => ret id
   | None => raise TypeError
   end)%M.

(** ** The record writer: tweet-level fields (section 3 of [insert_tweet]) *)

(** The two geography variables after lines 145-165.  [GeoUnset] is the case
    where the last fallback finds geography disabled: [geo_str] is left
    unbound and [geo_coords] keeps the unfinished text.  Neither variable is
    read afterwards. *)
Inductive geo_result : Type :=
| GeoPoint (geo_coords : pyval)           (* geo_str = 'POINT' *)
| GeoMultiPolygon (geo_coords : string)   (* geo_str = 'MULTIPOLYGON' *)
| GeoNone                                 (* geo_str = None, geo_coords = None *)
| GeoUnset.

(** [f"{point[0]} {point[1]}"] followed by [tail] *)
Definition point_text (point : pyval) (tail : string) : res string :=
  (x <- getindex point 0 ;;
   y <- getindex point 1 ;;
   Ok (py_str x ++ " " ++ py_str y ++ tail))%res.

Fixpoint ring_points (points : list pyval) : res string :=
  match points with
  | [] => Ok ""
  | point :: rest =>
      (a <- point_text point "," ;;
       b <- ring_points rest ;;
       Ok (a ++ b))%res
  end.

(** One turn of the loop over the polygons: the opening bracket, the points,
    and the first point again to close the ring. *)
Definition ring_text (poly : pyval) : res string :=
  (points <- py_iter poly ;;
   body <- ring_points points ;;
   first <- getindex poly 0 ;;
   close <- point_text first ")" ;;
   Ok ("(" ++ body ++ close))%res.

Fixpoint rings_text (i : nat) (polys : list pyval) : res string :=
  match polys with
  | [] => Ok ""
  | poly :: rest =>
      (r <- ring_text poly ;;
       more <- rings_text (S i) rest ;;
       Ok ((if (0 <? i)%nat then "," else "") ++ r ++ more))%res
  end.

(** Lines 145-165. *)
Definition geo_of (tweet : pyval) : res geo_result :=
  try_except
    (geo <- getitem tweet "geo" ;;
     geo_coords <- getitem geo "coordinates" ;;
     Ok (GeoPoint geo_coords))%res
    is_TypeError
    (try_except
       (place <- getitem tweet "place" ;;
        bounding_box <- getitem place "bounding_box" ;;
        coordinates <- getitem bounding_box "coordinates" ;;
        polys <- py_iter coordinates ;;
        body <- rings_text 0 polys ;;
        Ok (GeoMultiPolygon ("(" ++ body ++ ")")))%res
       is_KeyError
       (user <- getitem tweet "user" ;;
        geo_enabled <- getitem user "geo_enabled" ;;
        Ok (if py_truthy geo_enabled then GeoNone else GeoUnset))%res).

(** Lines 167-170. *)
Definition text_of (tweet : pyval) : res pyval :=
  try_except
    (extended_tweet <- getitem tweet "extended_tweet" ;;
     getitem extended_tweet "full_text")%res
    is_KeyError
    (getitem tweet "text").

(** Lines 172-175. *)
Definition country_code_of (tweet : pyval) : res pyval :=
  try_except
    (place <- getitem tweet "place" ;;
     country_code <- getitem place "country_code" ;;
     py_lower country_code)%res
    is_TypeError_or_KeyError
    (Ok PNone).

Definition py_eq_str (x : pyval) (s : string) : bool :=
  match x with
  | PStr t => String.eqb t s
  | _ => false
  end.

(** Lines 177-182. *)
Definition state_code_of (tweet country_code : pyval) : res pyval :=
  if py_eq_str country_code "us" then
    (place <- getitem tweet "place" ;;
     full_name <- getitem place "full_name" ;;
     match full_name with
     | PStr s =>
         let state_code := lower (strip (last (split "," s) "")) in
         Ok (if (2 <? String.length state_code)%nat then PNone else PStr state_code)
     | _ => Raise AttributeError
     end)%res
  else Ok PNone.

(** Lines 184-187. *)
Definition place_name_of (tweet : pyval) : res pyval :=
  try_except
    (place <- getitem tweet "place" ;;
     getitem place "full_name")%res
    is_TypeError_or_KeyError
    (Ok PNone).

Record fields : Type := {
  f_geo : geo_result;
  f_text : pyval;
  f_country_code : pyval;
  f_state_code : pyval;
  f_place_name : pyval
}.

(** Lines 145-187 in order. *)
Definition prepare_fields (tweet : pyval) : res fields :=
  (geo <- geo_of tweet ;;
   text <- text_of tweet ;;
   country_code <- country_code_of tweet ;;
   state_code <- state_code_of tweet country_code ;;
   place_name <- place_name_of tweet ;;
   Ok {| f_geo := geo; f_text := text; f_country_code := country_code;
         f_state_code := state_code; f_place_name := place_name |})%res.

(** ** The record writer: entity lists (sections 5 to 8) *)

Definition extended_entities_of (tweet : pyval) (k : string) : res pyval :=
  (extended_tweet <- getitem tweet "extended_tweet" ;;
   entities <- getitem extended_tweet "entities" ;;
   getitem entities k)%res.

Definition base_entities_of (tweet : pyval) (k : string) : res pyval :=
  (entities <- getitem tweet "entities" ;;
   getitem entities k)%res.

(** Lines 268-271. *)
Definition urls_of (tweet : pyval) : res pyval :=
  try_except (extended_entities_of tweet "urls") is_KeyError
             (base_entities_of tweet "urls").

(** Lines 288-291. *)
Definition mentions_of (tweet : pyval) : res pyval :=
  try_except (extended_entities_of tweet "user_mentions") is_KeyError
             (base_entities_of tweet "user_mentions").

(** Lines 316-321: both lists come from the same side. *)
Definition hashtags_cashtags_of (tweet : pyval) : res (pyval * pyval) :=
  try_except
    (hashtags <- extended_entities_of tweet "hashtags" ;;
     cashtags <- extended_entities_of tweet "symbols" ;;
     Ok (hashtags, cashtags))%res
    is_KeyError
    (hashtags <- base_entities_of tweet "hashtags" ;;
     cashtags <- base_entities_of tweet "symbols" ;;
     Ok (hashtags, cashtags))%res.

(** [[prefix + h['text'] for h in items]] *)
Fixpoint tag_texts (prefix : string) (items : list pyval) : res (list pyval) :=
  match items with
  | [] => Ok []
  | h :: rest =>
      (text <- getitem h "text" ;;
       tag <- py_prepend prefix text ;;
       tags <- tag_texts prefix rest ;;
       Ok (tag :: tags))%res
  end.

(** Line 323. *)
Definition tags_of (hashtags cashtags : pyval) : res (list pyval) :=
  (hs <- py_iter hashtags ;;
   htags <- tag_texts "#" hs ;;
   cs <- py_iter cashtags ;;
   ctags <- tag_texts "$" cs ;;
   Ok (htags ++ ctags)%list)%res.

(** Lines 338-344. *)
Definition media_of (tweet : pyval) : res pyval :=
  try_except
    (extended_tweet <- getitem tweet "extended_tweet" ;;
     extended_entities <- getitem extended_tweet "extended_entities" ;;
     getitem extended_entities "media")%res
    is_KeyError
    (try_except
       (extended_entities <- getitem tweet "extended_entities" ;;
        getitem extended_entities "media")%res
       is_KeyError
       (Ok (PList []))).

(** ** The record writer

    [insert_tweet] returns [None] through both of its exits; the embedding
    returns which exit was taken: the [return] of line 77 or the end of the
    function. *)
Inductive outcome : Type :=
| AlreadyPresent
| Inserted.

(** Section 1, lines 69-77: is the tweet already stored? *)
Definition already_inserted (tweet : pyval) : M bool :=
  (id <- lift (getitem tweet "id") ;;
   res <- execute (SelectTweet (PStr (py_str id))) ;;
   ret (match res with Some _ => true | None => false end))%M.

(** The parameters of lines 124-140. *)
Definition user_params_of (tweet user_id_urls : pyval) : res user_params :=
  (user <- getitem tweet "user" ;;
   id <- getitem user "id" ;;
   created_at <- py_get tweet "created_at" ;;
   updated_at <- py_get tweet "updated_at" ;;
   screen_name <- py_get tweet "screen_name" ;;
   name <- py_get tweet "name" ;;
   location <- py_get tweet "location" ;;
   description <- py_get tweet "description" ;;
   protected <- py_get tweet "protected" ;;
   verified <- py_get tweet "verified" ;;
   friends_count <- py_get tweet "friends_count" ;;
   listed_count <- py_get tweet "listed_count" ;;
   favourites_count <- py_get tweet "favourites_count" ;;
   statuses_count <- py_get tweet "statuses_count" ;;
   withheld_in_countries <- py_get tweet "withheld_in_countries" ;;
   Ok {| u_id_users := PStr (py_str id);
         u_created_at := created_at;
         u_updated_at := updated_at;
         u_screen_name := screen_name;
         u_name := name;
         u_location := location;
         u_id_urls := user_id_urls;
         u_description := description;
         u_protected := protected;
         u_verified := verified;
         u_friends_count := friends_count;
         u_listed_count := listed_count;
         u_favourites_count := favourites_count;
         u_statuses_count := statuses_count;
         u_withheld_in_countries := withheld_in_countries |})%res.

(** Section 2, lines 82-140. *)
Definition insert_user (tweet : pyval) : M unit :=
  (user <- lift (getitem tweet "user") ;;
   url <- lift (getitem user "url") ;;
   user_id_urls <- (if is_None url then ret PNone else get_id_urls url) ;;
   params <- lift (user_params_of tweet user_id_urls) ;;
   _ <- execute (InsertUser params) ;;
   ret tt)%M.

(** Lines 189-196. *)
Definition insert_reply_user (tweet : pyval) : M unit :=
  (in_reply_to_user_id <- lift (py_get tweet "in_reply_to_user_id") ;;
   if is_None in_reply_to_user_id then ret tt
   else
     (id <- lift (getitem tweet "in_reply_to_user_id") ;;
      _ <- execute (InsertUserStub (PStr (py_str id))) ;;
      ret tt))%M.

(** The parameters of lines 244-263. *)
Definition tweet_params_of (tweet : pyval) (f : fields) : res tweet_params :=
  (id <- getitem tweet "id" ;;
   user <- getitem tweet "user" ;;
   user_id <- getitem user "id" ;;
   created_at <- py_get tweet "created_at" ;;
   in_reply_to_status_id <- py_get tweet "in_reply_to_status_id" ;;
   in_reply_to_user_id <- py_get tweet "in_reply_to_user_id" ;;
   quoted_status_id <- py_get tweet "quoted_status_id" ;;
   retweet_count <- py_get tweet "retweet_count" ;;
   favorite_count <- py_get tweet "favorite_count" ;;
   quote_count <- py_get tweet "quote_count" ;;
   withheld_copyright <- py_get tweet "withheld_copyright" ;;
   withheld_in_countries <- py_get tweet "withheld_in_countries" ;;
   source <- py_get tweet "source" ;;
   source <- remove_nulls source ;;
   text <- remove_nulls (f_text f) ;;
   country_code <- remove_nulls (f_country_code f) ;;
   state_code <- remove_nulls (f_state_code f) ;;
   lang <- py_get tweet "lang" ;;
   lang <- remove_nulls lang ;;
   place_name <- remove_nulls (f_place_name f) ;;
   Ok {| t_id_tweets := PStr (py_str id);
         t_id_users := PStr (py_str user_id);
         t_created_at := created_at;
         t_in_reply_to_status_id := in_reply_to_status_id;
         t_in_reply_to_user_id :=
           if py_truthy in_reply_to_user_id
           then PStr (py_str in_reply_to_user_id) else PNone;
         t_quoted_status_id := quoted_status_id;
         t_retweet_count := retweet_count;
         t_favorite_count := favorite_count;
         t_quote_count := quote_count;
         t_withheld_copyright := withheld_copyright;
         t_withheld_in_countries := withheld_in_countries;
         t_source := source;
         t_text := text;
         t_country_code := country_code;
         t_state_code := state_code;
         t_lang := lang;
         t_place_name := place_name;
         t_geo := PNone |})%res.

(** Section 4, lines 201-263. *)
Definition insert_tweet_row (tweet : pyval) (f : fields) : M unit :=
  (params <- lift (tweet_params_of tweet f) ;;
   _ <- execute (InsertTweet params) ;;
   ret tt)%M.

(** Section 5, lines 268-283. *)
Definition insert_tweet_urls (tweet : pyval) : M unit :=
  (urls <- lift (urls_of tweet) ;;
   us <- lift (py_iter urls) ;;
   for_each us (fun u =>
     expanded_url <- lift (getitem u "expanded_url") ;;
     id_urls <- get_id_urls expanded_url ;;
     id <- lift (getitem tweet "id") ;;
     _ <- execute (InsertTweetUrl id id_urls) ;;
     ret tt))%M.

(** Section 6, lines 288-311. *)
Definition insert_tweet_mentions (tweet : pyval) : M unit :=
  (mentions <- lift (mentions_of tweet) ;;
   ms <- lift (py_iter mentions) ;;
   for_each ms (fun mention =>
     mention_id <- lift (getitem mention "id") ;;
     _ <- execute (InsertUserStub mention_id) ;;
     id <- lift (getitem tweet "id") ;;
     mention_id <- lift (getitem mention "id") ;;
     _ <- execute (InsertTweetMention id mention_id) ;;
     ret tt))%M.

(** Section 7, lines 316-333. *)
Definition insert_tweet_tags (tweet : pyval) : M unit :=
  (lists <- lift (hashtags_cashtags_of tweet) ;;
   tags <- lift (tags_of (fst lists) (snd lists)) ;;
   for_each tags (fun tag =>
     id <- lift (getitem tweet "id") ;;
     tag <- lift (remove_nulls tag) ;;
     _ <- execute (InsertTweetTag id tag) ;;
     ret tt))%M.

(** Section 8, lines 338-357. *)
Definition insert_tweet_media (tweet : pyval) : M unit :=
  (media <- lift (media_of tweet) ;;
   ms <- lift (py_iter media) ;;
   for_each ms (fun m =>
     media_url <- lift (getitem m "media_url") ;;
     id_urls <- get_id_urls media_url ;;
     id <- lift (getitem tweet "id") ;;
     type <- lift (getitem m "type") ;;
     type <- lift (remove_nulls type) ;;
     _ <- execute (InsertTweetMedia id id_urls type) ;;
     ret tt))%M.

(** Sections 2 to 8: what [insert_tweet] does once the tweet is known to be new. *)
Definition write_tweet (tweet : pyval) : M unit :=
  (_ <- insert_user tweet ;;
   f <- lift (prepare_fields tweet) ;;
   _ <- insert_reply_user tweet ;;
   _ <- insert_tweet_row tweet f ;;
   _ <- insert_tweet_urls tweet ;;
   _ <- insert_tweet_mentions tweet ;;
   _ <- insert_tweet_tags tweet ;;
   insert_tweet_media tweet)%M.

(** The block under [with connection.begin() as trans:], lines 66-357. *)
Definition insert_tweet_body (tweet : pyval) : M outcome :=
  (present <- already_inserted tweet ;;
   if present then ret AlreadyPresent
   else (_ <- write_tweet tweet ;; ret Inserted))%M.

(** [insert_tweet(connection, tweet)], with the connection as the state. *)
Definition insert_tweet (tweet : pyval) : M outcome :=
  with_transaction (insert_tweet_body tweet).

(** ** A sequence of resolutions *)

(** Resolving a list of url strings one after the other; the identifiers in
    the order of the calls. *)
Fixpoint resolve_all (l : list string) : M (list pyval) :=
  match l with
  | [] => ret []
  | s :: rest =>
      (id <- get_id_urls (PStr s) ;;
       ids <- resolve_all rest ;;
       ret (id :: ids))%M
  end.

(** ** Vocabulary of the theorems *)

Open Scope list_scope.

(** The store after a list of statements, each applied as [execute] applies
    it: a statement the store rejects changes nothing. *)
Definition replay_step (st : Store) (s : stmt) : Store :=
  match exec s st with
  | Ok (_, st') => st'
  | Raise _ => st
  end.

Definition replay (l : list stmt) (st : Store) : Store :=
  fold_left replay_step l st.

(** The store accepts every statement of the list, one after the other. *)
Fixpoint accepted (l : list stmt) (st : Store) : Prop :=
  match l with
  | [] => True
  | s :: l' =>
      match exec s st with
      | Ok (_, st') => accepted l' st'
      | Raise _ => False
      end
  end.

(** [m] only acts on the connection through [execute]: the statements it
    sends, all of them in [Q], account for the whole change of the store, and
    when [m] returns the store has accepted them all. *)
Definition traced (Q : stmt -> Prop) {A} (m : M A) : Prop :=
  forall c, exists l,
    sent (snd (m c)) = sent c ++ l
    /\ store (snd (m c)) = replay l (store c)
    /\ Forall Q l
    /\ (forall a, fst (m c) = Ok a -> accepted l (store c)).

Definition prefix_of {A} (l l' : list A) : Prop := exists ext, l' = l ++ ext.

(** Every table of [r'] is the table of [r] with rows added at the end. *)
Record extends (r r' : Rows) : Prop := {
  ext_users : prefix_of (users r) (users r');
  ext_tweets : prefix_of (tweets r) (tweets r');
  ext_urls : prefix_of (urls r) (urls r');
  ext_tweet_urls : prefix_of (tweet_urls r) (tweet_urls r');
  ext_tweet_mentions : prefix_of (tweet_mentions r) (tweet_mentions r');
  ext_tweet_tags : prefix_of (tweet_tags r) (tweet_tags r');
  ext_tweet_media : prefix_of (tweet_media r) (tweet_media r')
}.

Definition count_url (s : string) (tbl : list (Z * option string)) : nat :=
  List.length (filter (url_is s) tbl).

(** The Url table as the schema keeps it: no identifier ahead of the
    sequence, no url string twice. *)
Definition urls_ok (st : Store) : Prop :=
  (forall r, In r (urls (rows st)) -> (fst r <= urls_seq st)%Z)
  /\ (forall s, (count_url s (urls (rows st)) <= 1)%nat).

(** The identifier under which the store files the record's Post row. *)
Definition post_key (tweet : pyval) : res Z :=
  (id <- getitem tweet "id" ;; as_key (PStr (py_str id)))%res.

(** The statements [insert_tweet] may send for a record, each with where
    its parameters come from. *)
Inductive sends (tweet : pyval) : stmt -> Prop :=
| sends_select_tweet (id : pyval) :
    getitem tweet "id" = Ok id ->
    sends tweet (SelectTweet (PStr (py_str id)))
| sends_insert_url (url : pyval) :
    sends tweet (InsertUrl url)
| sends_select_url (url : pyval) :
    sends tweet (SelectUrl url)
| sends_user (user_id_urls : pyval) (p : user_params) :
    user_params_of tweet user_id_urls = Ok p ->
    sends tweet (InsertUser p)
| sends_reply_stub (id : pyval) :
    getitem tweet "in_reply_to_user_id" = Ok id ->
    sends tweet (InsertUserStub (PStr (py_str id)))
| sends_mention_stub (mention id : pyval) :
    getitem mention "id" = Ok id ->
    sends tweet (InsertUserStub id)
| sends_post (f : fields) (p : tweet_params) :
    tweet_params_of tweet f = Ok p ->
    sends tweet (InsertTweet p)
| sends_tweet_url (id id_urls : pyval) :
    getitem tweet "id" = Ok id ->
    sends tweet (InsertTweetUrl id id_urls)
| sends_tweet_mention (id mention mention_id : pyval) :
    getitem tweet "id" = Ok id ->
    getitem mention "id" = Ok mention_id ->
    sends tweet (InsertTweetMention id mention_id)
| sends_tweet_tag (id tag tag' : pyval) :
    getitem tweet "id" = Ok id ->
    remove_nulls tag = Ok tag' ->
    sends tweet (InsertTweetTag id tag')
| sends_tweet_media (id id_urls type type' : pyval) :
    getitem tweet "id" = Ok id ->
    remove_nulls type = Ok type' ->
    sends tweet (InsertTweetMedia id id_urls type').

Definition has_nul (x : pyval) : bool :=
  match x with
  | PStr s => has_char NUL s
  | _ => false
  end.

(** The post identifier of an association insert is [id]. *)
Definition links_post (id : pyval) (s : stmt) : Prop :=
  match s with
  | InsertTweetUrl id' _ | InsertTweetMention id' _
  | InsertTweetTag id' _ | InsertTweetMedia id' _ _ => id' = id
  | _ => True
  end.

(** The strings the loader sanitizes are free of NUL. *)
Definition sanitized (s : stmt) : Prop :=
  match s with
  | InsertTweet p =>
      forallb (fun x => negb (has_nul x))
              [t_source p; t_text p; t_country_code p; t_state_code p; t_lang p;
               t_place_name p] = true
  | InsertTweetTag _ tag => has_nul tag = false
  | InsertTweetMedia _ _ type => has_nul type = false
  | _ => True
  end.

Definition geo_null (s : stmt) : Prop :=
  match s with
  | InsertTweet p => t_geo p = PNone
  | _ => True
  end.

(** The parameters of a statement that name a post or an author. *)
Definition identifiers (s : stmt) : list pyval :=
  match s with
  | InsertUrl _ | SelectUrl _ => []
  | SelectTweet id => [id]
  | InsertUser p => [u_id_users p]
  | InsertUserStub id => [id]
  | InsertTweet p => [t_id_tweets p; t_id_users p; t_in_reply_to_user_id p]
  | InsertTweetUrl id _ => [id]
  | InsertTweetMention id id_users => [id; id_users]
  | InsertTweetTag id _ => [id]
  | InsertTweetMedia id _ _ => [id]
  end.

(** Null, or text: not a raw number. *)
Definition is_text_or_null (x : pyval) : bool :=
  match x with
  | PNone | PStr _ => true
  | _ => false
  end.

(** ** Sample records *)

Definition entities_of (urls mentions hashtags symbols : list pyval) : pyval :=
  PDict [("urls", PList urls); ("user_mentions", PList mentions);
         ("hashtags", PList hashtags); ("symbols", PList symbols)].

(** A record with one url, one mention, one hashtag, one cashtag and one
    photo. *)
Definition sample_tweet : pyval :=
  PDict [("id", PInt 10);
         ("user", PDict [("id", PInt 2); ("url", PStr "http://a.example");
                         ("geo_enabled", PBool false)]);
         ("geo", PNone);
         ("text", PStr "hello");
         ("entities",
           entities_of [PDict [("expanded_url", PStr "http://b.example")]]
                       [PDict [("id", PInt 7)]]
                       [PDict [("text", PStr "foo")]]
                       [PDict [("text", PStr "BAR")]]);
         ("extended_entities",
           PDict [("media", PList [PDict [("media_url", PStr "http://c.example/1.jpg");
                                          ("type", PStr "photo")]])])].

(** A record without [entities]: ingestion raises after the author and the
    Post row were written. *)
Definition sample_tweet_no_entities : pyval :=
  PDict [("id", PInt 10);
         ("user", PDict [("id", PInt 2); ("url", PStr "http://a.example");
                         ("geo_enabled", PBool false)]);
         ("geo", PNone);
         ("text", PStr "hello")].

(** A record of author 5 that mentions author 2. *)
Definition sample_tweet_mentioning : pyval :=
  PDict [("id", PInt 11);
         ("user", PDict [("id", PInt 5); ("url", PNone); ("geo_enabled", PBool false)]);
         ("geo", PNone);
         ("text", PStr "hi @two");
         ("entities", entities_of [] [PDict [("id", PInt 2)]] [] [])].

(** A record with point coordinates and a place with a bounding box. *)
Definition sample_tweet_located : pyval :=
  PDict [("id", PInt 12);
         ("user", PDict [("id", PInt 2); ("url", PNone); ("geo_enabled", PBool true)]);
         ("geo", PDict [("type", PStr "Point");
                        ("coordinates", PList [PFloat "42.36"; PFloat "-71.06"])]);
         ("place",
           PDict [("country_code", PStr "US"); ("full_name", PStr "Boston, MA");
                  ("bounding_box",
                    PDict [("coordinates",
                             PList [PList [PList [PFloat "-71.19"; PFloat "42.23"];
                                           PList [PFloat "-70.99"; PFloat "42.23"];
                                           PList [PFloat "-70.99"; PFloat "42.4"];
                                           PList [PFloat "-71.19"; PFloat "42.4"]]])])]);
         ("text", PStr "here");
         ("entities", entities_of [] [] [] [])].

(** The connection after [sample_tweet] went into an empty store. *)
Definition conn_after_sample : Conn :=
  snd (insert_tweet sample_tweet empty_conn).

(** The connection after the url of [sample_tweet]'s author was resolved in
    an empty store. *)
Definition conn_after_url : Conn :=
  snd (get_id_urls (PStr "http://a.example") empty_conn).

(** The connection after [sample_tweet_mentioning] went into an empty store. *)
Definition conn_after_mention : Conn :=
  snd (insert_tweet sample_tweet_mentioning empty_conn).

(** A record with its identifiers and every base key but [geo]. *)
Definition sample_tweet_no_geo : pyval :=
  PDict [("id", PInt 14);
         ("user", PDict [("id", PInt 2); ("url", PNone); ("geo_enabled", PBool false)]);
         ("text", PStr "hello");
         ("entities", entities_of [] [] [] [])].

(** The record's identifiers are there, and they are integers. *)
Definition identity_present (tweet : pyval) : Prop :=
  exists id user_id,
    getitem tweet "id" = Ok (PInt id)
    /\ res_bind (getitem tweet "user") (fun user => getitem user "id") = Ok (PInt user_id).

(** The last tier of the geography chain. *)
Definition geo_enabled_marker (tweet : pyval) : res geo_result :=
  (user <- getitem tweet "user" ;;
   geo_enabled <- getitem user "geo_enabled" ;;
   Ok (if py_truthy geo_enabled then GeoNone else GeoUnset))%res.

(** [a], the NUL character, [b]. *)
Definition with_nul (a b : string) : string := (a ++ String NUL b)%string.

(** A record with the NUL character in its text and in the [description]
    the author insert reads. *)
Definition sample_tweet_nul : pyval :=
  PDict [("id", PInt 13);
         ("user", PDict [("id", PInt 2); ("url", PNone); ("geo_enabled", PBool false)]);
         ("geo", PNone);
         ("text", PStr (with_nul "a" "b"));
         ("description", PStr (with_nul "bio" ""));
         ("entities", entities_of [] [] [] [])].

(** A record with the NUL character in the author's profile url. *)
Definition sample_tweet_nul_url : pyval :=
  PDict [("id", PInt 17);
         ("user", PDict [("id", PInt 2); ("url", PStr (with_nul "http://x" "y"));
                         ("geo_enabled", PBool false)]);
         ("geo", PNone);
         ("text", PStr "hello");
         ("entities", entities_of [] [] [] [])].

(** The parameters of a statement that are strings with a NUL character. *)
Definition nul_params (s : stmt) : list pyval := filter has_nul (stmt_params s).

(** A record as the archive has it: the author's profile is in [user]; at
    the top level [created_at] is the time of the post. *)
Definition sample_tweet_profile : pyval :=
  PDict [("id", PInt 16);
         ("created_at", PStr "Tue Nov 03 10:00:00 +0000 2020");
         ("user", PDict [("id", PInt 2);
                         ("created_at", PStr "Mon Jan 05 09:00:00 +0000 2009");
                         ("screen_name", PStr "alice");
                         ("name", PStr "Alice");
                         ("location", PStr "Paris");
                         ("url", PStr "http://alice.example");
                         ("description", PStr "bio");
                         ("protected", PBool false);
                         ("verified", PBool true);
                         ("friends_count", PInt 3);
                         ("listed_count", PInt 4);
                         ("favourites_count", PInt 5);
                         ("statuses_count", PInt 6);
                         ("withheld_in_countries", PList [PStr "FR"]);
                         ("geo_enabled", PBool false)]);
         ("geo", PNone);
         ("text", PStr "hello");
         ("entities", entities_of [] [] [] [])].

(** Does a statement pass an identifier that is not text? *)
Definition raw_identifier (s : stmt) : bool :=
  negb (forallb is_text_or_null (identifiers s)).

(** ** The main loop

<<
for i, line in enumerate(f):
    tweet = json.loads(line)
    insert_tweet(connection, tweet)
    if i % args.print_every == 0:
        print(datetime.datetime.now(), filename, subfilename, 'i=', i, 'id=', tweet['id'])
>>
    Lines 385-392.  A line is given by what [json.loads] makes of it: the
    decoded record, or nothing when the line does not decode.  No exception is
    caught: the first one ends the run. *)
Inductive run_error : Type :=
| Raised (e : exn)         (* raised by insert_tweet, or by tweet['id'] *)
| JSONDecodeError          (* raised by json.loads *)
| ZeroDivisionError.       (* raised by i % 0 *)

(** The error that ended the loop, if any; the [i] and [id] of each progress
    line printed (the clock and the file names are not modelled); the
    connection after the loop.  [i] is the index of the first line. *)
Fixpoint load_file (print_every i : Z) (lines : list (option pyval)) (c : Conn)
  : option run_error * list (Z * pyval) * Conn :=
  match lines with
  | [] => (None, [], c)
  | None :: _ => (Some JSONDecodeError, [], c)
  | Some tweet :: rest =>
      match insert_tweet tweet c with
      | (Raise e, c1) => (Some (Raised e), [], c1)
      | (Ok _, c1) =>
          if (print_every =? 0)%Z then (Some ZeroDivisionError, [], c1)
          else if (i mod print_every =? 0)%Z then
            match getitem tweet "id" with
            | Raise e => (Some (Raised e), [], c1)
            | Ok id =>
                let '(err, out, c2) := load_file print_every (i + 1) rest c1 in
                (err, (i, id) :: out, c2)
            end
          else load_file print_every (i + 1) rest c1
      end
  end.

(** ** Vocabulary of the further theorems *)

(** The record's Post row is in the store. *)
Definition post_stored (st : Store) (tweet : pyval) : Prop :=
  exists n, post_key tweet = Ok n /\ has_key n (tweets (rows st)) = true.

Definition line_stored (st : Store) (line : option pyval) : Prop :=
  exists tweet, line = Some tweet /\ post_stored st tweet.

Definition is_select_tweet (s : stmt) : Prop :=
  match s with
  | SelectTweet _ => True
  | _ => False
  end.

(** No key twice in any table: the identifier of an Author, of a Post and
    of a Url, and the composite key of each association.  (That no url string
    is there twice is part of [urls_ok].) *)
Record keys_unique (r : Rows) : Prop := {
  ku_users : NoDup (map fst (users r));
  ku_tweets : NoDup (map fst (tweets r));
  ku_urls : NoDup (map fst (urls r));
  ku_tweet_urls : NoDup (tweet_urls r);
  ku_tweet_mentions : NoDup (tweet_mentions r);
  ku_tweet_tags : NoDup (tweet_tags r);
  ku_tweet_media : NoDup (map fst (tweet_media r))
}.

(** The identifier under which the store files the record's author. *)
Definition author_key (tweet : pyval) : res Z :=
  (user <- getitem tweet "user" ;;
   id <- getitem user "id" ;;
   as_key (PStr (py_str id)))%res.

Definition no_space (s : string) : bool :=
  forallb (fun c => negb (is_space c)) (list_ascii_of_string s).

Definition digit_or_minus (c : ascii) : bool :=
  (Ascii.eqb c "-" || ((48 <=? code c) && (code c <=? 57))%nat).

(** Anything but the Post insert. *)
Definition no_post_insert (s : stmt) : Prop :=
  match s with
  | InsertTweet _ => False
  | _ => True
  end.

(** The statements of the URL resolver. *)
Definition url_stmt (s : stmt) : Prop :=
  match s with
  | InsertUrl _ | SelectUrl _ => True
  | _ => False
  end.

(** A reply to author 0. *)
Definition sample_tweet_reply_zero : pyval :=
  PDict [("id", PInt 18);
         ("user", PDict [("id", PInt 2); ("url", PNone); ("geo_enabled", PBool false)]);
         ("geo", PNone);
         ("text", PStr "hello");
         ("in_reply_to_user_id", PInt 0);
         ("entities", entities_of [] [] [] [])].

(** [l'] is [l] with rows added, all of them in [P]. *)
Definition adds_only {A} (P : A -> Prop) (l l' : list A) : Prop :=
  exists ext, l' = l ++ ext /\ Forall P ext.

(** What [r'] has more than [r] in the Post table and the four association
    tables is filed under the post identifier [n]. *)
Record own_rows (n : Z) (r r' : Rows) : Prop := {
  own_tweets : adds_only (fun row => fst row = n) (tweets r) (tweets r');
  own_tweet_urls : adds_only (fun row => fst row = n) (tweet_urls r) (tweet_urls r');
  own_tweet_mentions :
    adds_only (fun row => fst row = n) (tweet_mentions r) (tweet_mentions r');
  own_tweet_tags : adds_only (fun row => fst row = n) (tweet_tags r) (tweet_tags r');
  own_tweet_media :
    adds_only (fun row => fst (fst row) = n) (tweet_media r) (tweet_media r')
}.

(** The text of a point, of a ring and of a list of rings in the
    MULTIPOLYGON notation: a ring is its points and its first point again. *)
Definition point_wkt (p : pyval * pyval) : string :=
  (py_str (fst p) ++ " " ++ py_str (snd p))%string.

Definition ring_wkt (ring : list (pyval * pyval)) : string :=
  ("(" ++ join "," (map point_wkt (ring ++ firstn 1 ring)) ++ ")")%string.

Definition multipolygon_wkt (rings : list (list (pyval * pyval))) : string :=
  ("(" ++ join "," (map ring_wkt rings) ++ ")")%string.

(** The JSON of a list of rings: lists of lists of two-element lists. *)
Definition point_json (p : pyval * pyval) : pyval := PList [fst p; snd p].

Definition rings_json (rings : list (list (pyval * pyval))) : pyval :=
  PList (map (fun ring => PList (map point_json ring)) rings).

(** Each string followed by [tail]; each string behind [head]. *)
Fixpoint cat_each (tail : string) (l : list string) : string :=
  match l with
  | [] => ""
  | s :: l' => (s ++ tail ++ cat_each tail l')%string
  end.

Fixpoint pre_each (head : string) (l : list string) : string :=
  match l with
  | [] => ""
  | s :: l' => (head ++ s ++ pre_each head l')%string
  end.

(** A record with a null [geo] and a place with a bounding box of one ring. *)
Definition sample_rings : list (list (pyval * pyval)) :=
  [[(PFloat "-71.19", PFloat "42.23"); (PFloat "-70.99", PFloat "42.23");
    (PFloat "-70.99", PFloat "42.4"); (PFloat "-71.19", PFloat "42.4")]].

Definition sample_box : pyval := PDict [("coordinates", rings_json sample_rings)].

Definition sample_place : pyval :=
  PDict [("country_code", PStr "US"); ("full_name", PStr "Boston, MA");
         ("bounding_box", sample_box)].

Definition sample_tweet_boxed : pyval :=
  PDict [("id", PInt 19);
         ("user", PDict [("id", PInt 2); ("url", PNone); ("geo_enabled", PBool true)]);
         ("geo", PNone);
         ("place", sample_place);
         ("text", PStr "here");
         ("entities", entities_of [] [] [] [])].

(** Every ring has a first point. *)
Definition closed_rings (rings : list (list (pyval * pyval))) : bool :=
  forallb (fun ring => match ring with [] => false | _ :: _ => true end) rings.

(** ** Further sample records *)

(** [sample_tweet_nul] without the [description]: the NUL character is in the
    text only. *)
Definition sample_tweet_nul_text : pyval :=
  PDict [("id", PInt 13);
         ("user", PDict [("id", PInt 2); ("url", PNone); ("geo_enabled", PBool false)]);
         ("geo", PNone);
         ("text", PStr (with_nul "a" "b"));
         ("entities", entities_of [] [] [] [])].

(** A record with partial tiers: [extended_tweet] without [full_text] and
    without [entities], [extended_entities] without [media], and a place with
    a name but neither [country_code] nor [bounding_box]. *)
Definition sample_tweet_partial : pyval :=
  PDict [("id", PInt 20);
         ("user", PDict [("id", PInt 2); ("url", PNone); ("geo_enabled", PBool true)]);
         ("geo", PNone);
         ("place", PDict [("full_name", PStr "Somewhere")]);
         ("text", PStr "hello");
         ("extended_tweet", PDict []);
         ("extended_entities", PDict []);
         ("entities", entities_of [PDict [("expanded_url", PStr "http://b.example")]]
                                  [] [PDict [("text", PStr "foo")]] [])].

(** ** Where a path of keys ends

    The fallback chains of [insert_tweet] are [try]/[except] cascades around
    subscripts [x[k1][k2]...].  What such a path finds is a matter of the
    document alone: the value under the keys, a dictionary on the way that
    lacks its key, or a value on the way that is not a dictionary. *)
Inductive found : Type :=
| Found (v : pyval)
| Missing (k : string)
| NotDict.

Fixpoint lookup_path (x : pyval) (path : list string) : found :=
  match path with
  | [] => Found x
  | k :: rest =>
      match x with
      | PDict kvs =>
          match assoc k kvs with
          | Some v => lookup_path v rest
          | None => Missing k
          end
      | _ => NotDict
      end
  end.

(** A path outside any [try]: a missing key is a [KeyError], a subscript on
    what is not a dictionary a [TypeError]. *)
Definition required (x : pyval) (path : list string) : res pyval :=
  match lookup_path x path with
  | Found v => Ok v
  | Missing k => Raise (KeyError k)
  | NotDict => Raise TypeError
  end.

(** * Properties of the monad and of the store *)

Section Monad_facts.
Context {A B : Type}.

Lemma bind_ok (m : M A) (k : A -> M B) (c : Conn) (a : A) (c1 : Conn) :
  m c = (Ok a, c1) -> bind m k c = k a c1.
Proof. intros H. unfold bind. now rewrite H. Qed.

Lemma bind_inv_ok (m : M A) (k : A -> M B) (c c' : Conn) (b : B) :
  bind m k c = (Ok b, c') ->
  exists a c1, m c = (Ok a, c1) /\ k a c1 = (Ok b, c').
Proof.
  unfold bind. destruct (m c) as [[a | e] c1]; intros H.
  - now exists a, c1.
  - discriminate.
Qed.
End Monad_facts.

Lemma lift_inv_ok {A} (m : res A) (c c' : Conn) (a : A) :
  lift m c = (Ok a, c') -> m = Ok a /\ c' = c.
Proof. unfold lift. intros H. now inversion H. Qed.

Lemma replay_app (l1 l2 : list stmt) (st : Store) :
  replay (l1 ++ l2) st = replay l2 (replay l1 st).
Proof. apply fold_left_app. Qed.

Lemma accepted_app (l1 l2 : list stmt) (st : Store) :
  accepted l1 st -> accepted l2 (replay l1 st) -> accepted (l1 ++ l2) st.
Proof.
  revert st. induction l1 as [| s l1 IH]; intros st; simpl; trivial.
  unfold replay_step. destruct (exec s st) as [[r st'] | e]; [apply IH | tauto].
Qed.

(** ** Statements are traced *)

Section Traced.
Variable Q : stmt -> Prop.

Lemma traced_silent {A} (r : res A) : traced Q (fun c => (r, c)).
Proof. intros c. exists []. simpl. now rewrite app_nil_r. Qed.

Lemma traced_ret {A} (a : A) : traced Q (ret a).
Proof. apply traced_silent. Qed.

Lemma traced_raise {A} (e : exn) : traced Q (@raise A e).
Proof. apply traced_silent. Qed.

Lemma traced_lift {A} (m : res A) : traced Q (lift m).
Proof. apply traced_silent. Qed.

Lemma traced_bind {A B} (m : M A) (k : A -> M B) :
  traced Q m -> (forall a, traced Q (k a)) -> traced Q (bind m k).
Proof.
  intros Hm Hk c. destruct (Hm c) as (l1 & Hs1 & Hr1 & Hq1 & Ha1).
  unfold bind. destruct (m c) as [[a | e] c1]; simpl in *.
  - destruct (Hk a c1) as (l2 & Hs2 & Hr2 & Hq2 & Ha2).
    exists (l1 ++ l2). rewrite Hs2, Hr2, Hs1, Hr1, replay_app, app_assoc.
    repeat split; trivial; [now apply Forall_app |].
    intros b Hb. apply accepted_app; [now apply (Ha1 a) |].
    rewrite <- Hr1. now apply (Ha2 b).
  - exists l1. repeat split; trivial. discriminate.
Qed.

Lemma traced_bind_lift {A B} (m : res A) (k : A -> M B) :
  (forall a, m = Ok a -> traced Q (k a)) -> traced Q (bind (lift m) k).
Proof.
  intros Hk c. unfold bind, lift. destruct m as [a | e].
  - now apply Hk.
  - apply (traced_silent (Raise e)).
Qed.

Lemma traced_execute (s : stmt) : Q s -> traced Q (execute s).
Proof.
  intros Hq c. exists [s]. unfold execute, replay. simpl. unfold replay_step.
  destruct (exec s (store c)) as [[r st'] | e]; simpl;
    repeat split; auto; discriminate.
Qed.

Lemma traced_for_each (xs : list pyval) (body : pyval -> M unit) :
  (forall x, traced Q (body x)) -> traced Q (for_each xs body).
Proof.
  intros Hb. induction xs as [| x xs IH]; simpl.
  - apply traced_ret.
  - apply traced_bind; auto.
Qed.

End Traced.

Lemma traced_weaken (Q Q' : stmt -> Prop) {A} (m : M A) :
  (forall s, Q s -> Q' s) -> traced Q m -> traced Q' m.
Proof.
  intros H Hm c. destruct (Hm c) as (l & Hs & Hr & Hq & Ha).
  exists l. repeat split; trivial. eapply Forall_impl; eauto.
Qed.

Lemma traced_any (Q : stmt -> Prop) {A} (m : M A) :
  traced Q m -> traced (fun _ => True) m.
Proof. apply traced_weaken. trivial. Qed.

Ltac traced_step :=
  match goal with
  | |- traced _ (bind (lift _) _) => apply traced_bind_lift; intros ? ?
  | |- traced _ (bind _ _) => apply traced_bind; [| intros ?]
  | |- traced _ (ret _) => apply traced_ret
  | |- traced _ (raise _) => apply traced_raise
  | |- traced _ (lift _) => apply traced_lift
  | |- traced _ (for_each _ _) => apply traced_for_each; intros ?
  | |- traced _ (if ?b then _ else _) => destruct b
  | |- traced _ (match ?x with Some _ => _ | None => _ end) => destruct x
  | |- traced _ (execute _) => apply traced_execute
  end.

(** ** The loader is traced: what it sends is what [sends] lists *)

Section Loader_traced.
Variable tweet : pyval.

Lemma traced_get_id_urls (url : pyval) : traced (sends tweet) (get_id_urls url).
Proof. unfold get_id_urls. repeat traced_step; constructor. Qed.

Ltac loader_step :=
  first [ apply traced_get_id_urls | traced_step ].

Ltac sent_by_loader :=
  solve [ eapply sends_select_tweet; eassumption
        | eapply sends_user; eassumption
        | eapply sends_reply_stub; eassumption
        | eapply sends_mention_stub; eassumption
        | eapply sends_post; eassumption
        | eapply sends_tweet_url; eassumption
        | eapply sends_tweet_mention; eassumption
        | eapply sends_tweet_tag; eassumption
        | eapply sends_tweet_media; eassumption ].

Lemma traced_already_inserted : traced (sends tweet) (already_inserted tweet).
Proof. unfold already_inserted. repeat loader_step. sent_by_loader. Qed.

Lemma traced_insert_user : traced (sends tweet) (insert_user tweet).
Proof. unfold insert_user. repeat loader_step. sent_by_loader. Qed.

Lemma traced_insert_reply_user : traced (sends tweet) (insert_reply_user tweet).
Proof. unfold insert_reply_user. repeat loader_step. sent_by_loader. Qed.

Lemma traced_insert_tweet_row (f : fields) :
  traced (sends tweet) (insert_tweet_row tweet f).
Proof. unfold insert_tweet_row. repeat loader_step. sent_by_loader. Qed.

Lemma traced_insert_tweet_urls : traced (sends tweet) (insert_tweet_urls tweet).
Proof. unfold insert_tweet_urls. repeat loader_step. sent_by_loader. Qed.

Lemma traced_insert_tweet_mentions : traced (sends tweet) (insert_tweet_mentions tweet).
Proof. unfold insert_tweet_mentions. repeat loader_step; sent_by_loader. Qed.

Lemma traced_insert_tweet_tags : traced (sends tweet) (insert_tweet_tags tweet).
Proof. unfold insert_tweet_tags. repeat loader_step. sent_by_loader. Qed.

Lemma traced_insert_tweet_media : traced (sends tweet) (insert_tweet_media tweet).
Proof. unfold insert_tweet_media. repeat loader_step. sent_by_loader. Qed.

Ltac writer_step :=
  first
    [ apply traced_insert_user | apply traced_lift
    | apply traced_insert_reply_user | apply traced_insert_tweet_row
    | apply traced_insert_tweet_urls | apply traced_insert_tweet_mentions
    | apply traced_insert_tweet_tags | apply traced_insert_tweet_media
    | apply traced_bind; [| intros ?] ].

(** The associations, sections 5 to 8. *)
Lemma traced_associations :
  traced (sends tweet)
         (bind (insert_tweet_urls tweet) (fun _ =>
          bind (insert_tweet_mentions tweet) (fun _ =>
          bind (insert_tweet_tags tweet) (fun _ =>
          insert_tweet_media tweet)))).
Proof. repeat writer_step. Qed.

Lemma traced_write_tweet : traced (sends tweet) (write_tweet tweet).
Proof. unfold write_tweet. repeat writer_step. Qed.

Lemma traced_insert_tweet_body : traced (sends tweet) (insert_tweet_body tweet).
Proof.
  unfold insert_tweet_body.
  apply traced_bind; [apply traced_already_inserted |].
  intros [|]; [apply traced_ret |].
  apply traced_bind; [apply traced_write_tweet | intros ?; apply traced_ret].
Qed.
End Loader_traced.

Lemma tweet_params_geo (tweet : pyval) (f : fields) (p : tweet_params) :
  tweet_params_of tweet f = Ok p -> t_geo p = PNone.
Proof.
  unfold tweet_params_of, res_bind. intros H.
  repeat match type of H with
         | match ?x with Ok _ => _ | Raise _ => _ end = _ =>
             destruct x; [| discriminate]
         end.
  now inversion H.
Qed.

(** ** The store only grows *)

Lemma prefix_refl {A} (l : list A) : prefix_of l l.
Proof. exists []. now rewrite app_nil_r. Qed.

Lemma prefix_trans {A} (l1 l2 l3 : list A) :
  prefix_of l1 l2 -> prefix_of l2 l3 -> prefix_of l1 l3.
Proof. intros [e1 ->] [e2 ->]. exists (e1 ++ e2). now rewrite app_assoc. Qed.

Lemma prefix_snoc {A} (l : list A) (x : A) : prefix_of l (l ++ [x]).
Proof. now exists [x]. Qed.

Create HintDb store.
#[local] Hint Resolve prefix_refl prefix_snoc : store.

Lemma extends_refl (r : Rows) : extends r r.
Proof. constructor; apply prefix_refl. Qed.

Lemma extends_trans (r1 r2 r3 : Rows) :
  extends r1 r2 -> extends r2 r3 -> extends r1 r3.
Proof. intros [] []. constructor; eapply prefix_trans; eauto. Qed.

Ltac case_scrutinee H :=
  match type of H with
  | context [match ?x with _ => _ end] =>
      lazymatch x with
      | context [match _ with _ => _ end] => fail
      | _ => let E := fresh "E" in destruct x eqn:E; try discriminate
      end
  end.

Lemma exec_run (s : stmt) (st : Store) (x : option pyval * Store) :
  exec s st = Ok x -> run s st = Ok x.
Proof. unfold exec. now destruct (forallb nul_free (stmt_params s)). Qed.

Lemma exec_nul_free (s : stmt) (st : Store) (x : option pyval * Store) :
  exec s st = Ok x -> forallb nul_free (stmt_params s) = true.
Proof. unfold exec. now destruct (forallb nul_free (stmt_params s)). Qed.

Lemma run_exec (s : stmt) (st : Store) :
  forallb nul_free (stmt_params s) = true -> exec s st = run s st.
Proof. unfold exec. now intros ->. Qed.

Ltac exec_cases H :=
  apply exec_run in H; unfold run, res_bind, as_key in H; repeat case_scrutinee H;
  try (inversion H; subst; clear H).

Lemma exec_extends (s : stmt) (st st' : Store) (r : option pyval) :
  exec s st = Ok (r, st') ->
  extends (rows st) (rows st') /\ (urls_seq st <= urls_seq st')%Z.
Proof.
  intros H. destruct s; exec_cases H; simpl;
    (split; [first [apply extends_refl | constructor; simpl; auto with store] | lia]).
Qed.

Lemma replay_step_extends (s : stmt) (st : Store) :
  extends (rows st) (rows (replay_step st s))
  /\ (urls_seq st <= urls_seq (replay_step st s))%Z.
Proof.
  unfold replay_step. destruct (exec s st) as [[r st'] | e] eqn:E.
  - eapply exec_extends; eauto.
  - split; [apply extends_refl | lia].
Qed.

Lemma replay_extends (l : list stmt) (st : Store) :
  extends (rows st) (rows (replay l st))
  /\ (urls_seq st <= urls_seq (replay l st))%Z.
Proof.
  revert st. induction l as [| s l IH]; intros st; simpl.
  - split; [apply extends_refl | lia].
  - destruct (replay_step_extends s st) as [H1 H2].
    destruct (IH (replay_step st s)) as [H3 H4].
    split; [eapply extends_trans; eauto | lia].
Qed.

Lemma traced_extends (Q : stmt -> Prop) {A} (m : M A) (c : Conn) :
  traced Q m ->
  extends (rows (store c)) (rows (store (snd (m c)))).
Proof.
  intros Hm. destruct (Hm c) as (l & _ & -> & _ & _). apply replay_extends.
Qed.

(** ** Lookups in a table that grows *)

Lemma lookup_app_some {R} (k : Z) (tbl ext : list (Z * R)) (r : R) :
  lookup k tbl = Some r -> lookup k (tbl ++ ext) = Some r.
Proof.
  induction tbl as [| [k' r'] tbl IH]; simpl; [discriminate |].
  destruct (Z.eqb k' k); auto.
Qed.

Lemma lookup_prefix {R} (k : Z) (tbl tbl' : list (Z * R)) (r : R) :
  prefix_of tbl tbl' -> lookup k tbl = Some r -> lookup k tbl' = Some r.
Proof. intros [ext ->]. apply lookup_app_some. Qed.

Lemma has_key_lookup {R} (k : Z) (tbl : list (Z * R)) :
  has_key k tbl = true <-> exists r, lookup k tbl = Some r.
Proof.
  unfold has_key. induction tbl as [| [k' r'] tbl IH]; simpl.
  - split; [discriminate | intros [r H]; discriminate].
  - destruct (Z.eqb k' k); simpl; [| exact IH].
    split; eauto.
Qed.

Lemma has_key_false_lookup {R} (k : Z) (tbl : list (Z * R)) :
  has_key k tbl = false <-> lookup k tbl = None.
Proof.
  unfold has_key. induction tbl as [| [k' r'] tbl IH]; simpl.
  - tauto.
  - destruct (Z.eqb k' k); simpl; [| exact IH].
    split; discriminate.
Qed.

Lemma has_key_prefix {R} (k : Z) (tbl tbl' : list (Z * R)) :
  prefix_of tbl tbl' -> has_key k tbl = true -> has_key k tbl' = true.
Proof.
  intros Hp H. apply has_key_lookup in H as [r H].
  apply has_key_lookup. exists r. eapply lookup_prefix; eauto.
Qed.
(** ** Identifier text holds no NUL character *)

Lemma uint_text_digits (d : Decimal.uint) :
  forallb digit_or_minus (list_ascii_of_string (NilEmpty.string_of_uint d)) = true.
Proof. induction d; simpl; trivial. Qed.

Lemma int_text_digits (d : Decimal.signed_int) :
  forallb digit_or_minus (list_ascii_of_string (NilZero.string_of_int d)) = true.
Proof.
  destruct d as [u | u]; simpl; unfold NilZero.string_of_uint;
    destruct u; simpl; trivial; apply uint_text_digits.
Qed.

Lemma digits_nul_free (s : string) :
  forallb digit_or_minus (list_ascii_of_string s) = true -> has_char NUL s = false.
Proof.
  induction s as [| a s IH]; simpl; trivial.
  intros H. apply andb_true_iff in H as [Ha Hs]. rewrite (IH Hs), orb_false_r.
  destruct (Ascii.eqb a NUL) eqn:E; trivial.
  apply Ascii.eqb_eq in E. subst a. discriminate.
Qed.

Lemma has_char_in (c : ascii) (s : string) :
  has_char c s = true <-> In c (list_ascii_of_string s).
Proof.
  induction s as [| a s IH]; simpl.
  - split; [discriminate | tauto].
  - rewrite orb_true_iff, IH, Ascii.eqb_eq. tauto.
Qed.

Lemma in_lstrip (space : ascii -> bool) (c : ascii) (cs : list ascii) :
  space c = false -> In c cs -> In c (lstrip space cs).
Proof.
  intros Hc. induction cs as [| a cs IH]; simpl; trivial.
  intros [-> | Hin].
  - rewrite Hc. now left.
  - destruct (space a); [auto | now right].
Qed.

Lemma strip_by_keeps (space : ascii -> bool) (c : ascii) (s : string) :
  space c = false -> has_char c s = true -> has_char c (strip_by space s) = true.
Proof.
  intros Hc H. apply has_char_in in H. apply has_char_in.
  unfold strip_by. rewrite list_ascii_of_string_of_list_ascii.
  apply in_rev. rewrite rev_involutive.
  apply in_lstrip; trivial. apply -> in_rev. now apply in_lstrip.
Qed.

(** The store reads no integer from a text with a NUL character. *)
Lemma parse_int_nul_free (s : string) (n : Z) :
  parse_int s = Some n -> has_char NUL s = false.
Proof.
  intros H. destruct (has_char NUL s) eqn:E; trivial. exfalso.
  apply (strip_by_keeps pg_space) in E; [| reflexivity].
  unfold parse_int in H.
  assert (forall t d, NilZero.int_of_string t = Some d -> has_char NUL t = false) as Hint.
  { intros t d Ht. apply NilZero.sis in Ht. subst t.
    apply digits_nul_free, int_text_digits. }
  assert (forall t d, NilZero.uint_of_string t = Some d -> has_char NUL t = false) as Huint.
  { intros t d Ht. apply NilZero.sus in Ht. subst t.
    apply digits_nul_free. apply (int_text_digits (Decimal.Pos d)). }
  destruct (strip_by pg_space s) as [| a t] eqn:Et; [discriminate |].
  assert (a = "+"%char \/ a <> "+"%char) as [-> | Ha]
    by (destruct (Ascii.eqb_spec a "+"%char); auto).
  - destruct (NilZero.uint_of_string t) as [d |] eqn:Ed; [| discriminate].
    apply Huint in Ed. simpl in E. congruence.
  - assert (NilZero.int_of_string (String a t) <> None) as Hsome.
    { destruct a as [[] [] [] [] [] [] [] []]; try (now destruct Ha);
        intros Hn; rewrite Hn in H; discriminate. }
    destruct (NilZero.int_of_string (String a t)) as [d |] eqn:Ed; [| now destruct Hsome].
    apply Hint in Ed. congruence.
Qed.

Lemma as_key_nul_free (x : pyval) (k : Z) :
  as_key x = Ok k -> nul_free x = true.
Proof.
  unfold as_key. destruct x; simpl; try discriminate; trivial.
  destruct (parse_int s) as [n |] eqn:E; [| discriminate].
  intros _. now rewrite (parse_int_nul_free _ _ E).
Qed.

Lemma as_bigint_nul_free (x : pyval) (k : option Z) :
  as_bigint x = Ok k -> nul_free x = true.
Proof.
  destruct x; simpl; try discriminate; trivial.
  destruct (parse_int s) as [n |] eqn:E; [| discriminate].
  intros _. now rewrite (parse_int_nul_free _ _ E).
Qed.

Lemma as_bigint_nul (s : string) :
  has_char NUL s = true -> as_bigint (PStr s) = Raise StorageError.
Proof.
  intros H. simpl. destruct (parse_int s) as [n |] eqn:E; trivial.
  apply parse_int_nul_free in E. congruence.
Qed.

(** * The record writer *)

(** ** The existence check *)

Lemma as_bigint_text_not_null (s : string) : as_bigint (PStr s) <> Ok None.
Proof.
  simpl. destruct (parse_int s) as [n |]; [destruct (in_bigint n) |]; discriminate.
Qed.

(** The check reads the rows and changes nothing but the list of statements. *)
Lemma already_inserted_eq (tweet : pyval) (c : Conn) :
  already_inserted tweet c =
    (match post_key tweet with
     | Ok n => Ok (has_key n (tweets (rows (store c))))
     | Raise e =>
         Raise (match getitem tweet "id" with
                | Ok id => if nul_free (PStr (py_str id)) then e else ValueError
                | Raise _ => e
                end)
     end,
     match getitem tweet "id" with
     | Ok id => {| store := store c; sent := sent c ++ [SelectTweet (PStr (py_str id))] |}
     | Raise _ => c
     end).
Proof.
  unfold already_inserted, post_key, bind, lift, res_bind.
  destruct (getitem tweet "id") as [id | e]; trivial.
  unfold execute, exec. cbn [stmt_params forallb nul_free].
  destruct (has_char NUL (py_str id)) eqn:Hnul; cbn [negb andb].
  - unfold as_key. now rewrite (as_bigint_nul _ Hnul).
  - unfold run, res_bind, ret, as_key.
    pose proof (as_bigint_text_not_null (py_str id)) as Hnn.
    destruct (as_bigint (PStr (py_str id))) as [[n |] | e]; trivial.
    + now destruct (has_key n (tweets (rows (store c)))).
    + now contradiction Hnn.
Qed.

Lemma already_inserted_store (tweet : pyval) (c : Conn) :
  store (snd (already_inserted tweet c)) = store c.
Proof.
  rewrite already_inserted_eq. simpl. now destruct (getitem tweet "id").
Qed.

(** ** The Post insert *)

Ltac res_inv H :=
  unfold res_bind in H;
  repeat match type of H with
         | match ?x with Ok _ => _ | Raise _ => _ end = _ =>
             let E := fresh "E" in destruct x eqn:E; [| discriminate]
         end.

Lemma tweet_params_id (tweet : pyval) (f : fields) (p : tweet_params) :
  tweet_params_of tweet f = Ok p ->
  exists id, getitem tweet "id" = Ok id /\ t_id_tweets p = PStr (py_str id).
Proof.
  unfold tweet_params_of. intros H. res_inv H. inversion H. simpl. eauto.
Qed.

Lemma execute_inv_ok (s : stmt) (c c' : Conn) (r : option pyval) :
  execute s c = (Ok r, c') ->
  exec s (store c) = Ok (r, store c') /\ sent c' = sent c ++ [s].
Proof.
  unfold execute. destruct (exec s (store c)) as [[r0 st'] | e]; intros H;
    inversion H; subst; auto.
Qed.

Lemma insert_tweet_row_present (tweet : pyval) (f : fields) (c c' : Conn) :
  insert_tweet_row tweet f c = (Ok tt, c') ->
  exists n, post_key tweet = Ok n
            /\ has_key n (tweets (rows (store c'))) = true.
Proof.
  unfold insert_tweet_row. intros H.
  apply bind_inv_ok in H as (p & c1 & Hp & H).
  apply lift_inv_ok in Hp as [Hp ->].
  apply bind_inv_ok in H as (r & c2 & He & H).
  inversion H; subst. clear H.
  apply execute_inv_ok in He as [He _].
  destruct (tweet_params_id _ _ _ Hp) as (id & Hid & Hpid).
  unfold post_key, res_bind. rewrite Hid.
  apply exec_run in He. unfold run, res_bind in He. rewrite Hpid in He.
  destruct (as_key (PStr (py_str id))) as [n | e]; [| discriminate].
  exists n. split; trivial.
  destruct (has_key n (tweets (rows (store c)))) eqn:Hk; inversion He; subst; trivial.
  simpl. unfold has_key. rewrite existsb_app. simpl.
  now rewrite Z.eqb_refl, orb_true_r.
Qed.

(** When sections 2 to 8 run to their end, the record's Post row is stored. *)
Lemma write_tweet_present (tweet : pyval) (c c' : Conn) :
  write_tweet tweet c = (Ok tt, c') ->
  exists n, post_key tweet = Ok n
            /\ has_key n (tweets (rows (store c'))) = true.
Proof.
  unfold write_tweet. intros H.
  apply bind_inv_ok in H as (? & c1 & _ & H).
  apply bind_inv_ok in H as (f & c2 & _ & H).
  apply bind_inv_ok in H as (? & c3 & _ & H).
  apply bind_inv_ok in H as ([] & c4 & Hrow & H).
  apply insert_tweet_row_present in Hrow as (n & Hn & Hk).
  exists n. split; trivial.
  pose proof (traced_extends _ _ c4 (traced_associations tweet)) as Hext.
  rewrite H in Hext. simpl in Hext.
  eapply has_key_prefix; [apply (ext_tweets _ _ Hext) | exact Hk].
Qed.

(** ** Transactions *)

Lemma with_transaction_inv_ok {A} (body : M A) (c c' : Conn) (a : A) :
  with_transaction body c = (Ok a, c') -> body c = (Ok a, c').
Proof.
  unfold with_transaction. destruct (body c) as [[a0 | e] c0]; intros H;
    inversion H; subst; trivial.
Qed.

Lemma insert_tweet_body_inv (tweet : pyval) (c c' : Conn) (o : outcome) :
  insert_tweet_body tweet c = (Ok o, c') ->
  exists n, post_key tweet = Ok n
    /\ match o with
       | AlreadyPresent =>
           has_key n (tweets (rows (store c))) = true /\ store c' = store c
       | Inserted =>
           has_key n (tweets (rows (store c))) = false
           /\ write_tweet tweet (snd (already_inserted tweet c)) = (Ok tt, c')
       end.
Proof.
  unfold insert_tweet_body. intros H.
  apply bind_inv_ok in H as (present & c1 & Hchk & H).
  pose proof (already_inserted_store tweet c) as Hst.
  pose proof (already_inserted_eq tweet c) as Heq.
  rewrite Hchk in Hst, Heq. simpl in Hst.
  inversion Heq as [[Hr Hc]]. clear Heq.
  destruct (post_key tweet) as [n | e]; [| discriminate]. simpl in Hr.
  inversion Hr; subst present. exists n. split; trivial.
  destruct (has_key n (tweets (rows (store c)))) eqn:Hk.
  - inversion H; subst. auto.
  - apply bind_inv_ok in H as ([] & c2 & Hw & H). inversion H; subst.
    split; trivial. now rewrite Hchk.
Qed.

(** A stored record is skipped: one [SELECT], no write. *)
Lemma insert_tweet_skips (tweet : pyval) (c : Conn) (n : Z) :
  post_key tweet = Ok n ->
  has_key n (tweets (rows (store c))) = true ->
  exists id, getitem tweet "id" = Ok id
    /\ insert_tweet tweet c =
         (Ok AlreadyPresent,
          {| store := store c; sent := sent c ++ [SelectTweet (PStr (py_str id))] |}).
Proof.
  intros Hn Hk. unfold insert_tweet, with_transaction, insert_tweet_body, bind.
  rewrite already_inserted_eq, Hn. simpl. rewrite Hk.
  unfold post_key, res_bind in Hn.
  destruct (getitem tweet "id") as [id | e]; [| discriminate].
  now exists id.
Qed.

(** C1. Ingesting one record is atomic.  Whatever the record and the store,
    the statements [insert_tweet] sends either all take effect together (the
    call returns, the store has accepted every one of them and holds the
    result of them all, the record's Post row among its rows) or none does:
    when the call raises, the rows are those from before the call, and the
    existence check still does not find the record, so that a later run tries
    it again. *)
Theorem insert_tweet_atomic (tweet : pyval) (c : Conn) :
  exists l,
    sent (snd (insert_tweet tweet c)) = sent c ++ l
    /\ match fst (insert_tweet tweet c) with
       | Ok _ =>
           accepted l (store c)
           /\ store (snd (insert_tweet tweet c)) = replay l (store c)
           /\ exists n,
                post_key tweet = Ok n
                /\ has_key n (tweets (rows (store (snd (insert_tweet tweet c))))) = true
       | Raise _ =>
           rows (store (snd (insert_tweet tweet c))) = rows (store c)
           /\ fst (already_inserted tweet (snd (insert_tweet tweet c))) <> Ok true
       end.
Proof.
  destruct (traced_insert_tweet_body tweet c) as (l & Hs & Hr & _ & Ha).
  exists l.
  destruct (insert_tweet tweet c) as [r c'] eqn:Hrun.
  unfold insert_tweet, with_transaction in Hrun.
  destruct (insert_tweet_body tweet c) as [[o | e] c1] eqn:Hbody;
    inversion Hrun; subst; simpl in *; split; trivial.
  - split; [now apply (Ha o) | split; trivial].
    destruct (insert_tweet_body_inv _ _ _ _ Hbody) as (n & Hn & Ho).
    exists n. split; trivial. destruct o.
    + destruct Ho as [Hk ->]. exact Hk.
    + destruct Ho as [_ Hw]. apply write_tweet_present in Hw as (n' & Hn' & Hk).
      congruence.
  - split; trivial.
    rewrite already_inserted_eq. simpl.
    destruct (post_key tweet) as [n | e'] eqn:Hn; simpl; [| discriminate].
    destruct (has_key n (tweets (rows (store c)))) eqn:Hk; [| discriminate].
    destruct (insert_tweet_skips tweet c n Hn Hk) as (id & _ & Hskip).
    unfold insert_tweet, with_transaction in Hskip.
    rewrite Hbody in Hskip. discriminate.
Qed.

(** C2. Ingestion is idempotent per post identifier.  When the record's Post
    row is stored already, [insert_tweet] sends the existence check and nothing
    else, leaves the store as it is and leaves through the early [return];
    hence, when a first call on a record returns, a second call on the same
    record is such a skip: the store after two calls is the store after one. *)
Theorem insert_tweet_idempotent (tweet : pyval) (c : Conn) :
  (forall n,
     post_key tweet = Ok n ->
     has_key n (tweets (rows (store c))) = true ->
     exists id, getitem tweet "id" = Ok id
       /\ insert_tweet tweet c =
            (Ok AlreadyPresent,
             {| store := store c;
                sent := sent c ++ [SelectTweet (PStr (py_str id))] |}))
  /\ (forall o c1,
        insert_tweet tweet c = (Ok o, c1) ->
        exists c2,
          insert_tweet tweet c1 = (Ok AlreadyPresent, c2)
          /\ store c2 = store c1
          /\ exists id, sent c2 = sent c1 ++ [SelectTweet (PStr (py_str id))]).
Proof.
  split.
  - intros n. apply insert_tweet_skips.
  - intros o c1 H. apply with_transaction_inv_ok in H.
    assert (exists n, post_key tweet = Ok n
                      /\ has_key n (tweets (rows (store c1))) = true)
      as (n & Hn & Hk).
    { destruct (insert_tweet_body_inv _ _ _ _ H) as (n & Hn & Ho).
      destruct o.
      - destruct Ho as [Hk ->]. eauto.
      - destruct Ho as [_ Hw]. eapply write_tweet_present; eauto. }
    destruct (insert_tweet_skips tweet c1 n Hn Hk) as (id & _ & Hskip).
    eexists. split; [exact Hskip |]. simpl. eauto.
Qed.

Lemma insert_tweet_idempotent_witness :
  (exists id,
     getitem sample_tweet "id" = Ok id
     /\ insert_tweet sample_tweet conn_after_sample
        = (Ok AlreadyPresent,
           {| store := store conn_after_sample;
              sent := sent conn_after_sample ++ [SelectTweet (PStr (py_str id))] |}))
  /\ (exists c2,
        insert_tweet sample_tweet conn_after_sample = (Ok AlreadyPresent, c2)
        /\ store c2 = store conn_after_sample
        /\ exists id, sent c2 = sent conn_after_sample ++ [SelectTweet (PStr (py_str id))]).
Proof.
  split.
  - apply (proj1 (insert_tweet_idempotent sample_tweet conn_after_sample) 10%Z);
      vm_compute; reflexivity.
  - apply (proj2 (insert_tweet_idempotent sample_tweet empty_conn) Inserted).
    vm_compute. reflexivity.
Defined.

(** A run of C1 that rolls back: the author and the Post row were sent, the
    missing [entities] raises, and the rows are those of the empty store. *)
Example insert_tweet_rolls_back :
  fst (insert_tweet sample_tweet_no_entities empty_conn) = Raise (KeyError "entities")
  /\ rows (store (snd (insert_tweet sample_tweet_no_entities empty_conn))) = empty_rows
  /\ List.length (sent (snd (insert_tweet sample_tweet_no_entities empty_conn))) = 4%nat.
Proof. vm_compute. repeat split. Qed.

(** ** What a call leaves of the rows that were there *)

Lemma insert_tweet_extends (tweet : pyval) (c : Conn) :
  extends (rows (store c)) (rows (store (snd (insert_tweet tweet c)))).
Proof.
  pose proof (traced_extends _ _ c (traced_insert_tweet_body tweet)) as H.
  unfold insert_tweet, with_transaction.
  destruct (insert_tweet_body tweet c) as [[o | e] c1]; simpl in *; trivial.
  apply extends_refl.
Qed.

Lemma execute_extends (s : stmt) (c : Conn) :
  extends (rows (store c)) (rows (store (snd (execute s c)))).
Proof.
  apply (traced_extends (fun _ => True)). now apply traced_execute.
Qed.

(** C8. An Author row that exists is never changed.  For every author
    identifier with a row in the store, stub or hydrated, each statement the
    loader can send (among them the identifier-only insert of a reply target
    or of a mentioned author and the full insert of the record's author)
    leaves the row as it is, and so does a whole call of [insert_tweet]: a
    stub stays a stub when its author's own record arrives, and no stub
    replaces a hydrated row. *)
Theorem author_row_unchanged (tweet : pyval) (c : Conn) (id : Z) (row : user_params) :
  lookup id (users (rows (store c))) = Some row ->
  (forall s, lookup id (users (rows (store (snd (execute s c))))) = Some row)
  /\ lookup id (users (rows (store (snd (insert_tweet tweet c))))) = Some row.
Proof.
  intros H. split; [intros s |]; eapply lookup_prefix; eauto.
  - apply (ext_users _ _ (execute_extends s c)).
  - apply (ext_users _ _ (insert_tweet_extends tweet c)).
Qed.

(** Author 2 is a stub left by a mention; then the record of author 2
    arrives, with a profile url. *)
Lemma author_row_unchanged_witness :
  lookup 2 (users (rows (store conn_after_mention))) = Some (stub_row (PInt 2))
  /\ (forall s, lookup 2 (users (rows (store (snd (execute s conn_after_mention)))))
                = Some (stub_row (PInt 2)))
  /\ lookup 2 (users (rows (store (snd (insert_tweet sample_tweet conn_after_mention)))))
     = Some (stub_row (PInt 2)).
Proof.
  split; [vm_compute; reflexivity |].
  apply (author_row_unchanged sample_tweet conn_after_mention 2 (stub_row (PInt 2))).
  vm_compute. reflexivity.
Defined.

(** ** Post rows a call adds *)

Lemma lookup_snoc_inv {R} (n k : Z) (tbl : list (Z * R)) (r r0 : R) :
  lookup n (tbl ++ [(k, r0)]) = Some r -> lookup n tbl = Some r \/ r = r0.
Proof.
  induction tbl as [| [k' r'] tbl IH]; simpl.
  - destruct (Z.eqb k n); [| discriminate]. intros H. inversion H. now right.
  - destruct (Z.eqb k' n); auto.
Qed.

Lemma exec_post_geo (s : stmt) (st st' : Store) (r : option pyval) :
  exec s st = Ok (r, st') ->
  geo_null s ->
  forall n p,
    lookup n (tweets (rows st')) = Some p ->
    lookup n (tweets (rows st)) = Some p \/ t_geo p = PNone.
Proof.
  intros H Hq n p. destruct s; exec_cases H; simpl; auto.
  intros Hl. apply lookup_snoc_inv in Hl as [Hl | ->]; auto.
Qed.

Lemma replay_post_geo (l : list stmt) (st : Store) :
  Forall geo_null l ->
  forall n p,
    lookup n (tweets (rows (replay l st))) = Some p ->
    lookup n (tweets (rows st)) = Some p \/ t_geo p = PNone.
Proof.
  intros Hq. revert st. induction Hq as [| s l Hs Hl IH]; intros st n p; simpl; auto.
  intros H. apply IH in H as [H | H]; auto.
  unfold replay_step in H.
  destruct (exec s st) as [[r st'] | e] eqn:E; auto.
  eapply exec_post_geo; eauto.
Qed.

(** C9. The geography column is always null.  For every record that
    [insert_tweet] stores, whatever its [geo] and [place], the Post row filed
    under the record's identifier has a null [geo], and every Post insert the
    call sends carries a null [geo] parameter: the Point or MultiPolygon text
    computed in section 3 is not passed on. *)
Theorem geo_always_null (tweet : pyval) (c c' : Conn) :
  insert_tweet tweet c = (Ok Inserted, c') ->
  (exists n p,
     post_key tweet = Ok n
     /\ lookup n (tweets (rows (store c'))) = Some p
     /\ t_geo p = PNone)
  /\ (exists l, sent c' = sent c ++ l /\ Forall geo_null l).
Proof.
  intros H. apply with_transaction_inv_ok in H.
  assert (traced geo_null (insert_tweet_body tweet)) as Ht.
  { apply (traced_weaken (sends tweet)); [| apply traced_insert_tweet_body].
    intros s []; simpl; trivial. eapply tweet_params_geo; eauto. }
  destruct (Ht c) as (l & Hs & Hr & Hq & _). rewrite H in Hs, Hr. simpl in Hs, Hr.
  split; [| now exists l].
  destruct (insert_tweet_body_inv _ _ _ _ H) as (n & Hn & Hnew & Hw).
  apply write_tweet_present in Hw as (n' & Hn' & Hk).
  rewrite Hn in Hn'. inversion Hn'; subst n'.
  apply has_key_lookup in Hk as [p Hp].
  exists n, p. repeat split; trivial.
  rewrite Hr in Hp. apply (replay_post_geo l _ Hq) in Hp as [Hp | Hp]; trivial.
  apply has_key_false_lookup in Hnew. congruence.
Qed.

Lemma geo_always_null_witness :
  (exists n p,
     post_key sample_tweet_located = Ok n
     /\ lookup n (tweets (rows (store (snd (insert_tweet sample_tweet_located empty_conn)))))
        = Some p
     /\ t_geo p = PNone)
  /\ (exists l,
        sent (snd (insert_tweet sample_tweet_located empty_conn)) = sent empty_conn ++ l
        /\ Forall geo_null l).
Proof.
  apply (geo_always_null sample_tweet_located empty_conn).
  vm_compute. reflexivity.
Defined.

(** The geometry the loader computes for this record, and then drops. *)
Example geo_of_located :
  geo_of sample_tweet_located
  = Ok (GeoPoint (PList [PFloat "42.36"; PFloat "-71.06"])).
Proof. reflexivity. Qed.

(** * The URL resolver *)

Lemma find_app_some {A} (f : A -> bool) (l ext : list A) (x : A) :
  find f l = Some x -> find f (l ++ ext) = Some x.
Proof.
  induction l as [| a l IH]; simpl; [discriminate |].
  destruct (f a); auto.
Qed.

Lemma find_prefix {A} (f : A -> bool) (l l' : list A) (x : A) :
  prefix_of l l' -> find f l = Some x -> find f l' = Some x.
Proof. intros [ext ->]. apply find_app_some. Qed.

Lemma find_none_existsb {A} (f : A -> bool) (l : list A) :
  find f l = None <-> existsb f l = false.
Proof.
  induction l as [| a l IH]; simpl; [tauto |].
  destruct (f a); simpl; [split; discriminate | exact IH].
Qed.

Lemma find_url_is (s : string) (tbl : list (Z * option string)) (i : Z) (u : option string) :
  find (url_is s) tbl = Some (i, u) -> u = Some s /\ In (i, Some s) tbl.
Proof.
  intros H. apply find_some in H as [Hin Hu].
  unfold url_is in Hu. simpl in Hu. destruct u as [s' |]; [| discriminate].
  apply String.eqb_eq in Hu. subst. auto.
Qed.

Lemma count_url_app (s : string) (tbl ext : list (Z * option string)) :
  count_url s (tbl ++ ext) = (count_url s tbl + count_url s ext)%nat.
Proof. unfold count_url. now rewrite filter_app, length_app. Qed.

Lemma count_url_zero (s : string) (tbl : list (Z * option string)) :
  existsb (url_is s) tbl = false -> count_url s tbl = 0%nat.
Proof.
  unfold count_url. induction tbl as [| r tbl IH]; simpl; trivial.
  destruct (url_is s r); simpl; [discriminate | exact IH].
Qed.

Lemma count_url_found (s : string) (tbl : list (Z * option string)) (r : Z * option string) :
  find (url_is s) tbl = Some r -> (1 <= count_url s tbl)%nat.
Proof.
  unfold count_url. induction tbl as [| a tbl IH]; simpl; [discriminate |].
  destruct (url_is s a); simpl; [lia | exact IH].
Qed.

Lemma has_key_above {R} (k : Z) (bound : Z) (tbl : list (Z * R)) :
  (forall r, In r tbl -> (fst r <= bound)%Z) -> (bound < k)%Z -> has_key k tbl = false.
Proof.
  intros Hb Hk. unfold has_key.
  destruct (existsb (fun r => (fst r =? k)%Z) tbl) eqn:E; trivial.
  apply existsb_exists in E as (r & Hin & Hr).
  apply Z.eqb_eq in Hr. apply Hb in Hin. lia.
Qed.

Lemma url_is_other (s s' : string) (i : Z) :
  s <> s' -> url_is s' (i, Some s) = false.
Proof. intros H. unfold url_is. simpl. now apply String.eqb_neq. Qed.

(** ** The schema's constraints on the Url table are kept *)

Lemma exec_urls_ok (s : stmt) (st st' : Store) (r : option pyval) :
  exec s st = Ok (r, st') -> urls_ok st -> urls_ok st'.
Proof.
  intros H [Hids Huniq].
  destruct s; exec_cases H; simpl; try (split; assumption).
  - (* the sequence moved, no row *)
    split; simpl; trivial. intros row Hin. apply Hids in Hin. lia.
  - (* a new url row *)
    match goal with
    | Hc : url_conflict _ ?u _ = false |- _ =>
        unfold url_conflict in Hc; apply orb_false_iff in Hc as [_ Hnew];
        destruct u as [s0 |]
    end; (split; simpl;
          [ intros row Hin; apply in_app_iff in Hin as [Hin | [<- | []]]; simpl;
            [apply Hids in Hin |]; lia
          | intros s'; rewrite count_url_app; specialize (Huniq s') ]).
    + destruct (String.eqb s0 s') eqn:Es.
      * apply String.eqb_eq in Es. subst s'.
        rewrite (count_url_zero _ _ Hnew). unfold count_url. simpl.
        destruct (url_is s0 (urls_seq st + 1, Some s0)%Z); simpl; lia.
      * replace (count_url s' [(urls_seq st + 1, Some s0)%Z]) with 0%nat; [lia |].
        unfold count_url, url_is. simpl. now rewrite Es.
    + replace (count_url s' [(urls_seq st + 1, @None string)%Z]) with 0%nat; [lia |].
      reflexivity.
Qed.

Lemma replay_urls_ok (l : list stmt) (st : Store) :
  urls_ok st -> urls_ok (replay l st).
Proof.
  revert st. induction l as [| s l IH]; intros st H; simpl; trivial.
  apply IH. unfold replay_step.
  destruct (exec s st) as [[r st'] | e] eqn:E; trivial.
  eapply exec_urls_ok; eauto.
Qed.

Lemma traced_urls_ok (Q : stmt -> Prop) {A} (m : M A) (c : Conn) :
  traced Q m -> urls_ok (store c) -> urls_ok (store (snd (m c))).
Proof.
  intros Hm H. destruct (Hm c) as (l & _ & -> & _). now apply replay_urls_ok.
Qed.

Lemma traced_seq (Q : stmt -> Prop) {A} (m : M A) (c : Conn) :
  traced Q m -> (urls_seq (store c) <= urls_seq (store (snd (m c))))%Z.
Proof.
  intros Hm. destruct (Hm c) as (l & _ & -> & _). apply replay_extends.
Qed.

Lemma insert_tweet_urls_ok (tweet : pyval) (c : Conn) :
  urls_ok (store c) -> urls_ok (store (snd (insert_tweet tweet c))).
Proof.
  intros H.
  pose proof (traced_insert_tweet_body tweet) as Ht.
  pose proof (traced_urls_ok _ _ c Ht H) as Hok.
  pose proof (traced_seq _ _ c Ht) as Hseq.
  unfold insert_tweet, with_transaction.
  destruct (insert_tweet_body tweet c) as [[o | e] c1]; simpl in *; trivial.
  destruct H as [Hids Huniq]. split; simpl; trivial.
  intros row Hin. apply Hids in Hin. lia.
Qed.

(** ** One resolution *)

Lemma exec_url (s : string) (st : Store) :
  has_char NUL s = false ->
  exec (InsertUrl (PStr s)) st = run (InsertUrl (PStr s)) st
  /\ exec (SelectUrl (PStr s)) st = run (SelectUrl (PStr s)) st.
Proof.
  intros H. split; apply run_exec; simpl; now rewrite H.
Qed.

Lemma get_id_urls_known (s : string) (c : Conn) (row : Z * option string) :
  has_char NUL s = false ->
  urls_ok (store c) ->
  find (url_is s) (urls (rows (store c))) = Some row ->
  fst (get_id_urls (PStr s) c) = Ok (PInt (fst row))
  /\ rows (store (snd (get_id_urls (PStr s) c))) = rows (store c).
Proof.
  intros Hnul [Hids _] Hfind.
  assert (existsb (url_is s) (urls (rows (store c))) = true) as Hex.
  { destruct (existsb (url_is s) (urls (rows (store c)))) eqn:E; trivial.
    apply find_none_existsb in E. congruence. }
  unfold get_id_urls, bind, execute.
  rewrite !(proj1 (exec_url s (store c) Hnul)).
  unfold run, res_bind, as_text, url_conflict. rewrite Hnul.
  rewrite Hex, orb_true_r. cbn [store].
  rewrite !(proj2 (exec_url s _ Hnul)).
  unfold run, res_bind, as_text. rewrite Hnul. cbn [rows]. rewrite Hfind. simpl. auto.
Qed.

Lemma get_id_urls_new (s : string) (c : Conn) :
  has_char NUL s = false ->
  urls_ok (store c) ->
  find (url_is s) (urls (rows (store c))) = None ->
  fst (get_id_urls (PStr s) c) = Ok (PInt (urls_seq (store c) + 1))
  /\ rows (store (snd (get_id_urls (PStr s) c)))
     = add_url (urls_seq (store c) + 1) (Some s) (rows (store c)).
Proof.
  intros Hnul [Hids _] Hfind. apply find_none_existsb in Hfind.
  unfold get_id_urls, bind, execute.
  rewrite !(proj1 (exec_url s (store c) Hnul)).
  unfold run, res_bind, as_text, url_conflict. rewrite Hnul.
  rewrite Hfind, (has_key_above _ (urls_seq (store c))); trivial; [| lia].
  simpl. auto.
Qed.

(** A url string with a NUL character is refused, whether or not a row
    holds it. *)
Lemma get_id_urls_nul (s : string) (c : Conn) :
  has_char NUL s = true ->
  fst (get_id_urls (PStr s) c) = Raise ValueError
  /\ store (snd (get_id_urls (PStr s) c)) = store c.
Proof.
  intros H. unfold get_id_urls, bind, execute, exec. simpl. rewrite H. simpl. auto.
Qed.

Lemma traced_get_id_urls_any (url : pyval) : traced (fun _ => True) (get_id_urls url).
Proof. apply (traced_any (sends PNone)), traced_get_id_urls. Qed.

(** After a resolution the string has its row, and the call returned the
    identifier of that row. *)
Lemma get_id_urls_resolves (s : string) (c : Conn) :
  has_char NUL s = false ->
  urls_ok (store c) ->
  exists i c1,
    get_id_urls (PStr s) c = (Ok (PInt i), c1)
    /\ urls_ok (store c1)
    /\ find (url_is s) (urls (rows (store c1))) = Some (i, Some s).
Proof.
  intros Hnul Hok.
  pose proof (traced_urls_ok _ _ c (traced_get_id_urls_any (PStr s)) Hok) as Hok1.
  destruct (find (url_is s) (urls (rows (store c)))) as [[i u] |] eqn:Hfind.
  - destruct (get_id_urls_known s c _ Hnul Hok Hfind) as [Hr Hrows].
    destruct (find_url_is _ _ _ _ Hfind) as [-> _].
    destruct (get_id_urls (PStr s) c) as [r c1]. simpl in *. subst r.
    exists i, c1. split; [reflexivity | split; [exact Hok1 |]].
    now rewrite Hrows.
  - destruct (get_id_urls_new s c Hnul Hok Hfind) as [Hr Hrows].
    destruct (get_id_urls (PStr s) c) as [r c1]. simpl in *. subst r.
    exists (urls_seq (store c) + 1)%Z, c1.
    split; [reflexivity | split; [exact Hok1 |]].
    rewrite Hrows. simpl. apply find_none_existsb in Hfind.
    clear - Hfind. induction (urls (rows (store c))) as [| a l IH]; simpl in *.
    + unfold url_is. simpl. now rewrite String.eqb_refl.
    + apply orb_false_iff in Hfind as [Ha Hl]. rewrite Ha. auto.
Qed.
(** * Fallback chains *)


(** One subscript, seen on the document. *)
Lemma getitem_spec (x : pyval) (k : string) :
  match getitem x k with
  | Ok v => forall path, lookup_path x (k :: path) = lookup_path v path
  | Raise (KeyError k') => k' = k /\ forall path, lookup_path x (k :: path) = Missing k
  | Raise TypeError => forall path, lookup_path x (k :: path) = NotDict
  | Raise _ => False
  end.
Proof.
  destruct x; simpl; trivial.
  destruct (assoc k kvs); simpl; auto.
Qed.

Ltac found_here :=
  repeat match goal with
         | |- context [lookup_path ?v []] => change (lookup_path v []) with (Found v)
         end;
  cbv beta iota;
  cbn [is_KeyError is_TypeError is_TypeError_or_KeyError orb].

Ltac subscript x k :=
  let H := fresh "H" in
  pose proof (getitem_spec x k) as H;
  destruct (getitem x k) as [? | []]; try contradiction;
  try (destruct H as [-> H]);
  rewrite ?H; clear H; found_here.

Ltac subscripts :=
  repeat match goal with
         | |- context [getitem ?x ?k] => subscript x k; try reflexivity
         end.



(** Such a record goes in, and so does one without any optional tier. *)
Example record_without_optional_tiers :
  fst (insert_tweet sample_tweet_partial empty_conn) = Ok Inserted
  /\ fst (insert_tweet sample_tweet_mentioning empty_conn) = Ok Inserted
  /\ geo_of sample_tweet_mentioning = Ok GeoUnset.
Proof. vm_compute. repeat split; reflexivity. Qed.

(** A tier that is there but is not a dictionary is not skipped by the text
    chain, and is skipped by the country code chain. *)
Example null_tier :
  text_of (PDict [("extended_tweet", PNone); ("text", PStr "hello")]) = Raise TypeError
  /\ country_code_of (PDict [("place", PNone)]) = Ok PNone.
Proof. split; reflexivity. Qed.

(** * What reaches the store *)

(** Whatever the record and the store, the statements of a call are among
    those [sends] lists. *)
Lemma insert_tweet_sends (tweet : pyval) (c : Conn) :
  exists l,
    sent (snd (insert_tweet tweet c)) = sent c ++ l /\ Forall (sends tweet) l.
Proof.
  destruct (traced_insert_tweet_body tweet c) as (l & Hs & _ & Hq & _).
  exists l. split; trivial.
  unfold insert_tweet, with_transaction.
  now destruct (insert_tweet_body tweet c) as [[o | e] c1].
Qed.

(** ** The sanitizer *)

Lemma remove_char_absent (c : ascii) (s : string) :
  has_char c (remove_char c s) = false.
Proof.
  induction s as [| a s IH]; simpl; trivial.
  destruct (Ascii.eqb a c) eqn:E; simpl; [assumption |].
  now rewrite E, IH.
Qed.

Lemma remove_char_fixes (c : ascii) (s : string) :
  has_char c s = false -> remove_char c s = s.
Proof.
  induction s as [| a s IH]; simpl; trivial.
  intros H. apply orb_false_iff in H as [Ha Hs].
  rewrite Ha. now rewrite IH.
Qed.

Lemma remove_char_idem (c : ascii) (s : string) :
  remove_char c (remove_char c s) = remove_char c s.
Proof. apply remove_char_fixes, remove_char_absent. Qed.

(** No other transformation: the characters kept are those of [s] other than
    [c], in their order. *)
Lemma remove_char_filter (c : ascii) (s : string) :
  list_ascii_of_string (remove_char c s)
  = filter (fun a => negb (Ascii.eqb a c)) (list_ascii_of_string s).
Proof.
  induction s as [| a s IH]; simpl; trivial.
  destruct (Ascii.eqb a c); simpl; now rewrite IH.
Qed.

(** What [remove_nulls] returns has no NUL character. *)
Lemma remove_nulls_clean (x y : pyval) :
  remove_nulls x = Ok y -> has_nul y = false.
Proof.
  destruct x; simpl; intros H; inversion H; subst; simpl; trivial.
  apply remove_char_absent.
Qed.

(** C10. The sanitizer is idempotent and leaves a string without the NUL
    character as it is: for every string [s], sanitizing [remove_nulls s]
    again gives [remove_nulls s], and when [s] has no NUL, [remove_nulls s]
    is [s]. *)
Theorem remove_nulls_idempotent_and_fixes_clean :
  (forall s : string,
     res_bind (remove_nulls (PStr s)) remove_nulls = remove_nulls (PStr s))
  /\ (forall s : string,
        has_char NUL s = false -> remove_nulls (PStr s) = Ok (PStr s)).
Proof.
  split.
  - intros s. simpl. now rewrite remove_char_idem.
  - intros s H. simpl. now rewrite remove_char_fixes.
Qed.

Lemma remove_nulls_idempotent_and_fixes_clean_witness :
  res_bind (remove_nulls (PStr (with_nul "hello" " world"))) remove_nulls
  = remove_nulls (PStr (with_nul "hello" " world"))
  /\ remove_nulls (PStr "hello world") = Ok (PStr "hello world").
Proof.
  split.
  - apply (proj1 remove_nulls_idempotent_and_fixes_clean).
  - apply (proj2 remove_nulls_idempotent_and_fixes_clean). reflexivity.
Defined.

(** The two examples of the docstring. *)
Example remove_nulls_doctest :
  remove_nulls (PStr (String NUL "")) = Ok (PStr "")
  /\ remove_nulls (PStr (with_nul "hello" " world")) = Ok (PStr "hello world").
Proof. split; reflexivity. Qed.

(** The strings of the Post row are sanitized. *)
Lemma tweet_params_clean (tweet : pyval) (f : fields) (p : tweet_params) :
  tweet_params_of tweet f = Ok p ->
  forallb (fun x => negb (has_nul x))
          [t_source p; t_text p; t_country_code p; t_state_code p; t_lang p;
           t_place_name p] = true.
Proof.
  unfold tweet_params_of. intros H. res_inv H. inversion H. simpl.
  repeat match goal with
         | E : remove_nulls _ = Ok _ |- _ =>
             apply remove_nulls_clean in E; rewrite E; clear E
         end.
  reflexivity.
Qed.

(** The Post row, the tags and the media types are sanitized, for every
    record; the author row and the urls are not among them. *)
Lemma sends_sanitized (tweet : pyval) (s : stmt) :
  sends tweet s -> sanitized s.
Proof.
  intros []; simpl; trivial;
    eauto using tweet_params_clean, remove_nulls_clean.
Qed.

(** C4 on [sample_tweet_nul].  The second statement the loader sends is the
    author insert, with the [description] as the record has it: of all the
    parameters sent for the record, this one has a NUL character.  The driver
    refuses the statement, the call raises [ValueError] and is rolled back:
    nothing of the record is stored. *)
Theorem nul_reaches_storage :
  nth_error (sent (snd (insert_tweet sample_tweet_nul empty_conn))) 1
  = Some (InsertUser
            {| u_id_users := PStr "2";
               u_created_at := PNone;
               u_updated_at := PNone;
               u_screen_name := PNone;
               u_name := PNone;
               u_location := PNone;
               u_id_urls := PNone;
               u_description := PStr (with_nul "bio" "");
               u_protected := PNone;
               u_verified := PNone;
               u_friends_count := PNone;
               u_listed_count := PNone;
               u_favourites_count := PNone;
               u_statuses_count := PNone;
               u_withheld_in_countries := PNone |})
  /\ flat_map nul_params (sent (snd (insert_tweet sample_tweet_nul empty_conn)))
     = [PStr (with_nul "bio" "")]
  /\ fst (insert_tweet sample_tweet_nul empty_conn) = Raise ValueError
  /\ rows (store (snd (insert_tweet sample_tweet_nul empty_conn))) = empty_rows.
Proof. vm_compute. repeat split. Qed.

(** The same record without the [description] goes in, and its text is
    stored without the NUL character: the Post insert goes through the
    sanitizer. *)
Example nul_text_is_sanitized :
  fst (insert_tweet sample_tweet_nul_text empty_conn) = Ok Inserted
  /\ flat_map nul_params (sent (snd (insert_tweet sample_tweet_nul_text empty_conn))) = []
  /\ option_map t_text
       (lookup 13 (tweets (rows (store (snd (insert_tweet sample_tweet_nul_text
                                                          empty_conn))))))
     = Some (PStr "ab").
Proof. vm_compute. repeat split. Qed.

(** The url strings are not sanitized either: the first write sent for
    [sample_tweet_nul_url] is the url insert, with the NUL character, and the
    call ends there. *)
Example nul_url_reaches_storage :
  nth_error (sent (snd (insert_tweet sample_tweet_nul_url empty_conn))) 1
  = Some (InsertUrl (PStr (with_nul "http://x" "y")))
  /\ fst (insert_tweet sample_tweet_nul_url empty_conn) = Raise ValueError.
Proof. vm_compute. split; reflexivity. Qed.

(** ** The author row *)

(** The author insert reads the profile columns from the record itself. *)
Lemma user_params_from_record (tweet user_id_urls : pyval) (p : user_params) :
  user_params_of tweet user_id_urls = Ok p ->
  py_get tweet "screen_name" = Ok (u_screen_name p)
  /\ py_get tweet "name" = Ok (u_name p)
  /\ py_get tweet "location" = Ok (u_location p)
  /\ py_get tweet "description" = Ok (u_description p)
  /\ py_get tweet "created_at" = Ok (u_created_at p)
  /\ u_id_urls p = user_id_urls.
Proof.
  unfold user_params_of. intros H. res_inv H. inversion H. simpl.
  repeat split; assumption.
Qed.

(** C5 on [sample_tweet_profile].  The author row gets the identifier and the
    resolved profile url from the [user] sub-document; its creation time is
    the time of the post, and every other profile column is null, whatever
    the sub-document holds. *)
Theorem author_profile_not_read :
  fst (insert_tweet sample_tweet_profile empty_conn) = Ok Inserted
  /\ lookup 2 (users (rows (store (snd (insert_tweet sample_tweet_profile empty_conn)))))
     = Some {| u_id_users := PStr "2";
               u_created_at := PStr "Tue Nov 03 10:00:00 +0000 2020";
               u_updated_at := PNone;
               u_screen_name := PNone;
               u_name := PNone;
               u_location := PNone;
               u_id_urls := PInt 1;
               u_description := PNone;
               u_protected := PNone;
               u_verified := PNone;
               u_friends_count := PNone;
               u_listed_count := PNone;
               u_favourites_count := PNone;
               u_statuses_count := PNone;
               u_withheld_in_countries := PNone |}
  /\ urls (rows (store (snd (insert_tweet sample_tweet_profile empty_conn))))
     = [(1%Z, Some "http://alice.example")].
Proof. vm_compute. repeat split. Qed.

(** ** Identifiers *)

(** The identifiers of the Post row are text. *)
Lemma tweet_params_identifiers (tweet : pyval) (f : fields) (p : tweet_params) :
  tweet_params_of tweet f = Ok p ->
  raw_identifier (InsertTweet p) = false.
Proof.
  unfold tweet_params_of. intros H. res_inv H. inversion H.
  unfold raw_identifier. simpl.
  match goal with |- context [py_truthy ?x] => now destruct (py_truthy x) end.
Qed.

(** Every association insert carries the post identifier as the record has
    it: an integer when the record's [id] is one. *)
Lemma sends_links_post_as_read (tweet id : pyval) (s : stmt) :
  getitem tweet "id" = Ok id -> sends tweet s -> links_post id s.
Proof. intros Hid []; simpl; trivial; congruence. Qed.

(** C6 on [sample_tweet].  The existence check, the author insert and the
    Post insert pass their identifiers as text; the inserts into the four
    association tables and the stub of the mentioned author pass the integers
    of the record. *)
Theorem raw_identifiers_sent :
  fst (insert_tweet sample_tweet empty_conn) = Ok Inserted
  /\ filter raw_identifier (sent (snd (insert_tweet sample_tweet empty_conn)))
     = [InsertTweetUrl (PInt 10) (PInt 2);
        InsertUserStub (PInt 7);
        InsertTweetMention (PInt 10) (PInt 7);
        InsertTweetTag (PInt 10) (PStr "#foo");
        InsertTweetTag (PInt 10) (PStr "$BAR");
        InsertTweetMedia (PInt 10) (PInt 3) (PStr "photo")].
Proof. vm_compute. split; reflexivity. Qed.

(** * Further properties *)

(** ** Identifiers as text and as integers *)

Lemma lstrip_clean (space : ascii -> bool) (cs : list ascii) :
  forallb (fun c => negb (space c)) cs = true -> lstrip space cs = cs.
Proof.
  destruct cs as [| c cs]; simpl; trivial.
  intros H. apply andb_true_iff in H as [Hc _].
  now destruct (space c).
Qed.

Lemma strip_by_clean (space : ascii -> bool) (s : string) :
  forallb (fun c => negb (space c)) (list_ascii_of_string s) = true ->
  strip_by space s = s.
Proof.
  intros H. unfold strip_by. rewrite (lstrip_clean _ _ H).
  rewrite lstrip_clean.
  - now rewrite rev_involutive, string_of_list_ascii_of_string.
  - rewrite forallb_forall in *. intros c Hc. apply H. now apply in_rev.
Qed.

Lemma digit_or_minus_no_space (c : ascii) :
  digit_or_minus c = true -> negb (pg_space c) = true.
Proof.
  destruct c as [[] [] [] [] [] [] [] []]; vm_compute; intros H;
    first [reflexivity | discriminate].
Qed.

Lemma forallb_impl {A} (f g : A -> bool) (l : list A) :
  (forall a, f a = true -> g a = true) -> forallb f l = true -> forallb g l = true.
Proof.
  intros H. rewrite !forallb_forall. auto.
Qed.

Lemma parse_int_digits (s : string) :
  forallb digit_or_minus (list_ascii_of_string s) = true ->
  parse_int s = option_map Z.of_int (NilZero.int_of_string s).
Proof.
  intros H. unfold parse_int.
  rewrite strip_by_clean
    by (eapply forallb_impl; [apply digit_or_minus_no_space | exact H]).
  destruct s as [| a s]; trivial.
  simpl in H. apply andb_true_iff in H as [Ha _].
  destruct a as [[] [] [] [] [] [] [] []]; try reflexivity; discriminate.
Qed.

(** The text [str] makes of an integer reads back as that integer. *)
Lemma parse_int_str_of_Z (n : Z) : parse_int (str_of_Z n) = Some n.
Proof.
  unfold str_of_Z. rewrite parse_int_digits by apply int_text_digits.
  rewrite NilZero.isi.
  - simpl. now rewrite DecimalZ.of_to.
  - destruct n; simpl; try discriminate.
    intros [= H]. now apply DecimalPos.Unsigned.to_uint_nonnil in H.
  - destruct n; simpl; try discriminate.
    intros [= H]. now apply DecimalPos.Unsigned.to_uint_nonnil in H.
Qed.

(** Text and integer forms of an identifier address the same row: when
    the store takes an identifier as the record has it, it takes [str] of it
    under the same key.  So the rows the loader writes with [tweet['id']] and
    with [str(tweet['id'])] belong to one post, and the stub written with
    [mention['id']] is the row [str(tweet['user']['id'])] later meets. *)
Lemma identifier_text_same_key (id : pyval) (k : Z) :
  as_key id = Ok k -> as_key (PStr (py_str id)) = Ok k.
Proof.
  unfold as_key. destruct id; simpl; try discriminate; trivial.
  rewrite parse_int_str_of_Z. trivial.
Qed.

Lemma raw_key_is_text_key (id : pyval) (k n : Z) :
  as_key id = Ok k -> as_key (PStr (py_str id)) = Ok n -> k = n.
Proof.
  intros Hk Hn. unfold as_key in Hk. destruct id; simpl in *; try discriminate.
  - unfold as_key in Hn. simpl in Hn. rewrite parse_int_str_of_Z in Hn.
    destruct (in_bigint n0); congruence.
  - unfold as_key in Hn. simpl in Hn. congruence.
Qed.

(** ** The Post row of a new record *)

Lemma traced_get_id_urls_no_post (url : pyval) :
  traced no_post_insert (get_id_urls url).
Proof. unfold get_id_urls. repeat traced_step; exact I. Qed.

Lemma traced_insert_user_no_post (tweet : pyval) :
  traced no_post_insert (insert_user tweet).
Proof.
  unfold insert_user.
  repeat first [apply traced_get_id_urls_no_post | traced_step]. exact I.
Qed.

Lemma traced_insert_reply_user_no_post (tweet : pyval) :
  traced no_post_insert (insert_reply_user tweet).
Proof. unfold insert_reply_user. repeat traced_step. exact I. Qed.

Lemma exec_no_post (s : stmt) (st st' : Store) (r : option pyval) :
  exec s st = Ok (r, st') -> no_post_insert s ->
  tweets (rows st') = tweets (rows st).
Proof. intros H Hs. destruct s; exec_cases H; simpl in *; tauto. Qed.

Lemma replay_no_post (l : list stmt) (st : Store) :
  Forall no_post_insert l -> tweets (rows (replay l st)) = tweets (rows st).
Proof.
  intros H. revert st. induction H as [| s l Hs Hl IH]; intros st; simpl; trivial.
  rewrite IH. unfold replay_step.
  destruct (exec s st) as [[r st'] | e] eqn:E; trivial.
  eapply exec_no_post; eauto.
Qed.

Lemma traced_no_post {A} (m : M A) (c : Conn) :
  traced no_post_insert m ->
  tweets (rows (store (snd (m c)))) = tweets (rows (store c)).
Proof.
  intros Hm. destruct (Hm c) as (l & _ & -> & Hq & _). now apply replay_no_post.
Qed.

Lemma lookup_snoc_new {R} (k : Z) (tbl : list (Z * R)) (r : R) :
  has_key k tbl = false -> lookup k (tbl ++ [(k, r)]) = Some r.
Proof.
  unfold has_key. induction tbl as [| [k' r'] tbl IH]; simpl.
  - now rewrite Z.eqb_refl.
  - destruct (Z.eqb k' k); simpl; [discriminate | exact IH].
Qed.

(** The steps of [write_tweet], when it runs to its end. *)
Lemma write_tweet_steps (tweet : pyval) (c c' : Conn) :
  write_tweet tweet c = (Ok tt, c') ->
  exists f c1 c2 c3,
    insert_user tweet c = (Ok tt, c1)
    /\ prepare_fields tweet = Ok f
    /\ insert_reply_user tweet c1 = (Ok tt, c2)
    /\ insert_tweet_row tweet f c2 = (Ok tt, c3)
    /\ bind (insert_tweet_urls tweet) (fun _ =>
       bind (insert_tweet_mentions tweet) (fun _ =>
       bind (insert_tweet_tags tweet) (fun _ =>
       insert_tweet_media tweet))) c3 = (Ok tt, c').
Proof.
  unfold write_tweet. intros H.
  apply bind_inv_ok in H as ([] & c1 & Hu & H).
  apply bind_inv_ok in H as (f & c1' & Hf & H).
  apply lift_inv_ok in Hf as [Hf ->].
  apply bind_inv_ok in H as ([] & c2 & Hr & H).
  apply bind_inv_ok in H as ([] & c3 & Hp & H).
  exists f, c1, c2, c3. auto.
Qed.

Lemma insert_tweet_row_inv (tweet : pyval) (f : fields) (c c' : Conn) :
  insert_tweet_row tweet f c = (Ok tt, c') ->
  exists p r,
    tweet_params_of tweet f = Ok p
    /\ exec (InsertTweet p) (store c) = Ok (r, store c').
Proof.
  unfold insert_tweet_row. intros H.
  apply bind_inv_ok in H as (p & c1 & Hp & H).
  apply lift_inv_ok in Hp as [Hp ->].
  apply bind_inv_ok in H as (r & c2 & He & H).
  inversion H; subst. apply execute_inv_ok in He as [He _]. eauto.
Qed.

(** The Post row of a record that was new is the parameter record computed
    from the record. *)
Lemma inserted_post_row (tweet : pyval) (c c' : Conn) :
  insert_tweet tweet c = (Ok Inserted, c') ->
  exists n f p,
    post_key tweet = Ok n
    /\ has_key n (tweets (rows (store c))) = false
    /\ prepare_fields tweet = Ok f
    /\ tweet_params_of tweet f = Ok p
    /\ lookup n (tweets (rows (store c'))) = Some p.
Proof.
  intros H. apply with_transaction_inv_ok in H.
  destruct (insert_tweet_body_inv _ _ _ _ H) as (n & Hn & Hnew & Hw).
  pose proof (already_inserted_store tweet c) as Hst.
  destruct (write_tweet_steps _ _ _ Hw) as (f & c1 & c2 & c3 & Hu & Hf & Hr & Hp & Hrest).
  destruct (insert_tweet_row_inv _ _ _ _ Hp) as (p & r & Hparams & Hexec).
  exists n, f, p. repeat split; trivial.
  assert (tweets (rows (store c2)) = tweets (rows (store c))) as Hsame.
  { pose proof (traced_no_post _ (snd (already_inserted tweet c))
                  (traced_insert_user_no_post tweet)) as H1.
    pose proof (traced_no_post _ c1 (traced_insert_reply_user_no_post tweet)) as H2.
    rewrite Hu in H1. rewrite Hr in H2. simpl in H1, H2.
    rewrite H2, H1, Hst. reflexivity. }
  destruct (tweet_params_id _ _ _ Hparams) as (id & Hid & Hpid).
  assert (as_key (t_id_tweets p) = Ok n) as Hkey.
  { rewrite Hpid. unfold post_key, res_bind in Hn. now rewrite Hid in Hn. }
  apply exec_run in Hexec. unfold run, res_bind in Hexec. rewrite Hkey, Hsame, Hnew in Hexec.
  inversion Hexec as [[Hr' Hstore]].
  pose proof (traced_extends _ _ c3 (traced_associations tweet)) as Hext.
  rewrite Hrest in Hext. simpl in Hext.
  eapply lookup_prefix; [apply (ext_tweets _ _ Hext) |].
  rewrite <- Hstore. simpl. rewrite Hsame. now apply lookup_snoc_new.
Qed.

Lemma prepare_fields_inv (tweet : pyval) (f : fields) :
  prepare_fields tweet = Ok f ->
  geo_of tweet = Ok (f_geo f)
  /\ text_of tweet = Ok (f_text f)
  /\ country_code_of tweet = Ok (f_country_code f)
  /\ state_code_of tweet (f_country_code f) = Ok (f_state_code f)
  /\ place_name_of tweet = Ok (f_place_name f).
Proof.
  unfold prepare_fields. intros H. res_inv H. inversion H. simpl. auto.
Qed.

Lemma tweet_params_columns (tweet : pyval) (f : fields) (p : tweet_params) :
  tweet_params_of tweet f = Ok p ->
  remove_nulls (f_text f) = Ok (t_text p)
  /\ remove_nulls (f_country_code f) = Ok (t_country_code p)
  /\ remove_nulls (f_state_code f) = Ok (t_state_code p)
  /\ remove_nulls (f_place_name f) = Ok (t_place_name p)
  /\ res_bind (py_get tweet "source") remove_nulls = Ok (t_source p)
  /\ res_bind (py_get tweet "lang") remove_nulls = Ok (t_lang p)
  /\ py_get tweet "created_at" = Ok (t_created_at p)
  /\ py_get tweet "in_reply_to_status_id" = Ok (t_in_reply_to_status_id p)
  /\ py_get tweet "quoted_status_id" = Ok (t_quoted_status_id p)
  /\ py_get tweet "retweet_count" = Ok (t_retweet_count p)
  /\ py_get tweet "favorite_count" = Ok (t_favorite_count p)
  /\ py_get tweet "quote_count" = Ok (t_quote_count p)
  /\ py_get tweet "withheld_copyright" = Ok (t_withheld_copyright p)
  /\ py_get tweet "withheld_in_countries" = Ok (t_withheld_in_countries p)
  /\ res_bind (py_get tweet "in_reply_to_user_id")
       (fun r => Ok (if py_truthy r then PStr (py_str r) else PNone))
     = Ok (t_in_reply_to_user_id p).
Proof.
  unfold tweet_params_of. intros H. res_inv H. inversion H. simpl.
  unfold res_bind.
  repeat match goal with
         | E : _ = Ok _ |- _ => rewrite E; clear E
         end.
  repeat split; reflexivity.
Qed.

(** X1. The Post row of a new record is computed from the record alone.
    When [insert_tweet] stores a record, the row filed under its identifier
    holds: the text, country code and place name the fallback chains found,
    the [source] and [lang] of the record, all five through the sanitizer;
    the creation time, the reply and quote status identifiers, the three
    counts and the two withholding columns as [tweet.get] returned them; and
    as reply-target author the text of [in_reply_to_user_id] when that is
    truthy, null otherwise.  Nothing in it comes from the store. *)
Theorem post_row_from_record (tweet : pyval) (c c' : Conn) :
  insert_tweet tweet c = (Ok Inserted, c') ->
  exists n p,
    post_key tweet = Ok n
    /\ lookup n (tweets (rows (store c'))) = Some p
    /\ res_bind (text_of tweet) remove_nulls = Ok (t_text p)
    /\ res_bind (country_code_of tweet) remove_nulls = Ok (t_country_code p)
    /\ res_bind (place_name_of tweet) remove_nulls = Ok (t_place_name p)
    /\ res_bind (py_get tweet "source") remove_nulls = Ok (t_source p)
    /\ res_bind (py_get tweet "lang") remove_nulls = Ok (t_lang p)
    /\ py_get tweet "created_at" = Ok (t_created_at p)
    /\ py_get tweet "in_reply_to_status_id" = Ok (t_in_reply_to_status_id p)
    /\ py_get tweet "quoted_status_id" = Ok (t_quoted_status_id p)
    /\ py_get tweet "retweet_count" = Ok (t_retweet_count p)
    /\ py_get tweet "favorite_count" = Ok (t_favorite_count p)
    /\ py_get tweet "quote_count" = Ok (t_quote_count p)
    /\ py_get tweet "withheld_copyright" = Ok (t_withheld_copyright p)
    /\ py_get tweet "withheld_in_countries" = Ok (t_withheld_in_countries p)
    /\ res_bind (py_get tweet "in_reply_to_user_id")
         (fun r => Ok (if py_truthy r then PStr (py_str r) else PNone))
       = Ok (t_in_reply_to_user_id p).
Proof.
  intros H.
  destruct (inserted_post_row _ _ _ H) as (n & f & p & Hn & _ & Hf & Hp & Hrow).
  exists n, p. split; [exact Hn | split; [exact Hrow |]].
  destruct (prepare_fields_inv _ _ Hf) as (_ & Ht & Hc & _ & Hpl).
  destruct (tweet_params_columns _ _ _ Hp)
    as (Ht' & Hc' & _ & Hpl' & Hrest).
  rewrite Ht, Hc, Hpl. simpl. auto.
Qed.

Lemma post_row_from_record_witness :
  exists n p,
    post_key sample_tweet_located = Ok n
    /\ lookup n (tweets (rows (store (snd (insert_tweet sample_tweet_located empty_conn)))))
       = Some p
    /\ res_bind (text_of sample_tweet_located) remove_nulls = Ok (t_text p)
    /\ res_bind (country_code_of sample_tweet_located) remove_nulls = Ok (t_country_code p)
    /\ res_bind (place_name_of sample_tweet_located) remove_nulls = Ok (t_place_name p)
    /\ res_bind (py_get sample_tweet_located "source") remove_nulls = Ok (t_source p)
    /\ res_bind (py_get sample_tweet_located "lang") remove_nulls = Ok (t_lang p)
    /\ py_get sample_tweet_located "created_at" = Ok (t_created_at p)
    /\ py_get sample_tweet_located "in_reply_to_status_id" = Ok (t_in_reply_to_status_id p)
    /\ py_get sample_tweet_located "quoted_status_id" = Ok (t_quoted_status_id p)
    /\ py_get sample_tweet_located "retweet_count" = Ok (t_retweet_count p)
    /\ py_get sample_tweet_located "favorite_count" = Ok (t_favorite_count p)
    /\ py_get sample_tweet_located "quote_count" = Ok (t_quote_count p)
    /\ py_get sample_tweet_located "withheld_copyright" = Ok (t_withheld_copyright p)
    /\ py_get sample_tweet_located "withheld_in_countries"
       = Ok (t_withheld_in_countries p)
    /\ res_bind (py_get sample_tweet_located "in_reply_to_user_id")
         (fun r => Ok (if py_truthy r then PStr (py_str r) else PNone))
       = Ok (t_in_reply_to_user_id p).
Proof.
  apply (post_row_from_record sample_tweet_located empty_conn).
  vm_compute. reflexivity.
Defined.

(** ** The state code *)

Lemma length_remove_char (c : ascii) (s : string) :
  (String.length (remove_char c s) <= String.length s)%nat.
Proof.
  induction s as [| a s IH]; simpl; trivial.
  destruct (Ascii.eqb a c); simpl; lia.
Qed.

Lemma state_code_short (tweet country_code v : pyval) :
  state_code_of tweet country_code = Ok v ->
  v = PNone
  \/ exists s, v = PStr s /\ (String.length s <= 2)%nat /\ country_code = PStr "us".
Proof.
  unfold state_code_of. destruct (py_eq_str country_code "us") eqn:Hus.
  - intros H. res_inv H. destruct a0; try discriminate.
    match type of H with
    | Ok (if ?b then _ else _) = _ => destruct b eqn:Hlen
    end; inversion H; subst; auto.
    right. eexists. split; [reflexivity | split].
    + apply Nat.ltb_ge in Hlen. exact Hlen.
    + destruct country_code; try discriminate. simpl in Hus.
      apply String.eqb_eq in Hus. now subst.
  - intros H. inversion H. auto.
Qed.

(** X2. The state code column holds null or at most two characters, and
    holds a code only beside the country code ['us']: for every record that
    [insert_tweet] stores, whatever the place's full name. *)
Theorem stored_state_code_short (tweet : pyval) (c c' : Conn) :
  insert_tweet tweet c = (Ok Inserted, c') ->
  exists n p,
    post_key tweet = Ok n
    /\ lookup n (tweets (rows (store c'))) = Some p
    /\ (t_state_code p = PNone
        \/ exists s,
             t_state_code p = PStr s
             /\ (String.length s <= 2)%nat
             /\ t_country_code p = PStr "us").
Proof.
  intros H.
  destruct (inserted_post_row _ _ _ H) as (n & f & p & Hn & _ & Hf & Hp & Hrow).
  exists n, p. split; [exact Hn | split; [exact Hrow |]].
  destruct (prepare_fields_inv _ _ Hf) as (_ & _ & _ & Hs & _).
  destruct (tweet_params_columns _ _ _ Hp) as (_ & Hc' & Hs' & _).
  apply state_code_short in Hs as [Hs | (s & Hs & Hlen & Hcc)].
  - rewrite Hs in Hs'. inversion Hs'. auto.
  - rewrite Hs in Hs'. rewrite Hcc in Hc'. inversion Hs'. inversion Hc'.
    right. eexists. split; [reflexivity | split; [| reflexivity]].
    pose proof (length_remove_char NUL s). lia.
Qed.

Lemma stored_state_code_short_witness :
  exists n p,
    post_key sample_tweet_located = Ok n
    /\ lookup n (tweets (rows (store (snd (insert_tweet sample_tweet_located empty_conn)))))
       = Some p
    /\ (t_state_code p = PNone
        \/ exists s,
             t_state_code p = PStr s
             /\ (String.length s <= 2)%nat
             /\ t_country_code p = PStr "us").
Proof.
  apply (stored_state_code_short sample_tweet_located empty_conn).
  vm_compute. reflexivity.
Defined.

Lemma split_nonempty (c : ascii) (s : string) : split c s <> [].
Proof.
  destruct s as [| a s]; simpl; [discriminate |].
  destruct (Ascii.eqb a c); [discriminate |].
  destruct (split c s); discriminate.
Qed.

Lemma split_no_separator (c : ascii) (s : string) :
  has_char c s = false -> split c s = [s].
Proof.
  induction s as [| a s IH]; simpl; trivial.
  intros H. apply orb_false_iff in H as [Ha Hs].
  rewrite Ha, (IH Hs). reflexivity.
Qed.

Lemma last_cons_nonempty {A} (x : A) (l : list A) (d : A) :
  l <> [] -> last (x :: l) d = last l d.
Proof. destruct l; [congruence | reflexivity]. Qed.

(** The last segment of [a ++ sep ++ b] is the last segment of [b]. *)
Lemma split_after_separator (c : ascii) (a b : string) :
  exists h t,
    split c (a ++ String c b) = h :: t
    /\ t <> []
    /\ last t "" = last (split c b) "".
Proof.
  induction a as [| x a (h & t & Hs & Ht & Hl)]; simpl.
  - rewrite Ascii.eqb_refl. exists "", (split c b).
    split; [reflexivity | split; [apply split_nonempty | reflexivity]].
  - rewrite Hs. destruct (Ascii.eqb x c).
    + exists "", (h :: t). split; [reflexivity | split; [discriminate |]].
      now rewrite last_cons_nonempty.
    + exists (String x h), t. auto.
Qed.

Lemma last_segment (c : ascii) (a b : string) :
  has_char c b = false -> last (split c (a ++ String c b)) "" = b.
Proof.
  intros Hb. destruct (split_after_separator c a b) as (h & t & -> & Ht & Hl).
  rewrite last_cons_nonempty by exact Ht.
  rewrite Hl, (split_no_separator _ _ Hb). reflexivity.
Qed.

Lemma strip_after_blank (s : string) :
  no_space s = true -> strip (String " " s) = s.
Proof.
  intros H. unfold strip, strip_by. simpl.
  replace (is_space " ") with true by reflexivity.
  rewrite (lstrip_clean is_space (list_ascii_of_string s)) by exact H.
  rewrite lstrip_clean.
  - now rewrite rev_involutive, string_of_list_ascii_of_string.
  - unfold no_space in H. rewrite forallb_forall in *.
    intros a Ha. apply H. now apply in_rev.
Qed.

(** X3. The state code of a place named "City, ST".  For a record whose
    place has a country code that lower-cases to ['us'] and a full name made
    of anything, a comma, a blank and a last part [st] without comma or white
    space, the state code the loader derives is [st] lower-cased when the
    lower-cased text has at most two characters, and null when it is
    longer. *)
Theorem state_code_of_city_state (tweet place : pyval) (cc city st : string) :
  getitem tweet "place" = Ok place ->
  getitem place "country_code" = Ok (PStr cc) ->
  lower cc = "us" ->
  getitem place "full_name" = Ok (PStr (city ++ ", " ++ st)) ->
  has_char "," st = false ->
  no_space st = true ->
  res_bind (country_code_of tweet) (state_code_of tweet)
  = Ok (if (2 <? String.length (lower st))%nat then PNone else PStr (lower st)).
Proof.
  intros Hplace Hcc Hus Hname Hcomma Hspace.
  unfold country_code_of, state_code_of, try_except, res_bind.
  rewrite Hplace, Hcc. simpl. rewrite Hus. simpl.
  rewrite Hname.
  simpl append. rewrite last_segment by (simpl; exact Hcomma).
  rewrite strip_after_blank by exact Hspace.
  reflexivity.
Qed.

Lemma state_code_of_city_state_witness :
  res_bind (country_code_of sample_tweet_located) (state_code_of sample_tweet_located)
  = Ok (if (2 <? String.length (lower "MA"))%nat then PNone else PStr (lower "MA")).
Proof.
  apply (state_code_of_city_state sample_tweet_located
           (PDict [("country_code", PStr "US"); ("full_name", PStr "Boston, MA");
                   ("bounding_box",
                     PDict [("coordinates",
                              PList [PList [PList [PFloat "-71.19"; PFloat "42.23"];
                                            PList [PFloat "-70.99"; PFloat "42.23"];
                                            PList [PFloat "-70.99"; PFloat "42.4"];
                                            PList [PFloat "-71.19"; PFloat "42.4"]]])])])
           "US" "Boston" "MA"); reflexivity.
Defined.

(** ** What a stored record leaves in the association tables *)

Lemma existsb_prefix {A} (f : A -> bool) (l l' : list A) :
  prefix_of l l' -> existsb f l = true -> existsb f l' = true.
Proof. intros [ext ->] H. rewrite existsb_app, H. reflexivity. Qed.

Lemma in_prefix {A} (x : A) (l l' : list A) :
  prefix_of l l' -> In x l -> In x l'.
Proof. intros [ext ->] H. apply in_or_app. now left. Qed.

Lemma existsb_snoc {A} (f : A -> bool) (l : list A) (x : A) :
  f x = true -> existsb f (l ++ [x]) = true.
Proof. intros H. rewrite existsb_app. simpl. rewrite H. apply orb_true_iff. auto. Qed.

Lemma exec_stub_effect (id : pyval) (st st' : Store) (r : option pyval) :
  exec (InsertUserStub id) st = Ok (r, st') ->
  exists k, as_key id = Ok k /\ has_key k (users (rows st')) = true.
Proof.
  intros H. apply exec_run in H. unfold run, res_bind in H.
  destruct (as_key id) as [k | e]; [| discriminate]. exists k. split; trivial.
  destruct (has_key k (users (rows st))) eqn:Hk; inversion H; subst; trivial.
  simpl. apply existsb_snoc. simpl. apply Z.eqb_refl.
Qed.

Lemma exec_user_effect (p : user_params) (st st' : Store) (r : option pyval) :
  exec (InsertUser p) st = Ok (r, st') ->
  exists k,
    as_key (u_id_users p) = Ok k
    /\ has_key k (users (rows st')) = true
    /\ (has_key k (users (rows st)) = false -> lookup k (users (rows st')) = Some p).
Proof.
  intros H. apply exec_run in H. unfold run, res_bind in H.
  destruct (as_key (u_id_users p)) as [k | e]; [| discriminate]. exists k.
  split; trivial.
  destruct (has_key k (users (rows st))) eqn:Hk; inversion H; subst.
  - split; [trivial | discriminate].
  - simpl. split; [| intros _; now apply lookup_snoc_new].
    apply existsb_snoc. simpl. apply Z.eqb_refl.
Qed.

Lemma exec_mention_effect (id mid : pyval) (st st' : Store) (r : option pyval) :
  exec (InsertTweetMention id mid) st = Ok (r, st') ->
  exists t k,
    as_key id = Ok t /\ as_key mid = Ok k
    /\ has_pair t k (tweet_mentions (rows st')) = true.
Proof.
  intros H. apply exec_run in H. unfold run, res_bind in H.
  destruct (as_key id) as [t | e]; [| discriminate].
  destruct (as_key mid) as [k | e]; [| discriminate].
  exists t, k. repeat split.
  destruct (has_pair t k (tweet_mentions (rows st))) eqn:Hp; inversion H; subst; trivial.
  simpl. apply existsb_snoc. simpl. now rewrite !Z.eqb_refl.
Qed.

Lemma exec_tweet_url_effect (id uid : pyval) (st st' : Store) (r : option pyval) :
  exec (InsertTweetUrl id uid) st = Ok (r, st') ->
  exists t k,
    as_key id = Ok t /\ as_key uid = Ok k
    /\ has_pair t k (tweet_urls (rows st')) = true
    /\ urls (rows st') = urls (rows st).
Proof.
  intros H. apply exec_run in H. unfold run, res_bind in H.
  destruct (as_key id) as [t | e]; [| discriminate].
  destruct (as_key uid) as [k | e]; [| discriminate].
  exists t, k.
  destruct (has_pair t k (tweet_urls (rows st))) eqn:Hp; inversion H; subst;
    repeat split; trivial.
  simpl. apply existsb_snoc. simpl. now rewrite !Z.eqb_refl.
Qed.

Lemma exec_tag_effect (id tag : pyval) (st st' : Store) (r : option pyval) :
  exec (InsertTweetTag id tag) st = Ok (r, st') ->
  exists t g,
    as_key id = Ok t /\ tag = PStr g
    /\ has_tag t g (tweet_tags (rows st')) = true.
Proof.
  intros H. apply exec_run in H. unfold run, res_bind in H.
  destruct (as_key id) as [t | e]; [| discriminate].
  destruct tag; simpl in H; try discriminate.
  destruct (has_char NUL s); [discriminate |].
  exists t, s. repeat split.
  destruct (has_tag t s (tweet_tags (rows st))) eqn:Hp; inversion H; subst; trivial.
  simpl. apply existsb_snoc. simpl. now rewrite Z.eqb_refl, String.eqb_refl.
Qed.

Lemma exec_media_effect (id uid ty : pyval) (st st' : Store) (r : option pyval) :
  exec (InsertTweetMedia id uid ty) st = Ok (r, st') ->
  exists t k,
    as_key id = Ok t /\ as_key uid = Ok k
    /\ has_media t k (tweet_media (rows st')) = true
    /\ urls (rows st') = urls (rows st).
Proof.
  intros H. apply exec_run in H. unfold run, res_bind in H.
  destruct (as_key id) as [t | e]; [| discriminate].
  destruct (as_key uid) as [k | e]; [| discriminate].
  exists t, k.
  destruct (has_media t k (tweet_media (rows st))) eqn:Hp; inversion H; subst;
    repeat split; trivial.
  simpl. apply existsb_snoc. simpl. now rewrite !Z.eqb_refl.
Qed.

(** A resolution that returns names a row of the Url table with that url. *)
Lemma get_id_urls_inv (url v : pyval) (c c' : Conn) :
  get_id_urls url c = (Ok v, c') ->
  exists i u,
    v = PInt i /\ as_text url = Ok u /\ In (i, u) (urls (rows (store c'))).
Proof.
  unfold get_id_urls. intros H.
  apply bind_inv_ok in H as (r1 & c1 & H1 & H).
  apply execute_inv_ok in H1 as [H1 _].
  apply exec_run in H1. unfold run, res_bind in H1.
  destruct (as_text url) as [u | e] eqn:Hu; [| discriminate].
  destruct (url_conflict (urls_seq (store c) + 1) u (urls (rows (store c)))) eqn:Hc;
    injection H1 as Hr1 Hst1; subst r1.
  - apply bind_inv_ok in H as (r2 & c2 & H2 & H).
    apply execute_inv_ok in H2 as [H2 _].
    apply exec_run in H2. unfold run, res_bind in H2. rewrite Hu in H2.
    destruct u as [s |].
    + destruct (find (url_is s) (urls (rows (store c1)))) as [[i u'] |] eqn:Hf;
        injection H2 as Hr2 Hst2; subst r2; [| discriminate].
      injection H as Hv Hc'. subst v c'.
      destruct (find_url_is _ _ _ _ Hf) as [-> Hin].
      exists i, (Some s). rewrite <- Hst2. auto.
    + injection H2 as Hr2 Hst2. subst r2. discriminate.
  - apply bind_inv_ok in H as (r2 & c2 & H2 & H).
    injection H2 as Hr2 Hc2. subst r2 c2. injection H as Hv Hc'. subst v c'.
    exists (urls_seq (store c) + 1)%Z, u. repeat split; trivial.
    rewrite <- Hst1. simpl. apply in_or_app. right. now left.
Qed.

Section Loops.
Variable P : pyval -> Rows -> Prop.
Variable body : pyval -> M unit.
Hypothesis P_grows : forall x r r', extends r r' -> P x r -> P x r'.
Hypothesis body_grows :
  forall x c, extends (rows (store c)) (rows (store (snd (body x c)))).
Hypothesis body_does :
  forall x c1 c2, body x c1 = (Ok tt, c2) -> P x (rows (store c2)).

Lemma for_each_grows (xs : list pyval) (c : Conn) :
  extends (rows (store c)) (rows (store (snd (for_each xs body c)))).
Proof.
  revert c. induction xs as [| x xs IH]; intros c; simpl.
  - apply extends_refl.
  - unfold bind. pose proof (body_grows x c) as Hb.
    destruct (body x c) as [[[] | e] c1]; simpl in *; trivial.
    eapply extends_trans; [exact Hb | apply IH].
Qed.

(** When the loop runs to its end, every turn has left its mark. *)
Lemma for_each_all (xs : list pyval) (c c' : Conn) :
  for_each xs body c = (Ok tt, c') ->
  forall x, In x xs -> P x (rows (store c')).
Proof.
  revert c. induction xs as [| a xs IH]; intros c H x Hx; [destruct Hx |].
  simpl in H. apply bind_inv_ok in H as ([] & c1 & Ha & H).
  destruct Hx as [<- | Hx].
  - apply (P_grows a (rows (store c1))); [| now apply (body_does a c)].
    pose proof (for_each_grows xs c1) as Hg. now rewrite H in Hg.
  - eapply IH; eauto.
Qed.
End Loops.

Ltac grows_by_trace :=
  intros; apply (traced_extends (fun _ => True));
  repeat first [apply traced_get_id_urls_any | traced_step]; exact I.

(** *** Tags *)

Lemma tag_texts_inv (prefix : string) (items tags : list pyval) :
  tag_texts prefix items = Ok tags ->
  Forall2 (fun h tag => exists t, getitem h "text" = Ok (PStr t) /\ tag = PStr (prefix ++ t)%string)
          items tags.
Proof.
  revert tags. induction items as [| h items IH]; intros tags H; simpl in H.
  - inversion H. constructor.
  - res_inv H. inversion H; subst. constructor; [| now apply IH].
    unfold py_prepend in E0. destruct a; try discriminate.
    inversion E0. eauto.
Qed.

Lemma insert_tweet_tags_inv (tweet : pyval) (c c' : Conn) :
  insert_tweet_tags tweet c = (Ok tt, c') ->
  exists hashtags cashtags tags,
    hashtags_cashtags_of tweet = Ok (hashtags, cashtags)
    /\ tags_of hashtags cashtags = Ok tags
    /\ forall tag, In tag tags ->
         exists id t g,
           getitem tweet "id" = Ok id /\ as_key id = Ok t
           /\ remove_nulls tag = Ok (PStr g)
           /\ has_tag t g (tweet_tags (rows (store c'))) = true.
Proof.
  unfold insert_tweet_tags. intros H.
  apply bind_inv_ok in H as ([hashtags cashtags] & c1 & Hl & H).
  apply lift_inv_ok in Hl as [Hl ->].
  apply bind_inv_ok in H as (tags & c1 & Ht & H).
  apply lift_inv_ok in Ht as [Ht ->]. simpl in Ht.
  exists hashtags, cashtags, tags. split; [exact Hl | split; [exact Ht |]].
  refine (for_each_all
            (fun tag r => exists id t g,
               getitem tweet "id" = Ok id /\ as_key id = Ok t
               /\ remove_nulls tag = Ok (PStr g)
               /\ has_tag t g (tweet_tags r) = true)
            _ _ _ _ tags c c' H).
  - intros x r r' Hext (id & t & g & ? & ? & ? & Hg).
    exists id, t, g. repeat split; trivial.
    eapply existsb_prefix; [apply (ext_tweet_tags _ _ Hext) | exact Hg].
  - grows_by_trace.
  - intros tag c1 c2 Hb.
    apply bind_inv_ok in Hb as (id & c3 & Hid & Hb).
    apply lift_inv_ok in Hid as [Hid ->].
    apply bind_inv_ok in Hb as (tag' & c3 & Htag & Hb).
    apply lift_inv_ok in Htag as [Htag ->].
    apply bind_inv_ok in Hb as (r & c3 & He & Hb).
    inversion Hb; subst. apply execute_inv_ok in He as [He _].
    apply exec_tag_effect in He as (t & g & Hk & -> & Hg).
    exists id, t, g. auto.
Qed.

(** *** Mentions *)

Lemma insert_tweet_mentions_inv (tweet : pyval) (c c' : Conn) :
  insert_tweet_mentions tweet c = (Ok tt, c') ->
  exists mentions ms,
    mentions_of tweet = Ok mentions
    /\ py_iter mentions = Ok ms
    /\ forall mention, In mention ms ->
         exists mid id t k,
           getitem mention "id" = Ok mid /\ getitem tweet "id" = Ok id
           /\ as_key id = Ok t /\ as_key mid = Ok k
           /\ has_key k (users (rows (store c'))) = true
           /\ has_pair t k (tweet_mentions (rows (store c'))) = true.
Proof.
  unfold insert_tweet_mentions. intros H.
  apply bind_inv_ok in H as (mentions & c1 & Hl & H).
  apply lift_inv_ok in Hl as [Hl ->].
  apply bind_inv_ok in H as (ms & c1 & Hi & H).
  apply lift_inv_ok in Hi as [Hi ->].
  exists mentions, ms. split; [exact Hl | split; [exact Hi |]].
  refine (for_each_all
            (fun mention r => exists mid id t k,
               getitem mention "id" = Ok mid /\ getitem tweet "id" = Ok id
               /\ as_key id = Ok t /\ as_key mid = Ok k
               /\ has_key k (users r) = true
               /\ has_pair t k (tweet_mentions r) = true)
            _ _ _ _ ms c c' H).
  - intros x r r' Hext (mid & id & t & k & ? & ? & ? & ? & Hu & Hm).
    exists mid, id, t, k. repeat split; trivial.
    + eapply has_key_prefix; [apply (ext_users _ _ Hext) | exact Hu].
    + eapply existsb_prefix; [apply (ext_tweet_mentions _ _ Hext) | exact Hm].
  - grows_by_trace.
  - intros mention c1 c2 Hb.
    apply bind_inv_ok in Hb as (mid & c3 & Hmid & Hb).
    apply lift_inv_ok in Hmid as [Hmid ->].
    apply bind_inv_ok in Hb as (r1 & c3 & He1 & Hb).
    apply bind_inv_ok in Hb as (id & c4 & Hid & Hb).
    apply lift_inv_ok in Hid as [Hid ->].
    apply bind_inv_ok in Hb as (mid' & c4 & Hmid' & Hb).
    apply lift_inv_ok in Hmid' as [Hmid' ->].
    apply bind_inv_ok in Hb as (r2 & c4 & He2 & Hb).
    inversion Hb; subst.
    assert (mid' = mid) as -> by congruence.
    pose proof (execute_extends (InsertTweetMention id mid) c3) as Hext.
    rewrite He2 in Hext. simpl in Hext.
    apply execute_inv_ok in He1 as [He1 _]. apply execute_inv_ok in He2 as [He2 _].
    apply exec_stub_effect in He1 as (k & Hk & Hu).
    apply exec_mention_effect in He2 as (t & k' & Ht & Hk' & Hm).
    assert (k' = k) as -> by congruence.
    exists mid, id, t, k. repeat split; trivial.
    eapply has_key_prefix; [apply (ext_users _ _ Hext) | exact Hu].
Qed.

(** *** Urls *)

Lemma insert_tweet_urls_inv (tweet : pyval) (c c' : Conn) :
  insert_tweet_urls tweet c = (Ok tt, c') ->
  exists urls_list us,
    urls_of tweet = Ok urls_list
    /\ py_iter urls_list = Ok us
    /\ forall u, In u us ->
         exists url text id t i,
           getitem u "expanded_url" = Ok url /\ as_text url = Ok text
           /\ getitem tweet "id" = Ok id /\ as_key id = Ok t
           /\ In (i, text) (urls (rows (store c')))
           /\ has_pair t i (tweet_urls (rows (store c'))) = true.
Proof.
  unfold insert_tweet_urls. intros H.
  apply bind_inv_ok in H as (urls_list & c1 & Hl & H).
  apply lift_inv_ok in Hl as [Hl ->].
  apply bind_inv_ok in H as (us & c1 & Hi & H).
  apply lift_inv_ok in Hi as [Hi ->].
  exists urls_list, us. split; [exact Hl | split; [exact Hi |]].
  refine (for_each_all
            (fun u r => exists url text id t i,
               getitem u "expanded_url" = Ok url /\ as_text url = Ok text
               /\ getitem tweet "id" = Ok id /\ as_key id = Ok t
               /\ In (i, text) (urls r)
               /\ has_pair t i (tweet_urls r) = true)
            _ _ _ _ us c c' H).
  - intros x r r' Hext (url & text & id & t & i & ? & ? & ? & ? & Hu & Hp).
    exists url, text, id, t, i. repeat split; trivial.
    + eapply in_prefix; [apply (ext_urls _ _ Hext) | exact Hu].
    + eapply existsb_prefix; [apply (ext_tweet_urls _ _ Hext) | exact Hp].
  - grows_by_trace.
  - intros u c1 c2 Hb.
    apply bind_inv_ok in Hb as (url & c3 & Hurl & Hb).
    apply lift_inv_ok in Hurl as [Hurl ->].
    apply bind_inv_ok in Hb as (v & c3 & Hres & Hb).
    apply bind_inv_ok in Hb as (id & c4 & Hid & Hb).
    apply lift_inv_ok in Hid as [Hid ->].
    apply bind_inv_ok in Hb as (r & c4 & He & Hb).
    inversion Hb; subst. apply execute_inv_ok in He as [He _].
    apply get_id_urls_inv in Hres as (i & text & -> & Htext & Hin).
    apply exec_tweet_url_effect in He as (t & k & Ht & Hk & Hp & Hsame).
    unfold as_key in Hk. simpl in Hk.
    destruct (in_bigint i); inversion Hk; subst k.
    exists url, text, id, t, i. repeat split; trivial. now rewrite Hsame.
Qed.

(** *** Media *)

Lemma insert_tweet_media_inv (tweet : pyval) (c c' : Conn) :
  insert_tweet_media tweet c = (Ok tt, c') ->
  exists media ms,
    media_of tweet = Ok media
    /\ py_iter media = Ok ms
    /\ forall m, In m ms ->
         exists url text id t i,
           getitem m "media_url" = Ok url /\ as_text url = Ok text
           /\ getitem tweet "id" = Ok id /\ as_key id = Ok t
           /\ In (i, text) (urls (rows (store c')))
           /\ has_media t i (tweet_media (rows (store c'))) = true.
Proof.
  unfold insert_tweet_media. intros H.
  apply bind_inv_ok in H as (media & c1 & Hl & H).
  apply lift_inv_ok in Hl as [Hl ->].
  apply bind_inv_ok in H as (ms & c1 & Hi & H).
  apply lift_inv_ok in Hi as [Hi ->].
  exists media, ms. split; [exact Hl | split; [exact Hi |]].
  refine (for_each_all
            (fun m r => exists url text id t i,
               getitem m "media_url" = Ok url /\ as_text url = Ok text
               /\ getitem tweet "id" = Ok id /\ as_key id = Ok t
               /\ In (i, text) (urls r)
               /\ has_media t i (tweet_media r) = true)
            _ _ _ _ ms c c' H).
  - intros x r r' Hext (url & text & id & t & i & ? & ? & ? & ? & Hu & Hp).
    exists url, text, id, t, i. repeat split; trivial.
    + eapply in_prefix; [apply (ext_urls _ _ Hext) | exact Hu].
    + eapply existsb_prefix; [apply (ext_tweet_media _ _ Hext) | exact Hp].
  - grows_by_trace.
  - intros m c1 c2 Hb.
    apply bind_inv_ok in Hb as (url & c3 & Hurl & Hb).
    apply lift_inv_ok in Hurl as [Hurl ->].
    apply bind_inv_ok in Hb as (v & c3 & Hres & Hb).
    apply bind_inv_ok in Hb as (id & c4 & Hid & Hb).
    apply lift_inv_ok in Hid as [Hid ->].
    apply bind_inv_ok in Hb as (ty & c4 & Hty & Hb).
    apply lift_inv_ok in Hty as [Hty ->].
    apply bind_inv_ok in Hb as (ty' & c4 & Hty' & Hb).
    apply lift_inv_ok in Hty' as [Hty' ->].
    apply bind_inv_ok in Hb as (r & c4 & He & Hb).
    inversion Hb; subst. apply execute_inv_ok in He as [He _].
    apply get_id_urls_inv in Hres as (i & text & -> & Htext & Hin).
    apply exec_media_effect in He as (t & k & Ht & Hk & Hp & Hsame).
    unfold as_key in Hk. simpl in Hk.
    destruct (in_bigint i); inversion Hk; subst k.
    exists url, text, id, t, i. repeat split; trivial. now rewrite Hsame.
Qed.

(** *** From a stored record to its loops *)

Lemma step_grows {A} (m : M A) (c c' : Conn) (a : A) :
  traced (fun _ => True) m -> m c = (Ok a, c') ->
  extends (rows (store c)) (rows (store c')).
Proof.
  intros Hm H. pose proof (traced_extends _ _ c Hm) as Hext. now rewrite H in Hext.
Qed.

Lemma inserted_steps (tweet : pyval) (c c' : Conn) :
  insert_tweet tweet c = (Ok Inserted, c') ->
  exists n c0 c1 c2 c4 c5 c6,
    post_key tweet = Ok n
    /\ store c0 = store c
    /\ insert_user tweet c0 = (Ok tt, c1)
    /\ insert_reply_user tweet c1 = (Ok tt, c2)
    /\ insert_tweet_urls tweet c4 = (Ok tt, c5)
    /\ insert_tweet_mentions tweet c5 = (Ok tt, c6)
    /\ (exists c7, insert_tweet_tags tweet c6 = (Ok tt, c7)
                   /\ extends (rows (store c7)) (rows (store c'))
                   /\ exists c8, insert_tweet_media tweet c7 = (Ok tt, c8) /\ c8 = c')
    /\ extends (rows (store c1)) (rows (store c'))
    /\ extends (rows (store c2)) (rows (store c'))
    /\ extends (rows (store c5)) (rows (store c'))
    /\ extends (rows (store c6)) (rows (store c')).
Proof.
  intros H. apply with_transaction_inv_ok in H.
  destruct (insert_tweet_body_inv _ _ _ _ H) as (n & Hn & _ & Hw).
  destruct (write_tweet_steps _ _ _ Hw) as (f & c1 & c2 & c3 & Hu & _ & Hr & Hp & Hrest).
  apply bind_inv_ok in Hrest as ([] & c5 & H5 & Hrest).
  apply bind_inv_ok in Hrest as ([] & c6 & H6 & Hrest).
  apply bind_inv_ok in Hrest as ([] & c7 & H7 & H8).
  pose proof (step_grows _ _ _ _ (traced_any _ _ (traced_insert_reply_user tweet)) Hr) as E12.
  pose proof (step_grows _ _ _ _ (traced_any _ _ (traced_insert_tweet_row tweet f)) Hp) as E23.
  pose proof (step_grows _ _ _ _ (traced_any _ _ (traced_insert_tweet_urls tweet)) H5) as E35.
  pose proof (step_grows _ _ _ _ (traced_any _ _ (traced_insert_tweet_mentions tweet)) H6) as E56.
  pose proof (step_grows _ _ _ _ (traced_any _ _ (traced_insert_tweet_tags tweet)) H7) as E67.
  pose proof (step_grows _ _ _ _ (traced_any _ _ (traced_insert_tweet_media tweet)) H8) as E78.
  pose proof (extends_trans _ _ _ E67 E78) as E6.
  pose proof (extends_trans _ _ _ E56 E6) as E5.
  pose proof (extends_trans _ _ _ E35 E5) as E3.
  pose proof (extends_trans _ _ _ E23 E3) as E2.
  pose proof (extends_trans _ _ _ E12 E2) as E1.
  exists n, (snd (already_inserted tweet c)), c1, c2, c3, c5, c6.
  split; [exact Hn |]. split; [apply already_inserted_store |].
  repeat (split; [assumption |]).
  split; [exists c7; split; [assumption | split; [assumption | exists c'; auto]] |].
  auto.
Qed.

Lemma post_key_of_raw (tweet id : pyval) (n t : Z) :
  post_key tweet = Ok n -> getitem tweet "id" = Ok id -> as_key id = Ok t -> t = n.
Proof.
  unfold post_key, res_bind. intros Hn Hid Ht. rewrite Hid in Hn.
  eapply raw_key_is_text_key; eauto.
Qed.

Lemma Forall2_in_left {A B} (P : A -> B -> Prop) (l : list A) (l' : list B) (x : A) :
  Forall2 P l l' -> In x l -> exists y, In y l' /\ P x y.
Proof.
  induction 1 as [| a b l l' Hab H IH]; intros Hx; [destruct Hx |].
  destruct Hx as [<- | Hx].
  - exists b. split; [now left | exact Hab].
  - destruct (IH Hx) as (y & Hy & Hp). exists y. split; [now right | exact Hp].
Qed.

(** X4. Every hashtag and cashtag of a stored record has its row.  When
    [insert_tweet] stores a record, then for each entry of its hashtag list
    the tag table holds, under the record's identifier, the entry's text
    behind a ['#'], and for each entry of its cashtag list the text behind a
    ['$'], both with the NUL characters removed. *)
Theorem tags_written (tweet : pyval) (c c' : Conn) :
  insert_tweet tweet c = (Ok Inserted, c') ->
  exists n hashtags cashtags hs cs,
    post_key tweet = Ok n
    /\ hashtags_cashtags_of tweet = Ok (hashtags, cashtags)
    /\ py_iter hashtags = Ok hs
    /\ py_iter cashtags = Ok cs
    /\ (forall h, In h hs ->
          exists t, getitem h "text" = Ok (PStr t)
            /\ has_tag n (remove_char NUL ("#" ++ t)%string)
                       (tweet_tags (rows (store c'))) = true)
    /\ (forall h, In h cs ->
          exists t, getitem h "text" = Ok (PStr t)
            /\ has_tag n (remove_char NUL ("$" ++ t)%string)
                       (tweet_tags (rows (store c'))) = true).
Proof.
  intros H.
  destruct (inserted_steps _ _ _ H)
    as (n & c0 & c1 & c2 & c4 & c5 & c6 & Hn & _ & _ & _ & _ & _
        & (c7 & H7 & E7 & _) & _).
  destruct (insert_tweet_tags_inv _ _ _ H7) as (hashtags & cashtags & tags & Hl & Ht & Hall).
  unfold tags_of in Ht. res_inv Ht. injection Ht as <-.
  exists n, hashtags, cashtags, a, a1. repeat (split; [assumption |]).
  assert (forall prefix items texts h,
            tag_texts prefix items = Ok texts ->
            (forall tag, In tag texts -> In tag (a0 ++ a2)) ->
            In h items ->
            exists t, getitem h "text" = Ok (PStr t)
              /\ has_tag n (remove_char NUL (prefix ++ t)%string)
                         (tweet_tags (rows (store c'))) = true) as Hgen.
  { intros prefix items texts h Htexts Hsub Hh.
    destruct (Forall2_in_left _ _ _ _ (tag_texts_inv _ _ _ Htexts) Hh)
      as (tag & Htag & t & Htext & ->).
    exists t. split; [exact Htext |].
    destruct (Hall _ (Hsub _ Htag)) as (id & k & g & Hid & Hk & Hg & Hrow).
    simpl in Hg. injection Hg as <-.
    rewrite (post_key_of_raw _ _ _ _ Hn Hid Hk) in Hrow.
    eapply existsb_prefix; [apply (ext_tweet_tags _ _ E7) | exact Hrow]. }
  split; intros h Hh.
  - eapply Hgen; eauto. intros tag Htag. apply in_or_app. now left.
  - eapply Hgen; eauto. intros tag Htag. apply in_or_app. now right.
Qed.

Lemma tags_written_witness :
  exists n hashtags cashtags hs cs,
    post_key sample_tweet = Ok n
    /\ hashtags_cashtags_of sample_tweet = Ok (hashtags, cashtags)
    /\ py_iter hashtags = Ok hs
    /\ py_iter cashtags = Ok cs
    /\ (forall h, In h hs ->
          exists t, getitem h "text" = Ok (PStr t)
            /\ has_tag n (remove_char NUL ("#" ++ t)%string)
                       (tweet_tags (rows (store conn_after_sample))) = true)
    /\ (forall h, In h cs ->
          exists t, getitem h "text" = Ok (PStr t)
            /\ has_tag n (remove_char NUL ("$" ++ t)%string)
                       (tweet_tags (rows (store conn_after_sample))) = true).
Proof.
  apply (tags_written sample_tweet empty_conn). vm_compute. reflexivity.
Defined.

(** X5. Every mention of a stored record has its row, and its author.  When
    [insert_tweet] stores a record, then for each entry of its mention list
    the Author table has a row for the mentioned identifier and the mention
    table links the record's identifier to it. *)
Theorem mentions_written (tweet : pyval) (c c' : Conn) :
  insert_tweet tweet c = (Ok Inserted, c') ->
  exists n mentions ms,
    post_key tweet = Ok n
    /\ mentions_of tweet = Ok mentions
    /\ py_iter mentions = Ok ms
    /\ forall mention, In mention ms ->
         exists mid k,
           getitem mention "id" = Ok mid /\ as_key mid = Ok k
           /\ has_key k (users (rows (store c'))) = true
           /\ has_pair n k (tweet_mentions (rows (store c'))) = true.
Proof.
  intros H.
  destruct (inserted_steps _ _ _ H)
    as (n & c0 & c1 & c2 & c4 & c5 & c6 & Hn & _ & _ & _ & _ & H6 & _ & _ & _ & _ & E6).
  destruct (insert_tweet_mentions_inv _ _ _ H6) as (mentions & ms & Hl & Hi & Hall).
  exists n, mentions, ms. repeat (split; [assumption |]).
  intros mention Hm.
  destruct (Hall _ Hm) as (mid & id & t & k & Hmid & Hid & Ht & Hk & Hu & Hp).
  rewrite (post_key_of_raw _ _ _ _ Hn Hid Ht) in Hp.
  exists mid, k. repeat split; trivial.
  - eapply has_key_prefix; [apply (ext_users _ _ E6) | exact Hu].
  - eapply existsb_prefix; [apply (ext_tweet_mentions _ _ E6) | exact Hp].
Qed.

Lemma mentions_written_witness :
  exists n mentions ms,
    post_key sample_tweet = Ok n
    /\ mentions_of sample_tweet = Ok mentions
    /\ py_iter mentions = Ok ms
    /\ forall mention, In mention ms ->
         exists mid k,
           getitem mention "id" = Ok mid /\ as_key mid = Ok k
           /\ has_key k (users (rows (store conn_after_sample))) = true
           /\ has_pair n k (tweet_mentions (rows (store conn_after_sample))) = true.
Proof.
  apply (mentions_written sample_tweet empty_conn). vm_compute. reflexivity.
Defined.

(** X6. Every url of a stored record has its row in the Url table and its
    link.  When [insert_tweet] stores a record, then for each entry of its
    url list the Url table has a row holding the entry's [expanded_url], and
    the post-url table links the record's identifier to that row. *)
Theorem urls_written (tweet : pyval) (c c' : Conn) :
  insert_tweet tweet c = (Ok Inserted, c') ->
  exists n urls_list us,
    post_key tweet = Ok n
    /\ urls_of tweet = Ok urls_list
    /\ py_iter urls_list = Ok us
    /\ forall u, In u us ->
         exists url text i,
           getitem u "expanded_url" = Ok url /\ as_text url = Ok text
           /\ In (i, text) (urls (rows (store c')))
           /\ has_pair n i (tweet_urls (rows (store c'))) = true.
Proof.
  intros H.
  destruct (inserted_steps _ _ _ H)
    as (n & c0 & c1 & c2 & c4 & c5 & c6 & Hn & _ & _ & _ & H5 & _ & _ & _ & _ & E5 & _).
  destruct (insert_tweet_urls_inv _ _ _ H5) as (urls_list & us & Hl & Hi & Hall).
  exists n, urls_list, us. repeat (split; [assumption |]).
  intros u Hu.
  destruct (Hall _ Hu) as (url & text & id & t & i & Hurl & Htext & Hid & Ht & Hin & Hp).
  rewrite (post_key_of_raw _ _ _ _ Hn Hid Ht) in Hp.
  exists url, text, i. repeat split; trivial.
  - eapply in_prefix; [apply (ext_urls _ _ E5) | exact Hin].
  - eapply existsb_prefix; [apply (ext_tweet_urls _ _ E5) | exact Hp].
Qed.

Lemma urls_written_witness :
  exists n urls_list us,
    post_key sample_tweet = Ok n
    /\ urls_of sample_tweet = Ok urls_list
    /\ py_iter urls_list = Ok us
    /\ forall u, In u us ->
         exists url text i,
           getitem u "expanded_url" = Ok url /\ as_text url = Ok text
           /\ In (i, text) (urls (rows (store conn_after_sample)))
           /\ has_pair n i (tweet_urls (rows (store conn_after_sample))) = true.
Proof.
  apply (urls_written sample_tweet empty_conn). vm_compute. reflexivity.
Defined.

(** X7. Every media entry of a stored record has its row in the Url table
    and its link.  When [insert_tweet] stores a record, then for each entry
    of its media list the Url table has a row holding the entry's
    [media_url], and the media table links the record's identifier to that
    row. *)
Theorem media_written (tweet : pyval) (c c' : Conn) :
  insert_tweet tweet c = (Ok Inserted, c') ->
  exists n media ms,
    post_key tweet = Ok n
    /\ media_of tweet = Ok media
    /\ py_iter media = Ok ms
    /\ forall m, In m ms ->
         exists url text i,
           getitem m "media_url" = Ok url /\ as_text url = Ok text
           /\ In (i, text) (urls (rows (store c')))
           /\ has_media n i (tweet_media (rows (store c'))) = true.
Proof.
  intros H.
  destruct (inserted_steps _ _ _ H)
    as (n & c0 & c1 & c2 & c4 & c5 & c6 & Hn & _ & _ & _ & _ & _
        & (c7 & _ & _ & c8 & H8 & ->) & _).
  destruct (insert_tweet_media_inv _ _ _ H8) as (media & ms & Hl & Hi & Hall).
  exists n, media, ms. repeat (split; [assumption |]).
  intros m Hm.
  destruct (Hall _ Hm) as (url & text & id & t & i & Hurl & Htext & Hid & Ht & Hin & Hp).
  rewrite (post_key_of_raw _ _ _ _ Hn Hid Ht) in Hp.
  exists url, text, i. auto.
Qed.

Lemma media_written_witness :
  exists n media ms,
    post_key sample_tweet = Ok n
    /\ media_of sample_tweet = Ok media
    /\ py_iter media = Ok ms
    /\ forall m, In m ms ->
         exists url text i,
           getitem m "media_url" = Ok url /\ as_text url = Ok text
           /\ In (i, text) (urls (rows (store conn_after_sample)))
           /\ has_media n i (tweet_media (rows (store conn_after_sample))) = true.
Proof.
  apply (media_written sample_tweet empty_conn). vm_compute. reflexivity.
Defined.

(** * The URL resolver, over sequences of calls *)

Lemma Forall2_nth_error {A B} (P : A -> B -> Prop) (l : list A) (l' : list B) :
  Forall2 P l l' ->
  forall j a, nth_error l j = Some a -> exists b, nth_error l' j = Some b /\ P a b.
Proof.
  induction 1 as [| a0 b0 l l' H0 H IH]; intros j a Hj.
  - destruct j; discriminate.
  - destruct j as [| j]; simpl in *.
    + inversion Hj; subst. eauto.
    + eauto.
Qed.

Lemma resolve_all_resolves (l : list string) (c : Conn) :
  Forall (fun s => has_char NUL s = false) l ->
  urls_ok (store c) ->
  exists ids c',
    resolve_all l c = (Ok (map PInt ids), c')
    /\ urls_ok (store c')
    /\ prefix_of (urls (rows (store c))) (urls (rows (store c')))
    /\ Forall2 (fun s i => find (url_is s) (urls (rows (store c'))) = Some (i, Some s))
               l ids.
Proof.
  intros Hl. revert c. induction Hl as [| s l Hs Hl IH]; intros c Hok.
  - exists [], c. simpl. repeat split; try apply Hok; auto using prefix_refl.
  - destruct (get_id_urls_resolves s c Hs Hok) as (i & c1 & Hrun & Hok1 & Hfind).
    destruct (IH c1 Hok1) as (ids & c' & Hrest & Hok' & Hpre & Hall).
    exists (i :: ids), c'. simpl.
    rewrite (bind_ok _ _ _ _ _ Hrun), (bind_ok _ _ _ _ _ Hrest).
    split; [reflexivity | split; [exact Hok' | split]].
    + eapply prefix_trans; [| exact Hpre].
      pose proof (traced_extends _ _ c (traced_get_id_urls_any (PStr s))) as Hext.
      rewrite Hrun in Hext. apply (ext_urls _ _ Hext).
    + constructor; trivial. eapply find_prefix; eauto.
Qed.

Lemma count_url_in (s : string) (tbl : list (Z * option string)) (i : Z) :
  In (i, Some s) tbl -> (1 <= count_url s tbl)%nat.
Proof.
  unfold count_url. induction tbl as [| a tbl IH]; simpl; [tauto |].
  intros [-> | Hin].
  - unfold url_is at 1. simpl. rewrite String.eqb_refl. simpl. lia.
  - destruct (url_is s a); simpl; [lia | auto].
Qed.

(** In a table without a url string twice, the row of a string is the one
    a lookup by the string finds. *)
Lemma unique_url_row (s : string) (tbl : list (Z * option string)) (i : Z) :
  (count_url s tbl <= 1)%nat -> In (i, Some s) tbl ->
  find (url_is s) tbl = Some (i, Some s).
Proof.
  induction tbl as [| a tbl IH]; simpl; [tauto |].
  intros Hc Hin.
  assert (count_url s (a :: tbl)
          = ((if url_is s a then 1 else 0) + count_url s tbl)%nat) as Hcons.
  { unfold count_url. simpl. now destruct (url_is s a). }
  rewrite Hcons in Hc. clear Hcons.
  destruct (url_is s a) eqn:Ha.
  - destruct Hin as [-> | Hin]; trivial.
    apply count_url_in in Hin. lia.
  - destruct Hin as [-> | Hin].
    + unfold url_is in Ha. simpl in Ha. now rewrite String.eqb_refl in Ha.
    + apply IH; [exact Hc | exact Hin].
Qed.




(** The same three resolutions, run: the sequence has moved three times, the
    table has two rows. *)
Example resolve_all_run :
  fst (resolve_all ["http://a.example"; "http://b.example"; "http://a.example"] empty_conn)
  = Ok [PInt 1; PInt 2; PInt 1]
  /\ urls (rows (store (snd (resolve_all
         ["http://a.example"; "http://b.example"; "http://a.example"] empty_conn))))
     = [(1%Z, Some "http://a.example"); (2%Z, Some "http://b.example")].
Proof. vm_compute. split; reflexivity. Qed.

(** ** The authors of a stored record *)

Lemma traced_get_id_urls_url_stmt (url : pyval) : traced url_stmt (get_id_urls url).
Proof. unfold get_id_urls. repeat traced_step; exact I. Qed.

Lemma replay_url_stmt_users (l : list stmt) (st : Store) :
  Forall url_stmt l -> users (rows (replay l st)) = users (rows st).
Proof.
  intros H. revert st. induction H as [| s l Hs Hl IH]; intros st; simpl; trivial.
  rewrite IH. unfold replay_step.
  destruct (exec s st) as [[r st'] | e] eqn:E; trivial.
  destruct s; simpl in Hs; try tauto; exec_cases E; reflexivity.
Qed.

Lemma get_id_urls_users (url : pyval) (c : Conn) :
  users (rows (store (snd (get_id_urls url c)))) = users (rows (store c)).
Proof.
  destruct (traced_get_id_urls_url_stmt url c) as (l & _ & -> & Hq & _).
  now apply replay_url_stmt_users.
Qed.

Lemma user_params_id (tweet x : pyval) (p : user_params) :
  user_params_of tweet x = Ok p ->
  exists user id,
    getitem tweet "user" = Ok user /\ getitem user "id" = Ok id
    /\ u_id_users p = PStr (py_str id).
Proof.
  unfold user_params_of. intros H. res_inv H. inversion H. simpl. eauto.
Qed.

Lemma insert_user_inv (tweet : pyval) (c c' : Conn) :
  insert_user tweet c = (Ok tt, c') ->
  exists x p k,
    user_params_of tweet x = Ok p
    /\ author_key tweet = Ok k
    /\ has_key k (users (rows (store c'))) = true
    /\ (has_key k (users (rows (store c))) = false ->
        lookup k (users (rows (store c'))) = Some p)
    /\ (x = PNone \/ exists i text, x = PInt i /\ In (i, text) (urls (rows (store c')))).
Proof.
  unfold insert_user. intros H.
  apply bind_inv_ok in H as (user & c1 & Huser & H).
  apply lift_inv_ok in Huser as [Huser ->].
  apply bind_inv_ok in H as (url & c1 & Hurl & H).
  apply lift_inv_ok in Hurl as [Hurl ->].
  apply bind_inv_ok in H as (x & c1 & Hx & H).
  apply bind_inv_ok in H as (p & c2 & Hp & H).
  apply lift_inv_ok in Hp as [Hp ->].
  apply bind_inv_ok in H as (r & c2 & He & H).
  injection H as <-.
  pose proof (execute_extends (InsertUser p) c1) as Hext.
  rewrite He in Hext. simpl in Hext.
  apply execute_inv_ok in He as [He _].
  apply exec_user_effect in He as (k & Hk & Hhas & Hnew).
  assert (users (rows (store c1)) = users (rows (store c))) as Hsame.
  { destruct (is_None url).
    - now injection Hx as _ <-.
    - pose proof (get_id_urls_users url c) as Hu. now rewrite Hx in Hu. }
  exists x, p, k. split; [exact Hp |].
  destruct (user_params_id _ _ _ Hp) as (user' & id & Huser' & Hid & Hpid).
  split; [| split; [exact Hhas | split]].
  - unfold author_key, res_bind. rewrite Huser', Hid, <- Hpid. exact Hk.
  - rewrite <- Hsame. exact Hnew.
  - destruct (is_None url).
    + left. now injection Hx as <- _.
    + right. apply get_id_urls_inv in Hx as (i & text & -> & _ & Hin).
      exists i, text. split; [reflexivity |].
      eapply in_prefix; [apply (ext_urls _ _ Hext) | exact Hin].
Qed.

Lemma py_get_getitem (x r v : pyval) (k : string) :
  py_get x k = Ok r -> getitem x k = Ok v -> v = r.
Proof.
  unfold py_get, getitem. destruct x; try discriminate.
  destruct (assoc k kvs); congruence.
Qed.

Lemma insert_reply_user_inv (tweet r : pyval) (c c' : Conn) :
  insert_reply_user tweet c = (Ok tt, c') ->
  py_get tweet "in_reply_to_user_id" = Ok r ->
  r <> PNone ->
  exists k,
    as_key (PStr (py_str r)) = Ok k
    /\ has_key k (users (rows (store c'))) = true.
Proof.
  unfold insert_reply_user. intros H Hr Hnn.
  apply bind_inv_ok in H as (r' & c1 & Hr' & H).
  apply lift_inv_ok in Hr' as [Hr' ->].
  assert (r' = r) as -> by congruence.
  destruct r; try congruence; simpl in H;
    (apply bind_inv_ok in H as (id & c1 & Hid & H);
     apply lift_inv_ok in Hid as [Hid ->];
     rewrite (py_get_getitem _ _ _ _ Hr Hid) in H;
     apply bind_inv_ok in H as (r0 & c1 & He & H);
     injection H as <-;
     apply execute_inv_ok in He as [He _];
     now apply exec_stub_effect in He).
Qed.

Lemma inserted_reply_author (tweet r : pyval) (c c' : Conn) :
  insert_tweet tweet c = (Ok Inserted, c') ->
  py_get tweet "in_reply_to_user_id" = Ok r ->
  r <> PNone ->
  exists k,
    as_key (PStr (py_str r)) = Ok k
    /\ has_key k (users (rows (store c'))) = true.
Proof.
  intros H Hr Hnn.
  destruct (inserted_steps _ _ _ H)
    as (n & c0 & c1 & c2 & c4 & c5 & c6 & _ & _ & _ & H2 & _ & _ & _ & _ & E2 & _).
  destruct (insert_reply_user_inv _ _ _ _ H2 Hr Hnn) as (k & Hk & Hhas).
  exists k. split; [exact Hk |].
  eapply has_key_prefix; [apply (ext_users _ _ E2) | exact Hhas].
Qed.

(** X8. The authors a stored record refers to have their rows.  When
    [insert_tweet] stores a record, the Author table has a row for the
    record's author, and a row for the reply-target author whenever
    [in_reply_to_user_id] is not null.  When the record's author had no row
    before the call, the row is the one the author insert passed, with the
    profile url column either null or the identifier of a row of the Url
    table. *)
Theorem authors_written (tweet : pyval) (c c' : Conn) :
  insert_tweet tweet c = (Ok Inserted, c') ->
  (exists k,
     author_key tweet = Ok k
     /\ has_key k (users (rows (store c'))) = true
     /\ (has_key k (users (rows (store c))) = false ->
         exists x p,
           user_params_of tweet x = Ok p
           /\ lookup k (users (rows (store c'))) = Some p
           /\ (x = PNone
               \/ exists i text, x = PInt i /\ In (i, text) (urls (rows (store c'))))))
  /\ (forall r,
        py_get tweet "in_reply_to_user_id" = Ok r ->
        r <> PNone ->
        exists k,
          as_key (PStr (py_str r)) = Ok k
          /\ has_key k (users (rows (store c'))) = true).
Proof.
  intros H.
  split; [| intros r Hr Hnn; exact (inserted_reply_author tweet r c c' H Hr Hnn)].
  destruct (inserted_steps _ _ _ H)
    as (n & c0 & c1 & c2 & c4 & c5 & c6 & _ & H0 & H1 & _ & _ & _ & _ & E1 & _).
  destruct (insert_user_inv _ _ _ H1) as (x & p & k & Hp & Hk & Hhas & Hnew & Hurl).
  exists k. split; [exact Hk | split].
  - eapply has_key_prefix; [apply (ext_users _ _ E1) | exact Hhas].
  - intros Hfresh. rewrite H0 in Hnew. exists x, p. split; [exact Hp | split].
    + eapply lookup_prefix; [apply (ext_users _ _ E1) | now apply Hnew].
    + destruct Hurl as [-> | (i & text & -> & Hin)]; [now left | right].
      exists i, text. split; [reflexivity |].
      eapply in_prefix; [apply (ext_urls _ _ E1) | exact Hin].
Qed.

Lemma authors_written_witness :
  (exists k,
     author_key sample_tweet = Ok k
     /\ has_key k (users (rows (store conn_after_sample))) = true
     /\ (has_key k (users (rows (store empty_conn))) = false ->
         exists x p,
           user_params_of sample_tweet x = Ok p
           /\ lookup k (users (rows (store conn_after_sample))) = Some p
           /\ (x = PNone
               \/ exists i text,
                    x = PInt i /\ In (i, text) (urls (rows (store conn_after_sample))))))
  /\ (forall r,
        py_get sample_tweet "in_reply_to_user_id" = Ok r ->
        r <> PNone ->
        exists k,
          as_key (PStr (py_str r)) = Ok k
          /\ has_key k (users (rows (store conn_after_sample))) = true).
Proof.
  apply (authors_written sample_tweet empty_conn). vm_compute. reflexivity.
Defined.

(** X9. A reply target that is not null but falsy.  The stub of the reply
    target is guarded by [is not None], the column of the Post row by the
    truth value.  So when [insert_tweet] stores a record whose
    [in_reply_to_user_id] is 0, the Author table has a row for author 0 while
    the Post row names no reply-target author. *)
Theorem falsy_reply_target (tweet r : pyval) (c c' : Conn) :
  insert_tweet tweet c = (Ok Inserted, c') ->
  py_get tweet "in_reply_to_user_id" = Ok r ->
  r <> PNone ->
  py_truthy r = false ->
  (exists k,
     as_key (PStr (py_str r)) = Ok k
     /\ has_key k (users (rows (store c'))) = true)
  /\ (exists n p,
        post_key tweet = Ok n
        /\ lookup n (tweets (rows (store c'))) = Some p
        /\ t_in_reply_to_user_id p = PNone).
Proof.
  intros H Hr Hnn Hfalse.
  split; [exact (inserted_reply_author tweet r c c' H Hr Hnn) |].
  destruct (inserted_post_row _ _ _ H) as (n & f & p & Hn & _ & _ & Hp & Hrow).
  exists n, p. split; [exact Hn | split; [exact Hrow |]].
  apply tweet_params_columns in Hp.
  repeat match type of Hp with _ /\ _ => destruct Hp as [_ Hp] end.
  rewrite Hr in Hp. simpl in Hp. rewrite Hfalse in Hp. congruence.
Qed.

Lemma falsy_reply_target_witness :
  (exists k,
     as_key (PStr (py_str (PInt 0))) = Ok k
     /\ has_key k (users (rows (store (snd (insert_tweet sample_tweet_reply_zero
                                                         empty_conn))))) = true)
  /\ (exists n p,
        post_key sample_tweet_reply_zero = Ok n
        /\ lookup n (tweets (rows (store (snd (insert_tweet sample_tweet_reply_zero
                                                            empty_conn)))))
           = Some p
        /\ t_in_reply_to_user_id p = PNone).
Proof.
  apply (falsy_reply_target sample_tweet_reply_zero (PInt 0) empty_conn).
  - vm_compute. reflexivity.
  - reflexivity.
  - discriminate.
  - reflexivity.
Defined.

(** * The main loop *)

(** ** What a run does to the connection comes from [insert_tweet] *)

Section Run_relation.
Variable R : Conn -> Conn -> Prop.
Hypothesis R_refl : forall c, R c c.
Hypothesis R_trans : forall c1 c2 c3, R c1 c2 -> R c2 c3 -> R c1 c3.
Hypothesis R_step : forall tweet c, R c (snd (insert_tweet tweet c)).

Lemma load_file_related (print_every i : Z) (lines : list (option pyval)) (c : Conn) :
  R c (snd (load_file print_every i lines c)).
Proof.
  revert i c. induction lines as [| [tweet |] rest IH]; intros i c; simpl; auto.
  pose proof (R_step tweet c) as Hstep.
  destruct (insert_tweet tweet c) as [[o | e] c1]; simpl in *; trivial.
  destruct (print_every =? 0)%Z; trivial.
  destruct (i mod print_every =? 0)%Z.
  - destruct (getitem tweet "id") as [id | e]; trivial.
    specialize (IH (i + 1)%Z c1).
    destruct (load_file print_every (i + 1) rest c1) as [[err out] c2].
    simpl in *. eauto.
  - eauto.
Qed.
End Run_relation.

Lemma load_file_grows (print_every i : Z) (lines : list (option pyval)) (c : Conn) :
  extends (rows (store c)) (rows (store (snd (load_file print_every i lines c)))).
Proof.
  apply (load_file_related (fun c c' => extends (rows (store c)) (rows (store c')))).
  - intros c0. apply extends_refl.
  - intros c1 c2 c3. apply extends_trans.
  - apply insert_tweet_extends.
Qed.

(** X10. A run of the loader only adds rows.  Whatever the lines, the
    progress interval and the store, and whether the run ends or is stopped by
    an exception, every table after the run is the table from before with
    rows added at its end: no row is removed, changed or moved. *)
Theorem load_file_only_appends
  (print_every i : Z) (lines : list (option pyval)) (c : Conn) :
  extends (rows (store c)) (rows (store (snd (load_file print_every i lines c)))).
Proof.
  apply (load_file_related (fun c c' => extends (rows (store c)) (rows (store c')))).
  - intros c0. apply extends_refl.
  - intros c1 c2 c3. apply extends_trans.
  - apply insert_tweet_extends.
Qed.

(** ** The schema's constraints *)

Lemma not_in_keys {R} (k : Z) (tbl : list (Z * R)) :
  has_key k tbl = false -> ~ In k (map fst tbl).
Proof.
  unfold has_key. intros H Hin. apply in_map_iff in Hin as ([k' r] & Hk & Hin).
  simpl in Hk. subst k'.
  assert (existsb (fun r0 : Z * R => (fst r0 =? k)%Z) tbl = true) as Ht.
  { apply existsb_exists. exists (k, r). split; [exact Hin | apply Z.eqb_refl]. }
  congruence.
Qed.

Lemma NoDup_snoc {A} (l : list A) (x : A) :
  ~ In x l -> NoDup l -> NoDup (l ++ [x]).
Proof.
  intros Hx Hl. induction Hl as [| a l Ha Hl IH]; simpl.
  - constructor; [intros [] | constructor].
  - constructor.
    + intros Hin. apply in_app_iff in Hin as [Hin | [<- | []]]; [now apply Ha |].
      apply Hx. now left.
    + apply IH. intros Hin. apply Hx. now right.
Qed.

Lemma not_in_pairs (a b : Z) (tbl : list (Z * Z)) :
  has_pair a b tbl = false -> ~ In (a, b) tbl.
Proof.
  unfold has_pair. intros H Hin.
  assert (existsb (fun r => (fst r =? a)%Z && (snd r =? b)%Z) tbl = true) as Ht.
  { apply existsb_exists. exists (a, b). split; [exact Hin |].
    simpl. now rewrite !Z.eqb_refl. }
  congruence.
Qed.

Lemma not_in_tags (a : Z) (g : string) (tbl : list (Z * string)) :
  has_tag a g tbl = false -> ~ In (a, g) tbl.
Proof.
  unfold has_tag. intros H Hin.
  assert (existsb (fun r => (fst r =? a)%Z && String.eqb (snd r) g) tbl = true) as Ht.
  { apply existsb_exists. exists (a, g). split; [exact Hin |].
    simpl. now rewrite Z.eqb_refl, String.eqb_refl. }
  congruence.
Qed.

Lemma not_in_media (a b : Z) (tbl : list (Z * Z * pyval)) :
  has_media a b tbl = false -> ~ In (a, b) (map fst tbl).
Proof.
  unfold has_media. intros H Hin. apply in_map_iff in Hin as ([[a' b'] ty] & Hk & Hin).
  simpl in Hk. injection Hk as -> ->.
  assert (existsb (fun r : Z * Z * pyval =>
                     (fst (fst r) =? a)%Z && (snd (fst r) =? b)%Z) tbl = true) as Ht.
  { apply existsb_exists. exists (a, b, ty). split; [exact Hin |].
    simpl. now rewrite !Z.eqb_refl. }
  congruence.
Qed.

Lemma exec_keys_unique (s : stmt) (st st' : Store) (r : option pyval) :
  exec s st = Ok (r, st') -> keys_unique (rows st) -> keys_unique (rows st').
Proof.
  intros H [Hu Ht Hur Htu Htm Htt Hme].
  destruct s; exec_cases H; simpl; try (now constructor);
    constructor; simpl; trivial;
    try (rewrite map_app; simpl);
    apply NoDup_snoc; trivial;
    first [ now apply not_in_keys | now apply not_in_pairs
          | now apply not_in_tags | now apply not_in_media
          | match goal with
            | Hc : url_conflict _ _ _ = false |- _ =>
                apply orb_false_iff in Hc as [Hc _]; now apply not_in_keys
            end ].
Qed.

Lemma replay_keys_unique (l : list stmt) (st : Store) :
  keys_unique (rows st) -> keys_unique (rows (replay l st)).
Proof.
  revert st. induction l as [| s l IH]; intros st H; simpl; trivial.
  apply IH. unfold replay_step.
  destruct (exec s st) as [[r st'] | e] eqn:E; trivial.
  eapply exec_keys_unique; eauto.
Qed.

Lemma insert_tweet_keys_unique (tweet : pyval) (c : Conn) :
  keys_unique (rows (store c)) ->
  keys_unique (rows (store (snd (insert_tweet tweet c)))).
Proof.
  intros H. unfold insert_tweet, with_transaction.
  destruct (traced_insert_tweet_body tweet c) as (l & _ & Hr & _).
  destruct (insert_tweet_body tweet c) as [[o | e] c1]; simpl in *; trivial.
  rewrite Hr. now apply replay_keys_unique.
Qed.

(** X11. A run keeps the keys and the urls unique.  If no table of the
    store has a key twice (the identifier of an Author, of a Post and of a
    Url, the composite key of each association), the Url table no url string
    twice and no identifier ahead of its sequence, then the same holds after
    any run of the loader, ended or stopped. *)
Theorem load_file_keeps_constraints
  (print_every i : Z) (lines : list (option pyval)) (c : Conn) :
  keys_unique (rows (store c)) ->
  urls_ok (store c) ->
  keys_unique (rows (store (snd (load_file print_every i lines c))))
  /\ urls_ok (store (snd (load_file print_every i lines c))).
Proof.
  intros Hk Hu.
  apply (load_file_related
           (fun c c' =>
              keys_unique (rows (store c)) /\ urls_ok (store c) ->
              keys_unique (rows (store c')) /\ urls_ok (store c'))
           (fun _ H => H)
           (fun _ _ _ H1 H2 H => H2 (H1 H))); [| now split].
  intros tweet c0 [Hk0 Hu0].
  split; [now apply insert_tweet_keys_unique | now apply insert_tweet_urls_ok].
Qed.

Lemma load_file_keeps_constraints_witness :
  keys_unique (rows (store (snd (load_file 1000 0
                                   [Some sample_tweet; Some sample_tweet_mentioning;
                                    Some sample_tweet] empty_conn))))
  /\ urls_ok (store (snd (load_file 1000 0
                            [Some sample_tweet; Some sample_tweet_mentioning;
                             Some sample_tweet] empty_conn))).
Proof.
  apply (load_file_keeps_constraints 1000 0
           [Some sample_tweet; Some sample_tweet_mentioning; Some sample_tweet]
           empty_conn).
  - constructor; simpl; constructor.
  - split; simpl; [intros r [] | intros s; apply Nat.le_0_l].
Defined.

(** ** Reloading *)

Lemma insert_tweet_ok_stored (tweet : pyval) (c c1 : Conn) (o : outcome) :
  insert_tweet tweet c = (Ok o, c1) -> post_stored (store c1) tweet.
Proof.
  intros H. apply with_transaction_inv_ok in H.
  destruct (insert_tweet_body_inv _ _ _ _ H) as (n & Hn & Ho).
  destruct o.
  - destruct Ho as [Hk ->]. now exists n.
  - destruct Ho as [_ Hw]. now apply write_tweet_present in Hw.
Qed.

Lemma line_stored_grows (st st' : Store) (line : option pyval) :
  extends (rows st) (rows st') -> line_stored st line -> line_stored st' line.
Proof.
  intros Hext (tweet & -> & n & Hn & Hk).
  exists tweet. split; [reflexivity |]. exists n. split; [exact Hn |].
  eapply has_key_prefix; [apply (ext_tweets _ _ Hext) | exact Hk].
Qed.

(** After a run that ended, every line has its Post row. *)
Lemma load_file_ok_stored
  (print_every i : Z) (lines : list (option pyval)) (c c1 : Conn) (out : list (Z * pyval)) :
  load_file print_every i lines c = (None, out, c1) ->
  Forall (line_stored (store c1)) lines
  /\ (lines <> [] -> print_every <> 0%Z).
Proof.
  revert i c out. induction lines as [| [tweet |] rest IH]; intros i c out H.
  - split; [constructor | congruence].
  - simpl in H.
    destruct (insert_tweet tweet c) as [[o | e] c2] eqn:Hins; [| discriminate].
    destruct (print_every =? 0)%Z eqn:Hpe; [discriminate |].
    assert (exists out', load_file print_every (i + 1) rest c2 = (None, out', c1))
      as (out' & Hrest).
    { destruct (i mod print_every =? 0)%Z.
      - destruct (getitem tweet "id"); [| discriminate].
        destruct (load_file print_every (i + 1) rest c2) as [[err o'] c3].
        injection H as -> _ ->. eauto.
      - eauto. }
    destruct (IH _ _ _ Hrest) as [Hall _].
    split; [| intros _; now apply Z.eqb_neq].
    constructor; [| exact Hall].
    pose proof (load_file_grows print_every (i + 1) rest c2) as Hext.
    rewrite Hrest in Hext. simpl in Hext.
    eapply line_stored_grows; [exact Hext |].
    exists tweet. split; [reflexivity |]. eapply insert_tweet_ok_stored; eauto.
  - simpl in H. discriminate.
Qed.

(** A run over lines that are all stored sends existence checks only. *)
Lemma load_file_skips
  (print_every i : Z) (lines : list (option pyval)) (c : Conn) :
  Forall (line_stored (store c)) lines ->
  print_every <> 0%Z ->
  exists out l,
    load_file print_every i lines c
    = (None, out, {| store := store c; sent := sent c ++ l |})
    /\ Forall is_select_tweet l.
Proof.
  intros Hall Hpe. revert i c Hall.
  induction lines as [| line rest IH]; intros i c Hall.
  - exists [], []. simpl. rewrite app_nil_r. split; [now destruct c | constructor].
  - inversion Hall as [| ? ? (tweet & -> & n & Hn & Hk) Hrest]; subst.
    destruct (insert_tweet_skips tweet c n Hn Hk) as (id & Hid & Hskip).
    simpl. rewrite Hskip. apply Z.eqb_neq in Hpe. rewrite Hpe, Hid.
    destruct (IH (i + 1)%Z
                 {| store := store c; sent := sent c ++ [SelectTweet (PStr (py_str id))] |}
                 Hrest) as (out & l & Hrun & Hl).
    simpl in Hrun. rewrite <- app_assoc in Hrun. rewrite Hrun.
    destruct (i mod print_every =? 0)%Z; eexists; eexists;
      (split; [reflexivity | constructor; [exact I | exact Hl]]).
Qed.

(** The progress lines of a run that ends depend on the lines only. *)
Lemma load_file_out_unique
  (print_every i : Z) (lines : list (option pyval))
  (c c1 d d1 : Conn) (out out' : list (Z * pyval)) :
  load_file print_every i lines c = (None, out, c1) ->
  load_file print_every i lines d = (None, out', d1) ->
  out = out'.
Proof.
  revert i c d out out'.
  induction lines as [| [tweet |] rest IH]; intros i c d out out' H H'; simpl in *.
  - congruence.
  - destruct (insert_tweet tweet c) as [[o | e] c2]; [| discriminate].
    destruct (insert_tweet tweet d) as [[o' | e'] d2]; [| discriminate].
    destruct (print_every =? 0)%Z; [discriminate |].
    destruct (i mod print_every =? 0)%Z.
    + destruct (getitem tweet "id"); [| discriminate].
      destruct (load_file print_every (i + 1) rest c2) as [[err r] c3] eqn:E.
      destruct (load_file print_every (i + 1) rest d2) as [[err' r'] d3] eqn:E'.
      injection H as -> <- ->. injection H' as -> <- ->.
      f_equal. eapply IH; eauto.
    + eapply IH; eauto.
  - discriminate.
Qed.

(** X12. Loading the same lines again writes nothing.  After a run that
    ended, a second run over the same lines ends too, prints the same
    progress lines, sends nothing but existence checks and leaves the store as
    the first run left it. *)
Theorem load_file_again
  (print_every i : Z) (lines : list (option pyval)) (c c1 : Conn) (out : list (Z * pyval)) :
  load_file print_every i lines c = (None, out, c1) ->
  exists l,
    load_file print_every i lines c1
    = (None, out, {| store := store c1; sent := sent c1 ++ l |})
    /\ Forall is_select_tweet l.
Proof.
  intros H. destruct (load_file_ok_stored _ _ _ _ _ _ H) as [Hall Hpe].
  destruct lines as [| line rest].
  - injection H as <- <-. exists []. simpl. rewrite app_nil_r.
    split; [now destruct c | constructor].
  - destruct (load_file_skips print_every i (line :: rest) c1 Hall) as (out' & l & Hrun & Hl).
    + apply Hpe. discriminate.
    + exists l. split; [| exact Hl].
      now rewrite (load_file_out_unique _ _ _ _ _ _ _ _ _ H Hrun).
Qed.

Lemma load_file_again_witness :
  exists l,
    load_file 2 0 [Some sample_tweet; Some sample_tweet_mentioning; Some sample_tweet]
              (snd (load_file 2 0 [Some sample_tweet; Some sample_tweet_mentioning;
                                   Some sample_tweet] empty_conn))
    = (None, [(0%Z, PInt 10); (2%Z, PInt 10)],
       {| store := store (snd (load_file 2 0 [Some sample_tweet;
                                              Some sample_tweet_mentioning;
                                              Some sample_tweet] empty_conn));
          sent := sent (snd (load_file 2 0 [Some sample_tweet;
                                            Some sample_tweet_mentioning;
                                            Some sample_tweet] empty_conn)) ++ l |})
    /\ Forall is_select_tweet l.
Proof.
  apply (load_file_again 2 0
           [Some sample_tweet; Some sample_tweet_mentioning; Some sample_tweet]
           empty_conn).
  vm_compute. reflexivity.
Defined.

(** ** A run that is stopped *)

(** Lines after lines: the second part goes on where the first ended. *)
Lemma load_file_app
  (print_every i : Z) (l1 l2 : list (option pyval)) (c c1 : Conn) (out1 : list (Z * pyval)) :
  load_file print_every i l1 c = (None, out1, c1) ->
  load_file print_every i (l1 ++ l2) c
  = (fst (fst (load_file print_every (i + Z.of_nat (List.length l1)) l2 c1)),
     out1 ++ snd (fst (load_file print_every (i + Z.of_nat (List.length l1)) l2 c1)),
     snd (load_file print_every (i + Z.of_nat (List.length l1)) l2 c1)).
Proof.
  revert i c out1. induction l1 as [| [tweet |] rest IH]; intros i c out1 H.
  - injection H as <- <-. simpl. rewrite Z.add_0_r.
    now destruct (load_file print_every i l2 c) as [[err out] c2].
  - simpl in H.
    replace (i + Z.of_nat (List.length (Some tweet :: rest)))%Z
      with (i + 1 + Z.of_nat (List.length rest))%Z
      by (simpl List.length; lia).
    change ((Some tweet :: rest) ++ l2) with (Some tweet :: (rest ++ l2)).
    cbn [load_file].
    destruct (insert_tweet tweet c) as [[o | e] c2]; [| discriminate].
    destruct (print_every =? 0)%Z; [discriminate |].
    destruct (i mod print_every =? 0)%Z.
    + destruct (getitem tweet "id"); [| discriminate].
      destruct (load_file print_every (i + 1) rest c2) as [[err r] c3] eqn:E.
      injection H as -> <- ->.
      rewrite (IH _ _ _ E). reflexivity.
    + now apply IH.
  - simpl in H. discriminate.
Qed.

Lemma insert_tweet_raise_rows (tweet : pyval) (c : Conn) (e : exn) :
  fst (insert_tweet tweet c) = Raise e ->
  rows (store (snd (insert_tweet tweet c))) = rows (store c).
Proof.
  unfold insert_tweet, with_transaction.
  destruct (insert_tweet_body tweet c) as [[o | e'] c1]; simpl; [discriminate | trivial].
Qed.

(** X13. The first exception stops the run where it is.  If the lines
    before a line load to the end, then a line that does not decode stops the
    run with the connection as those lines left it, and a record that
    [insert_tweet] refuses stops it with the rows as those lines left them:
    what was loaded stays, nothing of the refused record is stored, and the
    lines after it are not read. *)
Theorem load_file_stops
  (print_every i : Z) (l1 l2 : list (option pyval)) (c c1 : Conn) (out1 : list (Z * pyval)) :
  load_file print_every i l1 c = (None, out1, c1) ->
  load_file print_every i (l1 ++ None :: l2) c = (Some JSONDecodeError, out1, c1)
  /\ (forall tweet e,
        fst (insert_tweet tweet c1) = Raise e ->
        exists c',
          load_file print_every i (l1 ++ Some tweet :: l2) c = (Some (Raised e), out1, c')
          /\ rows (store c') = rows (store c1)).
Proof.
  intros H. split.
  - rewrite (load_file_app _ _ _ _ _ _ _ H). simpl. now rewrite app_nil_r.
  - intros tweet e He.
    rewrite (load_file_app _ _ _ _ _ _ _ H). simpl.
    pose proof (insert_tweet_raise_rows tweet c1 e He) as Hrows.
    destruct (insert_tweet tweet c1) as [[o | e'] c2]; simpl in *; [discriminate |].
    injection He as ->. exists c2. rewrite app_nil_r. auto.
Qed.

Lemma load_file_stops_witness :
  load_file 1 0 ([Some sample_tweet] ++ None :: [Some sample_tweet_mentioning]) empty_conn
  = (Some JSONDecodeError, [(0%Z, PInt 10)], conn_after_sample)
  /\ (forall tweet e,
        fst (insert_tweet tweet conn_after_sample) = Raise e ->
        exists c',
          load_file 1 0 ([Some sample_tweet] ++ Some tweet :: [Some sample_tweet_mentioning])
                    empty_conn
          = (Some (Raised e), [(0%Z, PInt 10)], c')
          /\ rows (store c') = rows (store conn_after_sample)).
Proof.
  apply (load_file_stops 1 0 [Some sample_tweet] [Some sample_tweet_mentioning] empty_conn).
  vm_compute. reflexivity.
Defined.

(** ** Progress lines *)

Lemma shifted_indices (i : Z) (n : nat) :
  map (fun j => (i + Z.of_nat j)%Z) (seq 1 n)
  = map (fun j => (i + 1 + Z.of_nat j)%Z) (seq 0 n).
Proof.
  rewrite <- seq_shift, map_map. apply map_ext. intros j. lia.
Qed.

(** X14. The progress lines of a run that ends.  Such a run has a progress
    interval other than 0 (unless there is no line at all), and prints one
    line for each index that the interval divides, in order, each with the
    [id] of the record on that line. *)
Theorem load_file_progress
  (print_every i : Z) (lines : list (option pyval)) (c c1 : Conn) (out : list (Z * pyval)) :
  load_file print_every i lines c = (None, out, c1) ->
  (lines <> [] -> print_every <> 0%Z)
  /\ map fst out
     = filter (fun k => (k mod print_every =? 0)%Z)
              (map (fun j => (i + Z.of_nat j)%Z) (seq 0 (List.length lines)))
  /\ Forall (fun line =>
               (i <= fst line)%Z
               /\ exists tweet,
                    nth_error lines (Z.to_nat (fst line - i)) = Some (Some tweet)
                    /\ getitem tweet "id" = Ok (snd line))
            out.
Proof.
  revert i c out. induction lines as [| [tweet |] rest IH]; intros i c out H.
  - injection H as <- _. repeat split; [congruence | constructor].
  - simpl in H.
    destruct (insert_tweet tweet c) as [[o | e] c2]; [| discriminate].
    destruct (print_every =? 0)%Z eqn:Hpe; [discriminate |].
    split; [intros _; now apply Z.eqb_neq |].
    simpl List.length. simpl seq. simpl map. rewrite shifted_indices, Z.add_0_r.
    simpl filter.
    assert (forall out',
              load_file print_every (i + 1) rest c2 = (None, out', c1) ->
              map fst out'
              = filter (fun k => (k mod print_every =? 0)%Z)
                       (map (fun j => (i + 1 + Z.of_nat j)%Z) (seq 0 (List.length rest)))
              /\ Forall (fun line =>
                           (i <= fst line)%Z
                           /\ exists tweet0,
                                nth_error (Some tweet :: rest) (Z.to_nat (fst line - i))
                                = Some (Some tweet0)
                                /\ getitem tweet0 "id" = Ok (snd line))
                        out') as Hrest.
    { intros out' Hrun. destruct (IH _ _ _ Hrun) as (_ & Hidx & Hall).
      split; [exact Hidx |].
      eapply Forall_impl; [| exact Hall].
      intros [k id] [Hle (tweet0 & Hnth & Hid)]. simpl in *.
      split; [lia |]. exists tweet0. split; [| exact Hid].
      replace (Z.to_nat (k - i)) with (S (Z.to_nat (k - (i + 1)))) by lia.
      exact Hnth. }
    destruct (i mod print_every =? 0)%Z.
    + destruct (getitem tweet "id") as [id | e] eqn:Hid; [| discriminate].
      destruct (load_file print_every (i + 1) rest c2) as [[err r] c3] eqn:E.
      injection H as -> <- ->.
      destruct (Hrest r eq_refl) as [Hidx Hall].
      split; [simpl; now rewrite Hidx |].
      constructor; [| exact Hall].
      simpl. split; [lia |]. exists tweet.
      rewrite Z.sub_diag. simpl. auto.
    + now apply Hrest.
  - simpl in H. discriminate.
Qed.

Lemma load_file_progress_witness :
  ([Some sample_tweet; Some sample_tweet_mentioning; Some sample_tweet] <> [] -> 2 <> 0)%Z
  /\ map fst [(0%Z, PInt 10); (2%Z, PInt 10)]
     = filter (fun k => (k mod 2 =? 0)%Z)
              (map (fun j => (0 + Z.of_nat j)%Z)
                   (seq 0 (List.length [Some sample_tweet; Some sample_tweet_mentioning;
                                        Some sample_tweet])))
  /\ Forall (fun line =>
               (0 <= fst line)%Z
               /\ exists tweet,
                    nth_error [Some sample_tweet; Some sample_tweet_mentioning;
                               Some sample_tweet] (Z.to_nat (fst line - 0))
                    = Some (Some tweet)
                    /\ getitem tweet "id" = Ok (snd line))
            [(0%Z, PInt 10); (2%Z, PInt 10)].
Proof.
  apply (load_file_progress 2 0
           [Some sample_tweet; Some sample_tweet_mentioning; Some sample_tweet]
           empty_conn
           (snd (load_file 2 0 [Some sample_tweet; Some sample_tweet_mentioning;
                                Some sample_tweet] empty_conn))).
  vm_compute. reflexivity.
Defined.

(** * What a call writes, and for whom *)

Lemma adds_only_refl {A} (P : A -> Prop) (l : list A) : adds_only P l l.
Proof. exists []. split; [now rewrite app_nil_r | constructor]. Qed.

Lemma adds_only_snoc {A} (P : A -> Prop) (l : list A) (x : A) :
  P x -> adds_only P l (l ++ [x]).
Proof. intros H. exists [x]. split; [reflexivity | now constructor]. Qed.

Lemma adds_only_trans {A} (P : A -> Prop) (l1 l2 l3 : list A) :
  adds_only P l1 l2 -> adds_only P l2 l3 -> adds_only P l1 l3.
Proof.
  intros (e1 & -> & H1) (e2 & -> & H2). exists (e1 ++ e2).
  split; [now rewrite app_assoc | now apply Forall_app].
Qed.

Lemma own_rows_refl (n : Z) (r : Rows) : own_rows n r r.
Proof. constructor; apply adds_only_refl. Qed.

Lemma own_rows_trans (n : Z) (r1 r2 r3 : Rows) :
  own_rows n r1 r2 -> own_rows n r2 r3 -> own_rows n r1 r3.
Proof. intros [] []. constructor; eapply adds_only_trans; eauto. Qed.

Ltac exec_keys H :=
  apply exec_run in H; unfold run, res_bind in H;
  repeat match type of H with
         | context [match as_key ?x with _ => _ end] =>
             let E := fresh "K" in destruct (as_key x) eqn:E; [| discriminate]
         | context [match as_text ?x with _ => _ end] =>
             let E := fresh "T" in destruct (as_text x) eqn:E; [| discriminate]
         | context [match as_bigint ?x with _ => _ end] =>
             let E := fresh "B" in destruct (as_bigint x) eqn:E; [| discriminate]
         | context [match as_text_key ?x with _ => _ end] =>
             let E := fresh "G" in destruct (as_text_key x) eqn:E; [| discriminate]
         | context [if ?b then _ else _] => destruct b
         | context [match ?x with Some _ => _ | None => _ end] => destruct x
         end;
  injection H as _ <-.

Lemma exec_own (tweet : pyval) (n : Z) (s : stmt) (st st' : Store) (r : option pyval) :
  post_key tweet = Ok n -> sends tweet s ->
  exec s st = Ok (r, st') ->
  own_rows n (rows st) (rows st').
Proof.
  intros Hn Hs H.
  destruct Hs; exec_keys H; try apply own_rows_refl;
    constructor; simpl; try apply adds_only_refl; apply adds_only_snoc; simpl;
    try (eapply post_key_of_raw; eassumption).
  destruct (tweet_params_id _ _ _ H0) as (id & Hid & Hpid).
  rewrite Hpid in K. unfold post_key, res_bind in Hn. rewrite Hid in Hn. congruence.
Qed.

Lemma replay_own (tweet : pyval) (n : Z) (l : list stmt) (st : Store) :
  post_key tweet = Ok n -> Forall (sends tweet) l ->
  own_rows n (rows st) (rows (replay l st)).
Proof.
  intros Hn Hl. revert st. induction Hl as [| s l Hs Hl IH]; intros st; simpl.
  - apply own_rows_refl.
  - eapply own_rows_trans; [| apply IH]. unfold replay_step.
    destruct (exec s st) as [[r st'] | e] eqn:E; [| apply own_rows_refl].
    eapply exec_own; eauto.
Qed.

(** X15. A call writes for its own record only.  Whatever [insert_tweet]
    adds to the Post table and to the four association tables is filed under
    the identifier of the record it was called with: a call never adds a Post
    row or an association row of another post.  (Author and Url rows are
    shared, and a call may add some for other identifiers.) *)
Theorem insert_tweet_own_rows (tweet : pyval) (c : Conn) (n : Z) :
  post_key tweet = Ok n ->
  own_rows n (rows (store c)) (rows (store (snd (insert_tweet tweet c)))).
Proof.
  intros Hn. unfold insert_tweet, with_transaction.
  destruct (traced_insert_tweet_body tweet c) as (l & _ & Hr & Hq & _).
  destruct (insert_tweet_body tweet c) as [[o | e] c1]; simpl in *.
  - rewrite Hr. exact (replay_own tweet n l _ Hn Hq).
  - apply own_rows_refl.
Qed.

Lemma insert_tweet_own_rows_witness :
  own_rows 10 (rows (store conn_after_mention))
           (rows (store (snd (insert_tweet sample_tweet conn_after_mention)))).
Proof.
  apply (insert_tweet_own_rows sample_tweet conn_after_mention 10). reflexivity.
Defined.

(** * The bounding box text *)

Lemma str_app_assoc (a b c : string) : ((a ++ b) ++ c = a ++ (b ++ c))%string.
Proof. induction a as [| x a IH]; simpl; [reflexivity | now rewrite IH]. Qed.

Lemma str_app_nil_r (a : string) : (a ++ "" = a)%string.
Proof. induction a as [| x a IH]; simpl; [reflexivity | now rewrite IH]. Qed.

Lemma join_snoc (sep x : string) (l : list string) :
  join sep (l ++ [x]) = (cat_each sep l ++ x)%string.
Proof.
  induction l as [| a l IH]; [reflexivity |].
  change ((a :: l) ++ [x])%list with (a :: (l ++ [x]))%list.
  cbn [cat_each]. rewrite !str_app_assoc, <- IH.
  destruct l; reflexivity.
Qed.

Lemma join_cons (sep a : string) (l : list string) :
  join sep (a :: l) = (a ++ pre_each sep l)%string.
Proof.
  revert a. induction l as [| b l IH]; intros a.
  - simpl. now rewrite str_app_nil_r.
  - change (join sep (a :: b :: l)) with (a ++ sep ++ join sep (b :: l))%string.
    now rewrite IH.
Qed.

Lemma point_text_json (p : pyval * pyval) (tail : string) :
  point_text (point_json p) tail = Ok (point_wkt p ++ tail)%string.
Proof.
  unfold point_text, point_json, point_wkt, getindex, res_bind. cbn [nth_error].
  now rewrite str_app_assoc.
Qed.

Lemma ring_points_json (ring : list (pyval * pyval)) :
  ring_points (map point_json ring) = Ok (cat_each "," (map point_wkt ring)).
Proof.
  induction ring as [| p ring IH]; [reflexivity |].
  cbn [map ring_points]. rewrite point_text_json, IH. cbn [res_bind cat_each].
  now rewrite str_app_assoc.
Qed.

Lemma ring_text_json (p : pyval * pyval) (ring : list (pyval * pyval)) :
  ring_text (PList (map point_json (p :: ring))) = Ok (ring_wkt (p :: ring)).
Proof.
  unfold ring_text. cbn [py_iter res_bind]. rewrite ring_points_json.
  cbn [res_bind map getindex nth_error]. rewrite point_text_json. cbn [res_bind].
  unfold ring_wkt. cbn [firstn]. rewrite map_app. cbn [map].
  now rewrite join_snoc, str_app_assoc.
Qed.

Lemma rings_text_json (rings : list (list (pyval * pyval))) (i : nat) :
  rings_text i (map (fun ring => PList (map point_json ring)) rings)
  = if closed_rings rings
    then Ok (if (0 <? i)%nat then pre_each "," (map ring_wkt rings)
             else join "," (map ring_wkt rings))
    else Raise IndexError.
Proof.
  revert i. induction rings as [| ring rings IH]; intros i.
  - simpl. now destruct (0 <? i)%nat.
  - cbn [map rings_text closed_rings forallb]. destruct ring as [| p ring].
    + reflexivity.
    + rewrite ring_text_json, IH. cbn [res_bind andb].
      fold (closed_rings rings). destruct (closed_rings rings); [| reflexivity].
      change (0 <? S i)%nat with true. cbn iota. f_equal.
      destruct (0 <? i)%nat.
      * reflexivity.
      * now rewrite join_cons.
Qed.

(** X16. The bounding box text.  For a record whose [geo] is null and whose
    place has a bounding box, the geography text that [insert_tweet] builds
    is the list of rings in brackets, rings separated by commas, each ring
    its points as [x y] separated by commas with the first point repeated at
    the end; and a ring without points makes the call fail with
    [IndexError], which neither [except] clause catches. *)
Theorem geo_of_bounding_box (tweet place box : pyval)
        (rings : list (list (pyval * pyval))) :
  getitem tweet "geo" = Ok PNone ->
  getitem tweet "place" = Ok place ->
  getitem place "bounding_box" = Ok box ->
  getitem box "coordinates" = Ok (rings_json rings) ->
  geo_of tweet = if closed_rings rings
                 then Ok (GeoMultiPolygon (multipolygon_wkt rings))
                 else Raise IndexError.
Proof.
  intros Hgeo Hplace Hbox Hcoords. unfold geo_of.
  rewrite Hgeo, Hplace. cbn [res_bind getitem try_except is_TypeError].
  rewrite Hbox. cbn [res_bind]. rewrite Hcoords. unfold rings_json.
  cbn [res_bind py_iter]. rewrite rings_text_json.
  destruct (closed_rings rings); reflexivity.
Qed.

Lemma geo_of_bounding_box_witness :
  geo_of sample_tweet_boxed
  = Ok (GeoMultiPolygon
          "((-71.19 42.23,-70.99 42.23,-70.99 42.4,-71.19 42.4,-71.19 42.23))").
Proof.
  apply (geo_of_bounding_box sample_tweet_boxed sample_place sample_box sample_rings);
    reflexivity.
Defined.
